(** * The oVirt disk module: image upload, storage placement and the driver

    A shallow embedding of [lib/ansible/modules/cloud/ovirt/ovirt_disks.py]:
    [upload_disk_image], [DisksModule.update_storage_domains], [_search_by_lun]
    and [main].

    The module talks to three collaborators: the management service (the SDK
    services), the HTTPS proxy and the local file system.  Every call that
    leaves the module is recorded, in order, in a history of events; what a
    collaborator answers is given by a [World], a family of functions from the
    history so far (the call just made included) to a reply.  The Python code
    is sequential and deterministic, so quantifying over every [World] covers
    every behaviour of the collaborators.

    Python exceptions are the [Raise] outcome, unbounded [while] loops take a
    fuel argument and give [Diverge] when it runs out.

    Not modelled: the parsing of the arguments ([check_sdk], [check_params],
    the argument specification), which precedes the [try] block of [main],
    the construction of the entities ([build_entity], [_update_check]) and
    the bytes of the image.  Of [create_connection] the model keeps whether
    it returns or fails, which decides what the [finally] block of [main]
    does; service locators of the SDK make no call and are no event, but the
    one of the attachment branch. *)

From Stdlib Require Import ZArith List String Bool Lia DecimalString.
Import ListNotations.
Open Scope string_scope.
Open Scope Z_scope.
Open Scope list_scope.

(** ** Values of the SDK *)

(** The phases of a transfer session, [otypes.ImageTransferPhase] (the SDK is
    not part of the repository; the constructors are the phases the module
    and the upload protocol name). *)
Inductive ImageTransferPhase : Type :=
| INITIALIZING
| TRANSFERRING
| FINALIZING_SUCCESS
| FINALIZING_FAILURE
| FINISHED_SUCCESS
| FINISHED_FAILURE
| CANCELLED
| UNKNOWN.

Definition phase_eq_dec (a b : ImageTransferPhase) : {a = b} + {a <> b}.
Proof. decide equality. Defined.

Definition phase_eqb (a b : ImageTransferPhase) : bool :=
  if phase_eq_dec a b then true else false.

(** [x in [a, b, ...]] on phases. *)
Definition phase_in (p : ImageTransferPhase) (l : list ImageTransferPhase) : bool :=
  existsb (phase_eqb p) l.

(** [str(phase)]: the SDK prints a phase by its value, the name in lower case. *)
Definition phase_str (p : ImageTransferPhase) : string :=
  match p with
  | INITIALIZING => "initializing"
  | TRANSFERRING => "transferring"
  | FINALIZING_SUCCESS => "finalizing_success"
  | FINALIZING_FAILURE => "finalizing_failure"
  | FINISHED_SUCCESS => "finished_success"
  | FINISHED_FAILURE => "finished_failure"
  | CANCELLED => "cancelled"
  | UNKNOWN => "unknown"
  end.

Inductive DiskStatus : Type := OK | LOCKED | ILLEGAL.

Definition status_eqb (a b : DiskStatus) : bool :=
  match a, b with
  | OK, OK | LOCKED, LOCKED | ILLEGAL, ILLEGAL => true
  | _, _ => false
  end.

Inductive DiskStorageType : Type := IMAGE | LUN | CINDER.

Definition storage_type_eqb (a b : DiskStorageType) : bool :=
  match a, b with
  | IMAGE, IMAGE | LUN, LUN | CINDER, CINDER => true
  | _, _ => false
  end.

(** [urlparse(transfer.proxy_url)]: the three parts the module reads. *)
Record ParseResult : Type := mkUrl {
  hostname : string;
  port : Z;
  path : string
}.

Record ImageTransfer : Type := mkTransfer {
  transfer_id : string;
  phase : ImageTransferPhase;
  signed_ticket : string;
  proxy_url : ParseResult
}.

Record StorageDomain : Type := mkSd { sd_id : string }.

Record Vm : Type := mkVm { vm_ident : string }.

Record HostStorage : Type := mkHostStorage { hs_id : option string }.

Record Disk : Type := mkDisk {
  disk_id : string;
  storage_type : DiskStorageType;
  disk_storage_domains : list StorageDomain;
  status : DiskStatus;
  lun_storage : option HostStorage
}.

(** ** The module parameters *)

Inductive State : Type := present | absent | attached | detached.

Definition state_eqb (a b : State) : bool :=
  match a, b with
  | present, present | absent, absent
  | attached, attached | detached, detached => true
  | _, _ => false
  end.

(** A Python dict with string keys and values, in insertion order. *)
Definition dict : Type := list (string * string).

Fixpoint dict_get (k : string) (d : dict) : option string :=
  match d with
  | [] => None
  | (k', v) :: d' => if String.eqb k' k then Some v else dict_get k d'
  end.

(** [d[k] = v]: replaces the value of an existing key, appends a new one. *)
Fixpoint dict_set (k v : string) (d : dict) : dict :=
  match d with
  | [] => [(k, v)]
  | (k', v') :: d' =>
      if String.eqb k' k then (k, v) :: d' else (k', v') :: dict_set k v d'
  end.

(** The [auth] dictionary: the two keys [upload_disk_image] reads with [get]. *)
Record Auth : Type := mkAuth {
  insecure : option bool;
  ca_file : option string
}.

Record Params : Type := mkParams {
  p_state : State;
  p_id : option string;
  p_vm_name : option string;
  p_vm_id : option string;
  p_storage_domain : option string;
  p_storage_domains : option (list string);
  p_logical_unit : option dict;
  p_image_path : option string;
  p_force : bool;
  p_auth : Auth;
  p_wait : bool;
  p_timeout : Z;
  p_poll_interval : Z
}.

Definition set_id (params : Params) (i : option string) : Params :=
  mkParams (p_state params) i (p_vm_name params) (p_vm_id params)
    (p_storage_domain params) (p_storage_domains params)
    (p_logical_unit params) (p_image_path params) (p_force params)
    (p_auth params) (p_wait params) (p_timeout params) (p_poll_interval params).

(** Python truthiness of the values the module tests with [if x:]. *)
Definition truthy_bool (o : option bool) : bool :=
  match o with Some b => b | None => false end.

Definition truthy_str (o : option string) : bool :=
  match o with Some s => negb (String.eqb s "") | None => false end.

Definition truthy_list {A : Type} (o : option (list A)) : bool :=
  match o with Some (_ :: _) => true | _ => false end.

Definition is_not_None {A : Type} (o : option A) : bool :=
  match o with Some _ => true | None => false end.

(** ** Events, exceptions and outcomes *)

Inductive Collection : Type := StorageDomains | Vms.

Inductive Event : Type :=
| EGetSize (image_path : option string)
| ETransferAdd (image_id : option string)
| ETransferGet
| ESleep (seconds : Z)
| ESslInsecure
| ELoadVerifyLocations (cafile : string)
| EHttpsConnection (host : string) (prt : Z)
| EOpenImage (image_path : option string)
| EExtend
| EPut (url_path : string) (headers : dict)
| EFinalize
| EDiskStatus (id : option string)
| EDiskGet (id : string)
| ESearchByName (c : Collection) (name : option string)
| EAction (name : string) (id : string) (storage_domain : string)
| EListLunDisks
| ECreateDisk (entity : option Disk) (result_state : option DiskStatus)
| ERemoveDisk
| EAttachmentsService (vm : string)
| ECreateAttachment (vm : string)
| ERemoveAttachment (vm : string)
| EAttachmentDiskStatus (vm : string) (attachment : string)
| EClose.

(** What [module.exit_json] and [module.fail_json] hand to the caller. *)
Inductive ModuleExit : Type :=
| ExitJson (changed : bool) (id : option string)
| FailJson (msg : string).

Inductive exn : Type :=
| Exception (msg : string)
| AttributeError (msg : string)
| IndexError (msg : string)
| RemoteError (msg : string)
| UnboundLocalError (msg : string)
| TimeoutExceeded
| SystemExit (e : ModuleExit).

(** [str(e)] *)
Definition str_exn (e : exn) : string :=
  match e with
  | Exception m | AttributeError m | IndexError m | RemoteError m
  | UnboundLocalError m => m
  | TimeoutExceeded => "Timeout exceeded."
  | SystemExit _ => ""
  end.

(** [except Exception] catches everything but [SystemExit]. *)
Definition is_Exception (e : exn) : bool :=
  match e with SystemExit _ => false | _ => true end.

Inductive outcome (A : Type) : Type :=
| Ret (a : A)
| Raise (e : exn)
| Diverge.
Arguments Ret {A} a.
Arguments Raise {A} e.
Arguments Diverge {A}.

(** ** A state and exception monad *)

Definition M (S A : Type) : Type := S -> outcome A * S.

Definition ret {S A : Type} (a : A) : M S A := fun s => (Ret a, s).

Definition raise {S A : Type} (e : exn) : M S A := fun s => (Raise e, s).

Definition diverge {S A : Type} : M S A := fun s => (Diverge, s).

Definition bind {S A B : Type} (m : M S A) (k : A -> M S B) : M S B :=
  fun s =>
    match m s with
    | (Ret a, s') => k a s'
    | (Raise e, s') => (Raise e, s')
    | (Diverge, s') => (Diverge, s')
    end.

Declare Scope monad_scope.
Delimit Scope monad_scope with monad.
Notation "x <- m ; k" := (bind m (fun x => k))
  (at level 100, m at next level, right associativity) : monad_scope.
Notation "m ;; k" := (bind m (fun _ => k))
  (at level 100, right associativity) : monad_scope.
Open Scope monad_scope.

(** [try: body finally: fin].  The [finally] block runs when the body
    returned or raised; an exception of the [finally] block replaces the
    pending one, otherwise the outcome of the body stands. *)
Definition try_finally {S A : Type} (body : M S A) (fin : M S unit) : M S A :=
  fun s =>
    match body s with
    | (Diverge, s') => (Diverge, s')
    | (r, s') =>
        match fin s' with
        | (Ret _, s'') => (r, s'')
        | (Raise e, s'') => (Raise e, s'')
        | (Diverge, s'') => (Diverge, s'')
        end
    end.

(** [try: body except Exception as e: handler(e)] *)
Definition try_except {S A : Type} (body : M S A) (handler : exn -> M S A) : M S A :=
  fun s =>
    match body s with
    | (Raise e, s') => if is_Exception e then handler e s' else (Raise e, s')
    | r => r
    end.

(** ** The collaborators *)

Inductive reply (A : Type) : Type :=
| Replied (a : A)
| Failed (msg : string).
Arguments Replied {A} a.
Arguments Failed {A} msg.

Definition History : Type := list Event.

Record World : Type := mkWorld {
  w_create_connection : Auth -> History -> reply unit;
  w_getsize : History -> reply Z;
  w_transfer_add : History -> reply ImageTransfer;
  w_transfer_get : History -> reply ImageTransfer;
  w_load_verify_locations : History -> reply unit;
  w_open : History -> reply unit;
  w_extend : History -> reply unit;
  w_put : History -> reply Z;
  w_finalize : History -> reply unit;
  w_disk_status : History -> reply DiskStatus;
  w_disk_get : History -> reply Disk;
  w_search_sd : History -> reply (option StorageDomain);
  w_search_vm : History -> reply (option Vm);
  w_action : History -> reply unit;
  w_lun_disks : History -> reply (list Disk);
  w_create_disk : History -> reply (bool * string);
  w_remove_disk : History -> reply (bool * option string);
  w_create_attachment : History -> reply (bool * string);
  w_remove_attachment : History -> reply (bool * option string);
  w_wait_interval : Z
}.

(** A call to a collaborator: the event is recorded, then the world answers
    on the history that ends with it. *)
Definition call {A : Type} (ev : Event) (answer : History -> reply A) : M History A :=
  fun h =>
    let h' := h ++ [ev] in
    match answer h' with
    | Replied a => (Ret a, h')
    | Failed msg => (Raise (RemoteError msg), h')
    end.

(** A call that cannot fail. *)
Definition emit (ev : Event) : M History unit :=
  fun h => (Ret tt, h ++ [ev]).

(** [time.sleep(seconds)] *)
Definition sleep (seconds : Z) : M History unit := emit (ESleep seconds).

(** The time slept so far: the clock of the model. *)
Fixpoint clock (h : History) : Z :=
  match h with
  | [] => 0
  | ESleep s :: h' => s + clock h'
  | _ :: h' => clock h'
  end.

Definition now : M History Z := fun h => (Ret (clock h), h).

(** ** [wait] *)

(** Modelled from the spec: the [wait] helper of [ansible.module_utils.ovirt],
    which is not among the sources.  Sections 4.3 and 5 of the specification: a
    status wait polls at a fixed interval, is bounded by the timeout the caller
    supplies and fails with TimeoutExceeded when the deadline is exceeded.
    [cond] fetches the entity and tests the condition; the flag is the
    [wait] argument of the call sites, without which nothing is waited for. *)
Fixpoint wait_poll (fuel : nat) (interval : Z) (cond : M History bool)
    (deadline : Z) : M History unit :=
  match fuel with
  | O => diverge
  | S fuel' =>
      ok <- cond ;
      if ok : bool then ret tt
      else
        t <- now ;
        if deadline <=? t then raise TimeoutExceeded
        else sleep interval ;; wait_poll fuel' interval cond deadline
  end.

Definition wait (fuel : nat) (w : World) (cond : M History bool)
    (wait_flag : bool) (timeout : Z) : M History unit :=
  if wait_flag then
    start <- now ;
    wait_poll fuel (w_wait_interval w) cond (start + timeout)
  else ret tt.

(** The condition [lambda d: d.status == otypes.DiskStatus.OK] on the disk
    service of [id]. *)
Definition disk_is_OK (w : World) (id : option string) : M History bool :=
  s <- call (EDiskStatus id) (w_disk_status w) ;
  ret (status_eqb s OK).

(** ** [upload_disk_image] *)

(** The local variable [transfer] is assigned in the [try] block and read in
    the [finally] block: it lives in the frame, next to the history. *)
Record Frame : Type := mkFrame {
  f_hist : History;
  f_transfer : ImageTransfer
}.

Definition lift {A : Type} (m : M History A) : M Frame A :=
  fun st =>
    let (r, h) := m (f_hist st) in
    (r, mkFrame h (f_transfer st)).

Definition get_transfer : M Frame ImageTransfer :=
  fun st => (Ret (f_transfer st), st).

Definition set_transfer (t : ImageTransfer) : M Frame unit :=
  fun st => (Ret tt, mkFrame (f_hist st) t).

Definition in_frame {A : Type} (t : ImageTransfer) (m : M Frame A) : M History A :=
  fun h =>
    let (r, st) := m (mkFrame h t) in
    (r, f_hist st).

Definition chunk_size : Z := 1024 * 1024 * 8.

(** ["%d" % z] *)
Definition fmt_d (z : Z) : string := NilZero.string_of_int (Z.to_int z).

(** ["bytes %d-%d/%d" % (first, last, total)] *)
Definition fmt_content_range (first last total : Z) : string :=
  ("bytes " ++ fmt_d first ++ "-" ++ fmt_d last ++ "/" ++ fmt_d total)%string.

(** [while transfer.phase == INITIALIZING: sleep; transfer = get()] *)
Fixpoint init_wait (fuel : nat) (w : World) (poll_interval : Z) : M Frame unit :=
  match fuel with
  | O => diverge
  | S fuel' =>
      transfer <- get_transfer ;
      if phase_eqb (phase transfer) INITIALIZING then
        lift (sleep poll_interval) ;;
        transfer' <- lift (call ETransferGet (w_transfer_get w)) ;
        set_transfer transfer' ;;
        init_wait fuel' w poll_interval
      else ret tt
  end.

(** The TLS context of the proxy connection. *)
Definition ssl_context (w : World) (auth : Auth) : M History unit :=
  if truthy_bool (insecure auth) then emit ESslInsecure
  else if truthy_str (ca_file auth) then
    call (ELoadVerifyLocations "ca.pem") (w_load_verify_locations w)
  else ret tt.

(** [while pos < size: ...].  [request] and [getresponse] are one [EPut]
    event, answered by the status of the response; the body of the request
    is the next [chunk_size] bytes of the image. *)
Fixpoint upload_loop (fuel : nat) (w : World) (size : Z) (url : ParseResult)
    (upload_headers : dict) (pos : Z) : M History unit :=
  match fuel with
  | O => diverge
  | S fuel' =>
      if pos <? size then
        call EExtend (w_extend w) ;;
        let upload_headers :=
          dict_set "Content-Range"
            (fmt_content_range pos (Z.min (pos + chunk_size) size - 1) size)
            upload_headers in
        r_status <- call (EPut (path url) upload_headers) (w_put w) ;
        if r_status >=? 400 then raise (Exception "Failed to upload disk image.")
        else upload_loop fuel' w size url upload_headers (pos + chunk_size)
      else ret tt
  end.

(** The body of the [try] block. *)
Definition upload_try (fuel : nat) (w : World) (params : Params) (size : Z)
    : M Frame unit :=
  init_wait fuel w (p_poll_interval params) ;;
  transfer <- get_transfer ;
  let upload_headers := [("Authorization", signed_ticket transfer)] in
  let url := proxy_url transfer in
  lift (ssl_context w (p_auth params)) ;;
  lift (emit (EHttpsConnection (hostname url) (port url))) ;;
  lift (call (EOpenImage (p_image_path params)) (w_open w)) ;;
  lift (upload_loop fuel w size url upload_headers 0).

(** [while transfer.phase in [TRANSFERRING, FINALIZING_SUCCESS]: ...] *)
Fixpoint finalize_wait (fuel : nat) (w : World) (poll_interval : Z) : M Frame unit :=
  match fuel with
  | O => diverge
  | S fuel' =>
      transfer <- get_transfer ;
      if phase_in (phase transfer) [TRANSFERRING; FINALIZING_SUCCESS] then
        lift (sleep poll_interval) ;;
        transfer' <- lift (call ETransferGet (w_transfer_get w)) ;
        set_transfer transfer' ;;
        finalize_wait fuel' w poll_interval
      else ret tt
  end.

Definition failure_phases : list ImageTransferPhase :=
  [UNKNOWN; FINISHED_FAILURE; FINALIZING_FAILURE; CANCELLED].

Definition transfer_failed_msg (p : ImageTransferPhase) : string :=
  ("Error occured while uploading image. The transfer is in " ++ phase_str p)%string.

(** The body of the [finally] block. *)
Definition upload_finally (fuel : nat) (w : World) (params : Params) : M Frame unit :=
  lift (call EFinalize (w_finalize w)) ;;
  finalize_wait fuel w (p_poll_interval params) ;;
  transfer <- get_transfer ;
  (if phase_in (phase transfer) failure_phases
   then raise (Exception (transfer_failed_msg (phase transfer)))
   else ret tt) ;;
  if truthy_list (p_logical_unit params) then
    lift (wait fuel w (disk_is_OK w (p_id params)) (p_wait params) (p_timeout params))
  else ret tt.

Definition upload_disk_image (fuel : nat) (w : World) (params : Params)
    : M History bool :=
  size <- call (EGetSize (p_image_path params)) (w_getsize w) ;
  transfer <- call (ETransferAdd (p_id params)) (w_transfer_add w) ;
  in_frame transfer
    (try_finally (upload_try fuel w params size) (upload_finally fuel w params)) ;;
  ret true.

(** ** The helpers of [ansible.module_utils.ovirt] *)

(** Modelled from the spec: [search_by_name], the name-based search of the
    management service (section 6), which is not among the sources.  A name
    that resolves to no entity gives [None]: the driver reads the result with
    [getattr(..., 'id', None)]. *)
Definition search_by_name {A : Type} (c : Collection) (answer : History -> reply (option A))
    (name : option string) : M History (option A) :=
  call (ESearchByName c name) answer.

(** [new_disk_storage.id] *)
Definition attr_id (o : option StorageDomain) : M History string :=
  match o with
  | Some sd => ret (sd_id sd)
  | None => raise (AttributeError "'NoneType' object has no attribute 'id'")
  end.

(** Modelled from the spec: [BaseModule.action], which is not among the
    sources.  Section 4.1: the action is issued when its condition holds on
    the entity (it is skipped otherwise), then the remote status is waited
    for; section 2: the reconciler returns whether a change occurred.
    [post_action] is the hook the caller passes; it runs after the action. *)
Definition action (fuel : nat) (w : World) (params : Params) (name : string)
    (entity : Disk) (action_condition : Disk -> M History bool)
    (wait_condition : M History bool) (storage_domain : string)
    (post_action : M History unit) : M History bool :=
  go <- action_condition entity ;
  if go : bool then
    call (EAction name (disk_id entity) storage_domain) (w_action w) ;;
    post_action ;;
    wait fuel w wait_condition (p_wait params) (p_timeout params) ;;
    ret true
  else ret false.

(** The result dictionary of the reconciler: the keys the driver reads. *)
Record Result : Type := mkResult {
  changed : bool;
  res_id : option string
}.

(** Modelled from the spec: [BaseModule.create] and [BaseModule.remove], the
    Entity Reconciler of section 2, which is not among the sources: the remote
    collection is asked to converge, and the result tells whether a change
    occurred and the identity of the entity.  [self_changed] is the [changed]
    argument of the constructor, which the result accumulates. *)
Definition create (ev : Event) (answer : History -> reply (bool * string))
    (self_changed : bool) : M History Result :=
  r <- call ev answer ;
  ret (mkResult (self_changed || fst r) (Some (snd r))).

Definition remove (ev : Event) (answer : History -> reply (bool * option string))
    (self_changed : bool) : M History Result :=
  r <- call ev answer ;
  ret (mkResult (self_changed || fst r) (snd r)).

(** ** [DisksModule.update_storage_domains] *)

(** [lambda d: new_disk_storage.id != d.storage_domains[0].id] *)
Definition move_condition (new_id : string) (d : Disk) : M History bool :=
  match disk_storage_domains d with
  | sd :: _ => ret (negb (String.eqb new_id (sd_id sd)))
  | [] => raise (IndexError "list index out of range")
  end.

(** [for sd in self._module.params['storage_domains']: ...];
    [changed or self.action(...)['changed']] evaluates its right operand, the
    [storage_domain=] argument included, only when [changed] is false. *)
Fixpoint copy_loop (fuel : nat) (w : World) (params : Params) (disk : Disk)
    (changed : bool) (sds : list string) : M History bool :=
  match sds with
  | [] => ret changed
  | sd :: rest =>
      new_disk_storage <- search_by_name StorageDomains (w_search_sd w) (Some sd) ;
      changed' <-
        (if changed then ret true
         else
           id <- attr_id new_disk_storage ;
           action fuel w params "copy" disk (fun _ => ret true)
             (disk_is_OK w (Some (disk_id disk))) id (ret tt)) ;
      copy_loop fuel w params disk changed' rest
  end.

Definition update_storage_domains (fuel : nat) (w : World) (params : Params)
    (disk_id0 : string) : M History bool :=
  let changed := false in
  disk <- call (EDiskGet disk_id0) (w_disk_get w) ;
  if negb (storage_type_eqb (storage_type disk) IMAGE) then ret changed
  else
    changed <-
      (if truthy_str (p_storage_domain params) then
         new_disk_storage <-
           search_by_name StorageDomains (w_search_sd w) (p_storage_domain params) ;
         id <- attr_id new_disk_storage ;
         action fuel w params "move" disk (move_condition id)
           (disk_is_OK w (Some (disk_id disk))) id
           (sleep (p_poll_interval params))
       else ret changed) ;
    if truthy_list (p_storage_domains params) then
      copy_loop fuel w params disk changed
        (match p_storage_domains params with Some l => l | None => [] end)
    else ret changed.

(** ** [_search_by_lun] *)

Definition opt_str_eqb (a b : option string) : bool :=
  match a, b with
  | Some x, Some y => String.eqb x y
  | None, None => true
  | _, _ => false
  end.

(** [[disk for disk in ... if disk.lun_storage.id == lun_id]] *)
Fixpoint lun_matches (lun_id : option string) (disks : list Disk)
    : M History (list Disk) :=
  match disks with
  | [] => ret []
  | d :: rest =>
      match lun_storage d with
      | None => raise (AttributeError "'NoneType' object has no attribute 'id'")
      | Some hs =>
          res <- lun_matches lun_id rest ;
          ret (if opt_str_eqb (hs_id hs) lun_id then d :: res else res)
      end
  end.

Definition _search_by_lun (w : World) (lun_id : option string) : M History (option Disk) :=
  disks <- call EListLunDisks (w_lun_disks w) ;
  res <- lun_matches lun_id disks ;
  ret (match res with d :: _ => Some d | [] => None end).

(** ** [main] *)

Definition exit_json {A : Type} (r : Result) : M History A :=
  raise (SystemExit (ExitJson (changed r) (res_id r))).

Definition fail_json {A : Type} (msg : string) : M History A :=
  raise (SystemExit (FailJson msg)).

(** The condition of the [if] that guards the attachment branch:
    [vm_id is not None or vm_name is not None and state != 'absent'];
    [and] binds tighter than [or]. *)
Definition vm_reference_present (params : Params) : bool :=
  is_not_None (p_vm_id params)
  || (is_not_None (p_vm_name params) && negb (state_eqb (p_state params) absent)).

(** [if state == 'present' or state == 'detached' or state == 'attached': ...]:
    the result and the parameters with the [id] the branch stores in them. *)
Definition reconcile_disk (fuel : nat) (w : World) (params : Params)
    (disk : option Disk) : M History (Result * Params) :=
  let lun := p_logical_unit params in
  r <- create (ECreateDisk disk (if is_not_None lun then None else Some OK))
         (w_create_disk w) false ;
  let is_new_disk := changed r in
  let id := match res_id r with Some i => i | None => "" end in
  ch <- (if changed r then ret true else update_storage_domains fuel w params id) ;
  let params :=
    set_id params (match disk with None => res_id r | Some d => Some (disk_id d) end) in
  ch <-
    (if truthy_str (p_image_path params) && (is_new_disk || p_force params) then
       uploaded <- upload_disk_image fuel w params ;
       ret (ch || uploaded)
     else ret ch) ;
  ret (mkResult ch (res_id r), params).

(** The attachment branch, entered with the VM reference present. *)
Definition attach_branch (fuel : nat) (w : World) (params : Params)
    (r : Result) : M History Result :=
  let state := p_state params in
  let lun := p_logical_unit params in
  vm_id <-
    match p_vm_id params with
    | Some v => ret (Some v)
    | None =>
        vm <- search_by_name Vms (w_search_vm w) (p_vm_name params) ;
        ret (option_map vm_ident vm)
    end ;
  match vm_id with
  | None => fail_json "VM don't exists, please create it first."
  | Some vm_id =>
      emit (EAttachmentsService vm_id) ;;
      let self_changed := changed r in
      if state_eqb state present || state_eqb state attached then
        r' <- create (ECreateAttachment vm_id) (w_create_attachment w) self_changed ;
        (if is_not_None lun then ret tt
         else
           wait fuel w
             (s <- call (EAttachmentDiskStatus vm_id
                           (match res_id r' with Some i => i | None => "" end))
                        (w_disk_status w) ;
              ret (status_eqb s OK))
             (p_wait params) (p_timeout params)) ;;
        ret r'
      else if state_eqb state detached then
        remove (ERemoveAttachment vm_id) (w_remove_attachment w) self_changed
      else ret r
  end.

(** The LUN lookup that precedes everything else. *)
Definition lun_phase (w : World) (params : Params) : M History (option Disk) :=
  let lun := p_logical_unit params in
  if truthy_list lun
  then _search_by_lun w (match lun with Some l => dict_get "id" l | None => None end)
  else ret None.

(** [connection = create_connection(module.params.get('auth'))]: the log-in
    to the engine.  The history records the calls made through the
    connection; its creation is asked of the world on the history so far and
    adds no event. *)
Definition create_connection (w : World) (auth : Auth) : M History unit :=
  fun h =>
    match w_create_connection w auth h with
    | Replied _ => (Ret tt, h)
    | Failed msg => (Raise (RemoteError msg), h)
    end.

(** The [try] block up to the attachment branch: the connection is created,
    the disk looked up by its LUN, and created or updated, or removed:
    [ret] and the parameters. *)
Definition disk_phase (fuel : nat) (w : World) (params : Params)
    : M History (Result * Params) :=
  let state := p_state params in
  create_connection w (p_auth params) ;;
  disk <- lun_phase w params ;
  if state_eqb state present || state_eqb state detached || state_eqb state attached
  then reconcile_disk fuel w params disk
  else
    r <- remove ERemoveDisk (w_remove_disk w) false ;
    ret (r, params).

Definition main_body (fuel : nat) (w : World) (params : Params) : M History unit :=
  rp <- disk_phase fuel w params ;
  let (r, params) := rp : Result * Params in
  r <- (if vm_reference_present params then attach_branch fuel w params r else ret r) ;
  exit_json r.

(** What the name [connection] is bound to in a run of [main] that starts
    on the history [h]: it is assigned by [create_connection], the first
    statement of the [try] block that can fail, and by nothing else. *)
Definition connection_of (w : World) (auth : Auth) (h : History) : option unit :=
  match w_create_connection w auth h with
  | Replied c => Some c
  | Failed _ => None
  end.

Definition unbound_connection : exn :=
  UnboundLocalError "local variable 'connection' referenced before assignment".

(** [connection.close(logout=False)]: reading a local name that was never
    assigned raises UnboundLocalError; with [logout=False] nothing is asked
    of the engine, the call returns. *)
Definition close (connection : option unit) : M History unit :=
  match connection with
  | Some _ => emit EClose
  | None => raise unbound_connection
  end.

(** [try: ... except Exception as e: module.fail_json(msg=str(e)) finally:
    connection.close(logout=False)], from line 443 on: the argument
    specification and the checks that precede the [try] are not part of it. *)
Definition main (fuel : nat) (w : World) (params : Params) : M History unit :=
  fun h =>
    try_finally
      (try_except (main_body fuel w params) (fun e => fail_json (str_exn e)))
      (close (connection_of w (p_auth params) h)) h.

(** ** Sample collaborators *)

Definition sample_url : ParseResult := mkUrl "proxy.example.com" 54323 "/images/t1".

Definition transfer_in (p : ImageTransferPhase) : ImageTransfer :=
  mkTransfer "t1" p "ticket" sample_url.

Definition is_get (e : Event) : bool :=
  match e with ETransferGet => true | _ => false end.

Definition is_put (e : Event) : bool :=
  match e with EPut _ _ => true | _ => false end.

Definition is_extend (e : Event) : bool :=
  match e with EExtend => true | _ => false end.

Definition is_status_poll (e : Event) : bool :=
  match e with EDiskStatus _ | EAttachmentDiskStatus _ _ => true | _ => false end.

Definition is_action (name : string) (e : Event) : bool :=
  match e with EAction n _ _ => String.eqb n name | _ => false end.

Definition is_attachment_change (e : Event) : bool :=
  match e with ECreateAttachment _ | ERemoveAttachment _ => true | _ => false end.

Definition count (f : Event -> bool) (h : History) : nat := List.length (filter f h).

(** The name of the search that ends the history. *)
Definition searched_name (h : History) : option string :=
  match last h EClose with
  | ESearchByName _ name => name
  | _ => None
  end.

(** A world given by the size of the image, the phase the k-th [get] reports,
    the status of the k-th [PUT], the status the k-th poll of a disk reports,
    the disk, and the storage domains and the VMs that exist, by name.  No
    call fails. *)
Definition sample_world (size : Z) (phases : nat -> ImageTransferPhase)
    (put_status : nat -> Z) (disk_status : nat -> DiskStatus) (disk : Disk)
    (sds : string -> option StorageDomain) (vms : string -> option Vm) : World :=
  {| w_create_connection := fun _ _ => Replied tt;
     w_getsize := fun _ => Replied size;
     w_transfer_add := fun _ => Replied (transfer_in INITIALIZING);
     w_transfer_get := fun h => Replied (transfer_in (phases (count is_get h)));
     w_load_verify_locations := fun _ => Replied tt;
     w_open := fun _ => Replied tt;
     w_extend := fun _ => Replied tt;
     w_put := fun h => Replied (put_status (count is_put h));
     w_finalize := fun _ => Replied tt;
     w_disk_status := fun h => Replied (disk_status (count is_status_poll h));
     w_disk_get := fun _ => Replied disk;
     w_search_sd := fun h =>
       Replied (match searched_name h with Some n => sds n | None => None end);
     w_search_vm := fun h =>
       Replied (match searched_name h with Some n => vms n | None => None end);
     w_action := fun _ => Replied tt;
     w_lun_disks := fun _ => Replied [];
     w_create_disk := fun _ => Replied (false, disk_id disk);
     w_remove_disk := fun _ => Replied (true, Some (disk_id disk));
     w_create_attachment := fun _ => Replied (true, "att-1");
     w_remove_attachment := fun _ => Replied (true, Some "att-1");
     w_wait_interval := 3 |}.

Definition image_disk : Disk := mkDisk "d1" IMAGE [mkSd "sd-data"] OK None.

Definition lun_disk : Disk :=
  mkDisk "d2" LUN [] OK (Some (mkHostStorage (Some "1IET_000d0001"))).

(** The first poll reports TRANSFERRING, the second FINALIZING_SUCCESS and
    the later ones FINISHED_SUCCESS. *)
Definition smooth_phases (k : nat) : ImageTransferPhase :=
  match k with
  | 1%nat => TRANSFERRING
  | 2%nat => FINALIZING_SUCCESS
  | _ => FINISHED_SUCCESS
  end.

(** Every storage domain name resolves, but [nowhere]. *)
Definition sample_sds (n : string) : option StorageDomain :=
  if String.eqb n "nowhere" then None else Some (mkSd ("sd-" ++ n)%string).

Definition sample_vms (n : string) : option Vm :=
  if String.eqb n "rhel7" then Some (mkVm "vm-7") else None.

Definition smooth_world (size : Z) (disk : Disk) : World :=
  sample_world size smooth_phases (fun _ => 200) (fun _ => OK) disk
    sample_sds sample_vms.

Definition sample_params : Params :=
  {| p_state := present;
     p_id := Some "d1";
     p_vm_name := None;
     p_vm_id := None;
     p_storage_domain := None;
     p_storage_domains := None;
     p_logical_unit := None;
     p_image_path := Some "/srv/images/disk.qcow2";
     p_force := true;
     p_auth := mkAuth None None;
     p_wait := true;
     p_timeout := 180;
     p_poll_interval := 3 |}.

(** The history after [k] more rounds of [sleep; get]. *)
Fixpoint polled (interval : Z) (h : History) (k : nat) : History :=
  match k with
  | O => h
  | S k' => polled interval (h ++ [ESleep interval; ETransferGet]) k'
  end.

(** The service never leaves INITIALIZING. *)
Definition stuck_world : World :=
  sample_world 20000000 (fun _ => INITIALIZING) (fun _ => 200) (fun _ => OK)
    image_disk sample_sds sample_vms.

(** The service never leaves TRANSFERRING, finalized or not. *)
Definition held_world : World :=
  sample_world 20000000 (fun _ => TRANSFERRING) (fun _ => 200) (fun _ => OK)
    image_disk sample_sds sample_vms.

(** The disk of the world never becomes OK. *)
Definition locked_world : World :=
  sample_world 20000000 smooth_phases (fun _ => 200) (fun _ => LOCKED)
    lun_disk sample_sds sample_vms.

(** The scheme of the two phase loops of [upload_disk_image]: poll while the
    phase of [transfer] passes [test].  [init_wait] and [finalize_wait] above
    are its two instances (lemmas [init_wait_poll_while] and
    [finalize_wait_poll_while]). *)
Fixpoint poll_while (w : World) (interval : Z) (test : ImageTransferPhase -> bool)
    (fuel : nat) : M Frame unit :=
  match fuel with
  | O => diverge
  | S fuel' =>
      transfer <- get_transfer ;
      if test (phase transfer) then
        lift (sleep interval) ;;
        transfer' <- lift (call ETransferGet (w_transfer_get w)) ;
        set_transfer transfer' ;;
        poll_while w interval test fuel'
      else ret tt
  end.

Definition initializing (p : ImageTransferPhase) : bool := phase_eqb p INITIALIZING.

Definition finalizing (p : ImageTransferPhase) : bool :=
  phase_in p [TRANSFERRING; FINALIZING_SUCCESS].

(** A condition that polls: it answers or fails with the service, and takes
    no time. *)
Definition poll_like (cond : M History bool) : Prop :=
  forall h,
    (exists b, fst (cond h) = Ret b \/ exists msg, fst (cond h) = Raise (RemoteError msg))
    /\ clock (snd (cond h)) = clock h.

(** Fuel enough for a timeout: the polls that fit in it, and two. *)
Definition wait_fuel (timeout interval : Z) : nat :=
  (Z.to_nat (timeout / interval) + 2)%nat.

(** Parameters that differ from others in one field. *)
Definition with_auth (a : Auth) (p : Params) : Params :=
  mkParams (p_state p) (p_id p) (p_vm_name p) (p_vm_id p) (p_storage_domain p)
    (p_storage_domains p) (p_logical_unit p) (p_image_path p) (p_force p)
    a (p_wait p) (p_timeout p) (p_poll_interval p).

Definition with_state (s : State) (p : Params) : Params :=
  mkParams s (p_id p) (p_vm_name p) (p_vm_id p) (p_storage_domain p)
    (p_storage_domains p) (p_logical_unit p) (p_image_path p) (p_force p)
    (p_auth p) (p_wait p) (p_timeout p) (p_poll_interval p).

Definition with_vm (name id : option string) (p : Params) : Params :=
  mkParams (p_state p) (p_id p) name id (p_storage_domain p)
    (p_storage_domains p) (p_logical_unit p) (p_image_path p) (p_force p)
    (p_auth p) (p_wait p) (p_timeout p) (p_poll_interval p).

Definition with_storage (sd : option string) (sds : option (list string))
    (p : Params) : Params :=
  mkParams (p_state p) (p_id p) (p_vm_name p) (p_vm_id p) sd sds
    (p_logical_unit p) (p_image_path p) (p_force p)
    (p_auth p) (p_wait p) (p_timeout p) (p_poll_interval p).

Definition with_image (image_path : option string) (force : bool)
    (p : Params) : Params :=
  mkParams (p_state p) (p_id p) (p_vm_name p) (p_vm_id p) (p_storage_domain p)
    (p_storage_domains p) (p_logical_unit p) image_path force
    (p_auth p) (p_wait p) (p_timeout p) (p_poll_interval p).

Definition with_logical_unit (lun : option dict) (p : Params) : Params :=
  mkParams (p_state p) (p_id p) (p_vm_name p) (p_vm_id p) (p_storage_domain p)
    (p_storage_domains p) lun (p_image_path p) (p_force p)
    (p_auth p) (p_wait p) (p_timeout p) (p_poll_interval p).

(** The caller supplies the CA file of the engine. *)
Definition ca_params : Params :=
  with_auth (mkAuth (Some false) (Some "/etc/pki/ovirt-engine/ca.pem")) sample_params.

(** Two storage domains to copy the disk to, no image to upload. *)
Definition copy_params : Params :=
  with_storage None (Some ["fast"; "slow"]) (with_image None false sample_params).

(** The disk is to be removed; the VM is given by its id, or by its name. *)
Definition absent_vm_id_params : Params :=
  with_vm None (Some "vm-7") (with_state absent (with_image None false sample_params)).

Definition absent_vm_name_params : Params :=
  with_vm (Some "rhel7") None (with_state absent (with_image None false sample_params)).

Definition is_vm_search (e : Event) : bool :=
  match e with ESearchByName Vms _ => true | _ => false end.

Definition is_attachments_service (e : Event) : bool :=
  match e with EAttachmentsService _ => true | _ => false end.

(** [m] adds to the history only events that pass [P]. *)
Definition appends {A : Type} (P : Event -> bool) (m : M History A) : Prop :=
  forall h, exists evs, snd (m h) = h ++ evs /\ forallb P evs = true.

Definition appends_frame {A : Type} (P : Event -> bool) (m : M Frame A) : Prop :=
  forall st, exists evs, f_hist (snd (m st)) = f_hist st ++ evs /\ forallb P evs = true.

Definition is_load_verify (e : Event) : bool :=
  match e with ELoadVerifyLocations _ => true | _ => false end.

(** Events that neither look a VM up nor change an attachment. *)
Definition leaves_vm_alone (e : Event) : bool :=
  negb (is_attachment_change e || is_vm_search e).

(** ceil(a / b) *)
Definition ceil_div (a b : Z) : Z := (a + b - 1) / b.

(** The headers of the k-th request, counted from 0, of an image of [size]
    bytes. *)
Definition chunk_headers (ticket : string) (size : Z) (k : nat) : dict :=
  [("Authorization", ticket);
   ("Content-Range",
    fmt_content_range (Z.of_nat k * chunk_size)
      (Z.min ((Z.of_nat k + 1) * chunk_size) size - 1) size)].

(** The two calls of the k-th round of the upload loop. *)
Definition chunk_events (url_path ticket : string) (size : Z) (k : nat) : list Event :=
  [EExtend; EPut url_path (chunk_headers ticket size k)].

(** The headers carry the ticket, and the range of an earlier round or none. *)
Definition headers_of_round (ticket : string) (hdrs : dict) : Prop :=
  forall v, dict_set "Content-Range" v hdrs
            = [("Authorization", ticket); ("Content-Range", v)].

(** Events other than the two calls of a round of the upload loop. *)
Definition not_chunk (e : Event) : bool := negb (is_put e || is_extend e).

(** The i-th event of the history is a [PUT] that the proxy answered with a
    status of 400 or more. *)
Definition put_rejected (w : World) (h : History) (i : nat) : Prop :=
  exists url_path hdrs s,
    nth_error h i = Some (EPut url_path hdrs)
    /\ w_put w (firstn (S i) h) = Replied s /\ 400 <= s.

Definition not_put (e : Event) : bool := negb (is_put e).

(** In a run of [m], a rejected [PUT] is the last event and makes [m] raise
    the exception of the upload loop. *)
Definition rejected_is_last {A : Type} (w : World) (m : M Frame A) : Prop :=
  forall st r st' i,
    m st = (r, st') ->
    (List.length (f_hist st) <= i)%nat ->
    put_rejected w (f_hist st') i ->
    S i = List.length (f_hist st')
    /\ r = Raise (Exception "Failed to upload disk image.").

(** The proxy rejects the second chunk. *)
Definition rejecting_world : World :=
  sample_world 20000000 smooth_phases
    (fun k => match k with 2%nat => 500 | _ => 200 end) (fun _ => OK)
    image_disk sample_sds sample_vms.

(** The exceptions of [m] all satisfy [P]. *)
Definition may_raise {S A : Type} (P : exn -> Prop) (m : M S A) : Prop :=
  forall s e, fst (m s) = Raise e -> P e.

(** The transfer is cancelled while the image is sent. *)
Definition cancelled_world : World :=
  sample_world 20000000
    (fun k => match k with 1%nat => TRANSFERRING | _ => CANCELLED end)
    (fun _ => 200) (fun _ => OK) image_disk sample_sds sample_vms.

(** Exceptions other than the one that reports a failed transfer: those
    whose message does not start with the text of that report. *)
Definition not_transfer_error (e : exn) : Prop :=
  forall s : string,
    e <> Exception
           ("Error occured while uploading image. The transfer is in " ++ s)%string.

(** The disk is to be on the storage domain [fast]. *)
Definition move_params : Params :=
  with_storage (Some "fast") None (with_image None false sample_params).

(** A storage domain that does not exist is declared. *)
Definition nowhere_params : Params :=
  with_storage (Some "nowhere") None (with_image None false sample_params).

(** The result of a reconciler call that ends with a wait. *)
Definition changed_after (r : outcome unit) : outcome bool :=
  match r with
  | Ret _ => Ret true
  | Raise e => Raise e
  | Diverge => Diverge
  end.

(** The disk is to be attached to a VM that does not exist. *)
Definition ghost_vm_params : Params :=
  with_vm (Some "ghost") None (with_image None false sample_params).

Definition attribute_error_id : exn :=
  AttributeError "'NoneType' object has no attribute 'id'".

Definition vm_missing : exn :=
  SystemExit (FailJson "VM don't exists, please create it first.").

(** Exceptions other than the normal exit of the module. *)
Definition not_exit_json (e : exn) : Prop :=
  match e with
  | SystemExit (ExitJson _ _) => False
  | _ => True
  end.

(** The [result_state] argument of the creation of the disk. *)
Definition result_state (params : Params) : option DiskStatus :=
  if is_not_None (p_logical_unit params) then None else Some OK.

(** ** Classes of events *)

(** The calls of [upload_disk_image]. *)
Definition is_upload_event (e : Event) : bool :=
  match e with
  | EGetSize _ | ETransferAdd _ | ETransferGet | ESleep _ | ESslInsecure
  | ELoadVerifyLocations _ | EHttpsConnection _ _ | EOpenImage _ | EExtend
  | EPut _ _ | EFinalize | EDiskStatus _ => true
  | _ => false
  end.

(** The calls of [update_storage_domains]. *)
Definition is_storage_event (e : Event) : bool :=
  match e with
  | EDiskGet _ | ESearchByName StorageDomains _ | EAction _ _ _ | ESleep _
  | EDiskStatus _ => true
  | _ => false
  end.

(** The calls of the attachment branch of [main]. *)
Definition is_attach_event (e : Event) : bool :=
  match e with
  | ESearchByName Vms _ | EAttachmentsService _ | ECreateAttachment _
  | ERemoveAttachment _ | EAttachmentDiskStatus _ _ | ESleep _ => true
  | _ => false
  end.

(** The calls of the disk phase of [main]. *)
Definition is_disk_phase_event (e : Event) : bool :=
  match e with
  | EListLunDisks | ECreateDisk _ _ | ERemoveDisk => true
  | _ => is_storage_event e || is_upload_event e
  end.

Definition is_finalize (e : Event) : bool :=
  match e with EFinalize => true | _ => false end.

Definition is_close (e : Event) : bool :=
  match e with EClose => true | _ => false end.

(** The calls that create, drive or end a transfer session, or read the
    image. *)
Definition is_transfer_call (e : Event) : bool :=
  match e with
  | EGetSize _ | ETransferAdd _ | ETransferGet | EOpenImage _ | EExtend
  | EPut _ _ | EFinalize => true
  | _ => false
  end.

(** The calls that read or move the disk among the storage domains. *)
Definition is_placement_call (e : Event) : bool :=
  match e with
  | EDiskGet _ | ESearchByName StorageDomains _ | EAction _ _ _ => true
  | _ => false
  end.

(** [disk.lun_storage.id == lun_id], for a disk that has a [lun_storage]. *)
Definition has_lun_id (lun_id : option string) (d : Disk) : bool :=
  match lun_storage d with
  | Some hs => opt_str_eqb (hs_id hs) lun_id
  | None => false
  end.

(** A world that differs from another in the listing of the LUN disks. *)
Definition with_lun_disks (disks : list Disk) (w : World) : World :=
  mkWorld (w_create_connection w) (w_getsize w) (w_transfer_add w) (w_transfer_get w)
    (w_load_verify_locations w) (w_open w) (w_extend w) (w_put w) (w_finalize w)
    (w_disk_status w) (w_disk_get w) (w_search_sd w) (w_search_vm w) (w_action w)
    (fun _ => Replied disks) (w_create_disk w) (w_remove_disk w)
    (w_create_attachment w) (w_remove_attachment w) (w_wait_interval w).

Definition other_lun_disk : Disk :=
  mkDisk "d3" LUN [] OK (Some (mkHostStorage (Some "1IET_000d0002"))).

(** The events of a run of [main] for the state [absent]. *)
Definition is_absent_event (e : Event) : bool :=
  match e with
  | EListLunDisks | ERemoveDisk | EAttachmentsService _ | EClose => true
  | _ => false
  end.

Definition is_create_attachment (e : Event) : bool :=
  match e with ECreateAttachment _ => true | _ => false end.

Definition is_remove_attachment (e : Event) : bool :=
  match e with ERemoveAttachment _ => true | _ => false end.

(** The disk exists and is to be attached to the VM [rhel7]. *)
Definition attach_params : Params :=
  with_vm (Some "rhel7") None (with_state attached (with_image None false sample_params)).

Definition detach_params : Params :=
  with_vm (Some "rhel7") None (with_state detached (with_image None false sample_params)).

(** A world that differs from another in the answer to the creation of the
    disk. *)
Definition with_create_disk (c : bool) (id : string) (w : World) : World :=
  mkWorld (w_create_connection w) (w_getsize w) (w_transfer_add w) (w_transfer_get w)
    (w_load_verify_locations w) (w_open w) (w_extend w) (w_put w) (w_finalize w)
    (w_disk_status w) (w_disk_get w) (w_search_sd w) (w_search_vm w) (w_action w)
    (w_lun_disks w) (fun _ => Replied (c, id)) (w_remove_disk w)
    (w_create_attachment w) (w_remove_attachment w) (w_wait_interval w).

(** The disk does not exist yet. *)
Definition new_disk_world : World :=
  with_create_disk true "d1" (smooth_world 20000000 image_disk).

(** The rounds the upload loop has left at [pos]. *)
Definition rounds_left (size pos : Z) : nat :=
  Z.to_nat (ceil_div (size - pos) chunk_size).

(** A history of rounds of the upload loop: [extend] and [PUT] in turn,
    [extend] first, possibly ending after an [extend]. *)
Fixpoint alternates (evs : History) : bool :=
  match evs with
  | [] => true
  | [EExtend] => true
  | EExtend :: EPut _ _ :: rest => alternates rest
  | _ => false
  end.

(** The proxy answers every chunk with the status 503. *)
Definition unavailable_world : World :=
  sample_world 20000000 smooth_phases (fun _ => 503) (fun _ => OK)
    image_disk sample_sds sample_vms.

(** The [PUT]s of a run of [m] that starts in a frame that satisfies [Q] go
    to the path of the proxy URL of the transfer the frame ends with, carry
    its signed ticket, and that transfer is not INITIALIZING. *)
Definition puts_of_transfer {A : Type} (Q : Frame -> Prop) (m : M Frame A) : Prop :=
  forall st r st' i url_path hdrs,
    Q st ->
    m st = (r, st') ->
    (List.length (f_hist st) <= i)%nat ->
    nth_error (f_hist st') i = Some (EPut url_path hdrs) ->
    url_path = path (proxy_url (f_transfer st'))
    /\ dict_get "Authorization" hdrs = Some (signed_ticket (f_transfer st'))
    /\ phase (f_transfer st') <> INITIALIZING.

(** The transfer the service hands out on [add] is replaced by the polls:
    other ticket, other path. *)
Definition fresh_ticket_world : World :=
  mkWorld (fun _ _ => Replied tt) (fun _ => Replied 10000000)
    (fun _ => Replied (mkTransfer "t1" INITIALIZING "stale" (mkUrl "proxy" 54323 "/stale")))
    (fun _ => Replied (mkTransfer "t1" TRANSFERRING "fresh" (mkUrl "proxy" 54323 "/images/t1")))
    (fun _ => Replied tt) (fun _ => Replied tt) (fun _ => Replied tt)
    (fun _ => Replied 200) (fun _ => Failed "finalize failed")
    (fun _ => Replied OK) (fun _ => Replied image_disk)
    (fun _ => Replied None) (fun _ => Replied None) (fun _ => Replied tt)
    (fun _ => Replied []) (fun _ => Replied (false, "d1"))
    (fun _ => Replied (true, Some "d1")) (fun _ => Replied (true, "att-1"))
    (fun _ => Replied (true, Some "att-1")) 3.

Definition is_ssl_insecure (e : Event) : bool :=
  match e with ESslInsecure => true | _ => false end.

Definition insecure_params : Params :=
  with_auth (mkAuth (Some true) (Some "/etc/pki/ovirt-engine/ca.pem")) sample_params.

(** An empty name and an empty list of names are declared. *)
Definition empty_storage_params : Params :=
  with_storage (Some "") (Some []) (with_image None false sample_params).


(** Neither a wait for the disk of an attachment nor a creation of the disk
    that asks for a result state. *)
Definition no_status_expected (e : Event) : bool :=
  match e with
  | EAttachmentDiskStatus _ _ => false
  | ECreateDisk _ (Some _) => false
  | _ => true
  end.

(** A LUN is to be attached to the VM [rhel7]. *)
Definition lun_params : Params :=
  with_logical_unit (Some [("id", "1IET_000d0001"); ("address", "10.34.63.204")])
    (with_vm (Some "rhel7") None (with_image None false sample_params)).

(** The image is uploaded to the disk of a LUN. *)
Definition lun_upload_params : Params :=
  with_logical_unit (Some [("id", "1IET_000d0001")]) sample_params.

(** The image file cannot be read; the service would open a session. *)
Definition unreadable_world : World :=
  mkWorld (fun _ _ => Replied tt) (fun _ => Failed "No such file or directory")
    (fun _ => Replied (transfer_in INITIALIZING))
    (fun _ => Replied (transfer_in TRANSFERRING))
    (fun _ => Replied tt) (fun _ => Replied tt) (fun _ => Replied tt)
    (fun _ => Replied 200) (fun _ => Replied tt)
    (fun _ => Replied OK) (fun _ => Replied image_disk)
    (fun _ => Replied None) (fun _ => Replied None) (fun _ => Replied tt)
    (fun _ => Replied []) (fun _ => Replied (false, "d1"))
    (fun _ => Replied (true, Some "d1")) (fun _ => Replied (true, "att-1"))
    (fun _ => Replied (true, Some "att-1")) 3.

(** The engine refuses the log-in. *)
Definition offline_world : World :=
  mkWorld (fun _ _ => Failed "Failed to connect to the engine")
    (fun _ => Replied 20000000)
    (fun _ => Replied (transfer_in INITIALIZING))
    (fun _ => Replied (transfer_in TRANSFERRING))
    (fun _ => Replied tt) (fun _ => Replied tt) (fun _ => Replied tt)
    (fun _ => Replied 200) (fun _ => Replied tt)
    (fun _ => Replied OK) (fun _ => Replied image_disk)
    (fun _ => Replied None) (fun _ => Replied None) (fun _ => Replied tt)
    (fun _ => Replied []) (fun _ => Replied (false, "d1"))
    (fun _ => Replied (true, Some "d1")) (fun _ => Replied (true, "att-1"))
    (fun _ => Replied (true, Some "att-1")) 3.

(** * Properties *)

Ltac unfold_monad :=
  unfold bind, ret, raise, diverge, call, emit, sleep, now, lift,
    get_transfer, set_transfer, in_frame, try_finally, try_except in *.

Lemma clock_app (a b : History) : clock (a ++ b) = clock a + clock b.
Proof.
  induction a as [|e a IH]; simpl; [reflexivity|].
  destruct e; rewrite ?IH; lia.
Qed.

Lemma phase_eqb_eq (a b : ImageTransferPhase) : phase_eqb a b = true <-> a = b.
Proof.
  unfold phase_eqb. destruct (phase_eq_dec a b); split; congruence.
Qed.

Lemma status_eqb_eq (a b : DiskStatus) : status_eqb a b = true <-> a = b.
Proof. destruct a, b; simpl; split; congruence. Qed.

(** ** The two phase loops *)

Section PollLoops.

Variable w : World.
Variable interval : Z.

Variable test : ImageTransferPhase -> bool.

Lemma poll_while_step (fuel : nat) (st : Frame) :
  poll_while w interval test (S fuel) st =
  if test (phase (f_transfer st)) then
    match w_transfer_get w (f_hist st ++ [ESleep interval; ETransferGet]) with
    | Replied t =>
        poll_while w interval test fuel (mkFrame (f_hist st ++ [ESleep interval; ETransferGet]) t)
    | Failed msg =>
        (Raise (RemoteError msg),
         mkFrame (f_hist st ++ [ESleep interval; ETransferGet]) (f_transfer st))
    end
  else (Ret tt, st).
Proof.
  simpl. unfold_monad. simpl.
  destruct (test (phase (f_transfer st))); [|reflexivity].
  simpl. rewrite <- app_assoc. simpl.
  destruct (w_transfer_get w _); reflexivity.
Qed.

(** The only exception of a phase loop is a failure of the service. *)
Lemma poll_while_raises (fuel : nat) (st : Frame) (e : exn) :
  fst (poll_while w interval test fuel st) = Raise e -> exists msg, e = RemoteError msg.
Proof.
  revert st. induction fuel as [|fuel IH]; intros st.
  - simpl. unfold_monad. simpl. discriminate.
  - rewrite poll_while_step.
    destruct (test (phase (f_transfer st))); [|simpl; discriminate].
    destruct (w_transfer_get w _) as [t|msg].
    + apply IH.
    + simpl. intros H. injection H as <-. eauto.
Qed.

(** A loop that returns has seen a phase that fails the test. *)
Lemma poll_while_returns (fuel : nat) (st st' : Frame) :
  poll_while w interval test fuel st = (Ret tt, st') -> test (phase (f_transfer st')) = false.
Proof.
  revert st. induction fuel as [|fuel IH]; intros st.
  - simpl. unfold_monad. discriminate.
  - rewrite poll_while_step.
    destruct (test (phase (f_transfer st))) eqn:T.
    + destruct (w_transfer_get w _) as [t|msg]; [apply IH | discriminate].
    + intros H. injection H as <-. exact T.
Qed.

(** While the service keeps reporting a phase that passes the test, the
    loop does not end, whatever the fuel. *)
Lemma poll_while_stuck (fuel : nat) (st : Frame) :
  (forall h, exists t, w_transfer_get w h = Replied t /\ test (phase t) = true) ->
  test (phase (f_transfer st)) = true ->
  fst (poll_while w interval test fuel st) = Diverge.
Proof.
  intros Hw. revert st. induction fuel as [|fuel IH]; intros st T.
  - reflexivity.
  - rewrite poll_while_step, T.
    destruct (Hw (f_hist st ++ [ESleep interval; ETransferGet])) as (t & -> & Ht).
    apply IH. exact Ht.
Qed.

(** The loop returns at the first poll that reports a phase failing the
    test: after [n] polls when the first [n - 1] pass it. *)
Lemma poll_while_ends (n : nat) : forall (h : History) (t0 t : ImageTransfer) (fuel : nat),
  test (phase t0) = true ->
  (forall k, (1 <= k < S n)%nat ->
     exists t', w_transfer_get w (polled interval h k) = Replied t'
                /\ test (phase t') = true) ->
  w_transfer_get w (polled interval h (S n)) = Replied t ->
  test (phase t) = false ->
  (S n < fuel)%nat ->
  poll_while w interval test fuel (mkFrame h t0) = (Ret tt, mkFrame (polled interval h (S n)) t).
Proof.
  induction n as [|n IH]; intros h t0 t fuel T0 Hk Hn Tn Hf.
  - destruct fuel as [|[|fuel]]; try lia.
    rewrite poll_while_step. simpl f_transfer. simpl f_hist. rewrite T0.
    simpl in Hn. rewrite Hn.
    rewrite poll_while_step. simpl f_transfer. rewrite Tn. reflexivity.
  - destruct fuel as [|fuel]; try lia.
    rewrite poll_while_step. simpl f_transfer. simpl f_hist. rewrite T0.
    destruct (Hk 1%nat ltac:(lia)) as (t1 & H1 & T1). simpl in H1. rewrite H1.
    apply (IH (h ++ [ESleep interval; ETransferGet]) t1 t fuel T1); try lia.
    + intros k Hk'. apply (Hk (S k)). lia.
    + exact Hn.
    + exact Tn.
Qed.

End PollLoops.


Lemma init_wait_poll_while (fuel : nat) (w : World) (interval : Z) :
  init_wait fuel w interval = poll_while w interval initializing fuel.
Proof. induction fuel as [|fuel IH]; simpl; [|rewrite IH]; reflexivity. Qed.

Lemma finalize_wait_poll_while (fuel : nat) (w : World) (interval : Z) :
  finalize_wait fuel w interval = poll_while w interval finalizing fuel.
Proof. induction fuel as [|fuel IH]; simpl; [|rewrite IH]; reflexivity. Qed.

(** ** The status wait *)


Lemma disk_is_OK_poll_like (w : World) (id : option string) :
  poll_like (disk_is_OK w id).
Proof.
  intros h. unfold disk_is_OK. unfold_monad.
  destruct (w_disk_status w (h ++ [EDiskStatus id])) as [s|msg]; simpl.
  - split; [exists (status_eqb s OK); left; reflexivity|].
    rewrite clock_app. simpl. lia.
  - split; [exists true; right; eauto|].
    rewrite clock_app. simpl. lia.
Qed.

Section Wait.

Variable interval : Z.
Variable cond : M History bool.
Hypothesis interval_pos : 0 < interval.
Hypothesis cond_polls : poll_like cond.

(** With [f + 1] rounds of fuel for a remaining time of at most [f]
    intervals, the wait ends. *)
Lemma wait_poll_bounded (f : nat) : forall (deadline : Z) (h : History),
  deadline - clock h <= Z.of_nat f * interval ->
  fst (wait_poll (S f) interval cond deadline h) <> Diverge.
Proof.
  induction f as [|f IH]; intros deadline h Hrem; simpl; unfold_monad;
    destruct (cond_polls h) as [[b Hr] Hc];
    destruct (cond h) as [r h'] eqn:E; simpl in Hr, Hc;
    destruct Hr as [-> | [msg ->]]; try (simpl; discriminate);
    destruct b; try (simpl; discriminate).
  - destruct (deadline <=? clock h') eqn:D; [simpl; discriminate|].
    apply Z.leb_gt in D. lia.
  - destruct (deadline <=? clock h') eqn:D; [simpl; discriminate|].
    apply (IH deadline (h' ++ [ESleep interval])).
    rewrite clock_app. simpl. lia.
Qed.

(** TimeoutExceeded is raised at or after the deadline only. *)
Lemma wait_poll_deadline (fuel : nat) : forall (deadline : Z) (h : History),
  fst (wait_poll fuel interval cond deadline h) = Raise TimeoutExceeded ->
  deadline <= clock (snd (wait_poll fuel interval cond deadline h)).
Proof.
  induction fuel as [|fuel IH]; intros deadline h; simpl; unfold_monad;
    [simpl; discriminate|].
  destruct (cond_polls h) as [[b Hr] Hc].
  destruct (cond h) as [r h'] eqn:E; simpl in Hr, Hc.
  destruct Hr as [-> | [msg ->]]; [|simpl; discriminate].
  destruct b; [simpl; discriminate|].
  destruct (deadline <=? clock h') eqn:D.
  - simpl. intros _. apply Z.leb_le in D. exact D.
  - apply IH.
Qed.

(** A condition that never holds ends the wait with TimeoutExceeded. *)
Lemma wait_poll_times_out (f : nat) : forall (deadline : Z) (h : History),
  (forall h0, fst (cond h0) = Ret false) ->
  deadline - clock h <= Z.of_nat f * interval ->
  fst (wait_poll (S f) interval cond deadline h) = Raise TimeoutExceeded.
Proof.
  induction f as [|f IH]; intros deadline h Hno Hrem; simpl; unfold_monad;
    destruct (cond_polls h) as [_ Hc]; specialize (Hno h) as Hr;
    destruct (cond h) as [r h'] eqn:E; simpl in Hr, Hc; subst r.
  - destruct (deadline <=? clock h') eqn:D; [reflexivity|].
    apply Z.leb_gt in D. lia.
  - destruct (deadline <=? clock h') eqn:D; [reflexivity|].
    apply (IH deadline (h' ++ [ESleep interval])); [exact Hno|].
    rewrite clock_app. simpl. lia.
Qed.

End Wait.


Lemma wait_fuel_enough (timeout interval : Z) (fuel : nat) :
  0 < interval -> (wait_fuel timeout interval <= fuel)%nat ->
  exists f, fuel = S f /\ timeout <= Z.of_nat f * interval.
Proof.
  unfold wait_fuel. intros Hi Hf. destruct fuel as [|f]; [lia|].
  exists f. split; [reflexivity|].
  assert (Hd : timeout < (timeout / interval + 1) * interval).
  { pose proof (Z.mod_pos_bound timeout interval Hi).
    pose proof (Z.div_mod timeout interval ltac:(lia)). nia. }
  destruct (Z_lt_le_dec timeout 0) as [Hn|Hp].
  - nia.
  - assert (0 <= timeout / interval) by (apply Z.div_pos; lia).
    assert (timeout / interval + 1 <= Z.of_nat f) by lia. nia.
Qed.

Lemma wait_bounded (w : World) (cond : M History bool) (flag : bool)
    (timeout : Z) (fuel : nat) (h : History) :
  0 < w_wait_interval w -> poll_like cond ->
  (wait_fuel timeout (w_wait_interval w) <= fuel)%nat ->
  fst (wait fuel w cond flag timeout h) <> Diverge.
Proof.
  intros Hi Hc Hf. unfold wait. destruct flag; [|simpl; discriminate].
  unfold_monad.
  destruct (wait_fuel_enough _ _ _ Hi Hf) as (f & -> & Hb).
  apply wait_poll_bounded; try assumption. lia.
Qed.

Lemma wait_deadline (w : World) (cond : M History bool) (flag : bool)
    (timeout : Z) (fuel : nat) (h : History) :
  poll_like cond ->
  fst (wait fuel w cond flag timeout h) = Raise TimeoutExceeded ->
  clock h + timeout <= clock (snd (wait fuel w cond flag timeout h)).
Proof.
  intros Hc. unfold wait. destruct flag; [|simpl; discriminate].
  unfold_monad. apply wait_poll_deadline. exact Hc.
Qed.

Lemma wait_times_out (w : World) (cond : M History bool)
    (timeout : Z) (fuel : nat) (h : History) :
  0 < w_wait_interval w -> poll_like cond ->
  (forall h0, fst (cond h0) = Ret false) ->
  (wait_fuel timeout (w_wait_interval w) <= fuel)%nat ->
  fst (wait fuel w cond true timeout h) = Raise TimeoutExceeded.
Proof.
  intros Hi Hc Hno Hf. unfold wait. unfold_monad.
  destruct (wait_fuel_enough _ _ _ Hi Hf) as (f & -> & Hb).
  apply wait_poll_times_out; try assumption. lia.
Qed.

(** ** [upload_disk_image], unfolded *)

Definition upload_result (r : outcome unit) : outcome bool :=
  match r with
  | Ret _ => Ret true
  | Raise e => Raise e
  | Diverge => Diverge
  end.

(** The history at the start of the [try] block. *)
Definition try_start (params : Params) (h : History) : History :=
  (h ++ [EGetSize (p_image_path params)]) ++ [ETransferAdd (p_id params)].

Lemma upload_disk_image_eq (fuel : nat) (w : World) (params : Params)
    (h : History) (size : Z) (t : ImageTransfer) :
  w_getsize w (h ++ [EGetSize (p_image_path params)]) = Replied size ->
  w_transfer_add w (try_start params h) = Replied t ->
  upload_disk_image fuel w params h =
  (upload_result
     (fst (try_finally (upload_try fuel w params size) (upload_finally fuel w params)
             (mkFrame (try_start params h) t))),
   f_hist
     (snd (try_finally (upload_try fuel w params size) (upload_finally fuel w params)
             (mkFrame (try_start params h) t)))).
Proof.
  intros Hs Ht. unfold upload_disk_image, try_start in *.
  unfold bind at 1. unfold call at 1. rewrite Hs.
  unfold bind at 1. unfold call at 1. rewrite Ht.
  unfold bind at 1. unfold in_frame.
  destruct (try_finally _ _ _) as [[[]|e|] st]; reflexivity.
Qed.

Lemma bind_diverge {S A B : Type} (m : M S A) (k : A -> M S B) (s : S) :
  fst (m s) = Diverge -> fst (bind m k s) = Diverge.
Proof. unfold bind. destruct (m s) as [[a|e|] s']; simpl; congruence. Qed.

Lemma try_finally_diverge {S A : Type} (body : M S A) (fin : M S unit) (s : S) :
  fst (body s) = Diverge -> fst (try_finally body fin s) = Diverge.
Proof. unfold try_finally. destruct (body s) as [[a|e|] s']; simpl; congruence. Qed.

(** ** What a computation adds to the history *)

Create HintDb appends.

Lemma appends_ret {A : Type} (P : Event -> bool) (a : A) : appends P (ret a).
Proof. intros h. exists []. rewrite app_nil_r. split; reflexivity. Qed.

Lemma appends_raise {A : Type} (P : Event -> bool) (e : exn) :
  appends P (@raise History A e).
Proof. intros h. exists []. rewrite app_nil_r. split; reflexivity. Qed.

Lemma appends_diverge {A : Type} (P : Event -> bool) : appends P (@diverge History A).
Proof. intros h. exists []. rewrite app_nil_r. split; reflexivity. Qed.

Lemma appends_now (P : Event -> bool) : appends P now.
Proof. intros h. exists []. rewrite app_nil_r. split; reflexivity. Qed.

Lemma appends_call {A : Type} (P : Event -> bool) (ev : Event)
    (answer : History -> reply A) :
  P ev = true -> appends P (call ev answer).
Proof.
  intros HP h. exists [ev]. unfold call.
  destruct (answer (h ++ [ev])); simpl; rewrite HP; split; reflexivity.
Qed.

Lemma appends_emit (P : Event -> bool) (ev : Event) :
  P ev = true -> appends P (emit ev).
Proof. intros HP h. exists [ev]. simpl. rewrite HP. split; reflexivity. Qed.

Lemma appends_bind {A B : Type} (P : Event -> bool) (m : M History A)
    (k : A -> M History B) :
  appends P m -> (forall a, appends P (k a)) -> appends P (bind m k).
Proof.
  intros Hm Hk h. unfold bind. destruct (Hm h) as (evs & E & F).
  destruct (m h) as [[a|e|] h']; simpl in E; subst h'.
  - destruct (Hk a (h ++ evs)) as (evs' & E' & F').
    exists (evs ++ evs'). rewrite E', app_assoc, forallb_app, F, F'.
    split; reflexivity.
  - exists evs. split; [reflexivity | exact F].
  - exists evs. split; [reflexivity | exact F].
Qed.

Lemma appends_try_finally {A : Type} (P : Event -> bool) (body : M History A)
    (fin : M History unit) :
  appends P body -> appends P fin -> appends P (try_finally body fin).
Proof.
  intros Hb Hf h. unfold try_finally. destruct (Hb h) as (evs & E & F).
  destruct (body h) as [r h']; simpl in E; subst h'.
  destruct (Hf (h ++ evs)) as (evs' & E' & F').
  assert (G : forallb P (evs ++ evs') = true) by (rewrite forallb_app, F, F'; reflexivity).
  destruct r as [a|e|].
  - destruct (fin (h ++ evs)) as [[u|e'|] h'']; simpl in E'; subst h'';
      exists (evs ++ evs'); rewrite app_assoc; split; auto.
  - destruct (fin (h ++ evs)) as [[u|e'|] h'']; simpl in E'; subst h'';
      exists (evs ++ evs'); rewrite app_assoc; split; auto.
  - exists evs. split; [reflexivity | exact F].
Qed.

Lemma appends_try_except {A : Type} (P : Event -> bool) (body : M History A)
    (handler : exn -> M History A) :
  appends P body -> (forall e, appends P (handler e)) ->
  appends P (try_except body handler).
Proof.
  intros Hb Hh h. unfold try_except. destruct (Hb h) as (evs & E & F).
  destruct (body h) as [[a|e|] h']; simpl in E; subst h'.
  - exists evs. split; [reflexivity | exact F].
  - destruct (is_Exception e).
    + destruct (Hh e (h ++ evs)) as (evs' & E' & F').
      exists (evs ++ evs'). rewrite E', app_assoc, forallb_app, F, F'.
      split; reflexivity.
    + exists evs. split; [reflexivity | exact F].
  - exists evs. split; [reflexivity | exact F].
Qed.

Lemma appends_close (P : Event -> bool) (connection : option unit) :
  P EClose = true -> appends P (close connection).
Proof.
  intros Hc. destruct connection as [c|]; unfold close.
  - intros h. exists [EClose]. simpl. rewrite Hc. split; reflexivity.
  - intros h. exists []. rewrite app_nil_r. split; reflexivity.
Qed.

(** [main] adds what its body adds, and the [close]. *)
Lemma appends_main_of (P : Event -> bool) (fuel : nat) (w : World) (params : Params) :
  appends P (main_body fuel w params) -> P EClose = true ->
  appends P (main fuel w params).
Proof.
  intros Hb Hc h. unfold main.
  apply (appends_try_finally P); [|apply appends_close, Hc].
  apply appends_try_except; [exact Hb|].
  intros e h0. exists []. rewrite app_nil_r. split; reflexivity.
Qed.

Lemma appends_create_connection (P : Event -> bool) (w : World) (auth : Auth) :
  appends P (create_connection w auth).
Proof.
  intros h. exists []. rewrite app_nil_r. unfold create_connection.
  destruct (w_create_connection w auth h); split; reflexivity.
Qed.

(** The disk phase, by the answer to the creation of the connection. *)
Lemma disk_phase_start (fuel : nat) (w : World) (params : Params) (h : History) :
  disk_phase fuel w params h =
  match w_create_connection w (p_auth params) h with
  | Replied _ =>
      (disk <- lun_phase w params ;
       if state_eqb (p_state params) present || state_eqb (p_state params) detached
          || state_eqb (p_state params) attached
       then reconcile_disk fuel w params disk
       else r <- remove ERemoveDisk (w_remove_disk w) false ; ret (r, params)) h
  | Failed msg => (Raise (RemoteError msg), h)
  end.
Proof.
  unfold disk_phase. unfold bind at 1. unfold create_connection.
  destruct (w_create_connection w (p_auth params) h); reflexivity.
Qed.

(** The disk phase returns only with the connection created. *)
Lemma disk_phase_connected (fuel : nat) (w : World) (params : Params)
    (h h' : History) (rp : Result * Params) :
  disk_phase fuel w params h = (Ret rp, h') ->
  connection_of w (p_auth params) h = Some tt.
Proof.
  unfold disk_phase, connection_of. unfold bind at 1. unfold create_connection.
  destruct (w_create_connection w (p_auth params) h) as [[]|msg];
    [reflexivity | discriminate].
Qed.

Lemma appends_if {A : Type} (P : Event -> bool) (b : bool) (m1 m2 : M History A) :
  appends P m1 -> appends P m2 -> appends P (if b then m1 else m2).
Proof. destruct b; auto. Qed.

#[export] Hint Resolve appends_ret appends_raise appends_diverge appends_now
  appends_bind appends_try_finally appends_try_except appends_if : appends.
#[export] Hint Extern 2 (appends _ (call _ _)) =>
  apply appends_call; reflexivity : appends.
#[export] Hint Extern 2 (appends _ (emit _)) =>
  apply appends_emit; reflexivity : appends.
#[export] Hint Extern 2 (appends _ (sleep _)) =>
  apply appends_emit; reflexivity : appends.

Lemma appends_wait_poll (P : Event -> bool) (interval : Z) (cond : M History bool)
    (deadline : Z) (fuel : nat) :
  P (ESleep interval) = true -> appends P cond ->
  appends P (wait_poll fuel interval cond deadline).
Proof.
  intros Hs Hc. induction fuel as [|fuel IH]; simpl; [auto with appends|].
  apply appends_bind; [exact Hc|]. intros [|]; [auto with appends|].
  apply appends_bind; [auto with appends|]. intros t.
  apply appends_if; [auto with appends|].
  apply appends_bind; [apply appends_emit; exact Hs | intros _; exact IH].
Qed.

Lemma appends_wait (P : Event -> bool) (w : World) (cond : M History bool)
    (flag : bool) (timeout : Z) (fuel : nat) :
  P (ESleep (w_wait_interval w)) = true -> appends P cond ->
  appends P (wait fuel w cond flag timeout).
Proof.
  intros Hs Hc. unfold wait. apply appends_if; [|auto with appends].
  apply appends_bind; [auto with appends|]. intros t.
  apply appends_wait_poll; assumption.
Qed.

(** Events that fail [Q] leave the [Q]-events of the history as they were. *)
Lemma appends_filter {A : Type} (P Q : Event -> bool) (m : M History A) (h : History) :
  appends P m -> (forall e, P e = true -> Q e = false) ->
  filter Q (snd (m h)) = filter Q h.
Proof.
  intros Hm HPQ. destruct (Hm h) as (evs & -> & F).
  rewrite filter_app.
  assert (E : filter Q evs = []).
  { induction evs as [|e evs IH]; [reflexivity|]. simpl in *.
    apply andb_prop in F. destruct F as [Fe F].
    rewrite (HPQ e Fe). auto. }
  rewrite E. apply app_nil_r.
Qed.

Lemma appends_bind_post {A B : Type} (P : Event -> bool) (Q : A -> Prop)
    (m : M History A) (k : A -> M History B) :
  appends P m -> (forall h a h', m h = (Ret a, h') -> Q a) ->
  (forall a, Q a -> appends P (k a)) -> appends P (bind m k).
Proof.
  intros Hm HQ Hk h. unfold bind. destruct (Hm h) as (evs & E & F).
  destruct (m h) as [[a|e|] h'] eqn:R; simpl in E; subst h'.
  - destruct (Hk a (HQ _ _ _ R) (h ++ evs)) as (evs' & E' & F').
    exists (evs ++ evs'). rewrite E', app_assoc, forallb_app, F, F'.
    split; reflexivity.
  - exists evs. split; [reflexivity | exact F].
  - exists evs. split; [reflexivity | exact F].
Qed.

Lemma appends_lun_matches (P : Event -> bool) (lun_id : option string)
    (disks : list Disk) :
  appends P (lun_matches lun_id disks).
Proof.
  induction disks as [|d rest IH]; simpl; [auto with appends|].
  destruct (lun_storage d); auto with appends.
Qed.

Lemma appends_lun_phase (P : Event -> bool) (w : World) (params : Params) :
  P EListLunDisks = true -> appends P (lun_phase w params).
Proof.
  intros HP. unfold lun_phase, _search_by_lun.
  apply appends_if; [|auto with appends].
  apply appends_bind; [apply appends_call; exact HP|]. intros disks.
  apply appends_bind; [apply appends_lun_matches | auto with appends].
Qed.

(** ** The certificate file of the proxy connection *)

(** Whatever CA file the caller supplies, the trust store is loaded from
    [ca.pem]. *)
Lemma ssl_context_fixed_file (w : World) (auth : Auth) (supplied : string)
    (h : History) :
  truthy_bool (insecure auth) = false ->
  ca_file auth = Some supplied -> supplied <> "" ->
  snd (ssl_context w auth h) = h ++ [ELoadVerifyLocations "ca.pem"].
Proof.
  intros Hi Hc Hs. unfold ssl_context. rewrite Hi, Hc. simpl.
  destruct (String.eqb_spec supplied ""); [contradiction|]. simpl.
  unfold call. destruct (w_load_verify_locations w _); reflexivity.
Qed.

(** C1 fails on the code.  The caller supplies
    [/etc/pki/ovirt-engine/ca.pem] and does not ask for an insecure
    connection; the one trust store [upload_disk_image] loads is the file
    [ca.pem] of the working directory. *)
Theorem upload_loads_fixed_ca_file :
  truthy_bool (insecure (p_auth ca_params)) = false
  /\ ca_file (p_auth ca_params) = Some "/etc/pki/ovirt-engine/ca.pem"
  /\ filter is_load_verify
       (snd (upload_disk_image 10 (smooth_world 20000000 image_disk) ca_params []))
     = [ELoadVerifyLocations "ca.pem"].
Proof. repeat split. Qed.

(** ** Copies to several storage domains *)

(** Once [changed] is true the copy loop resolves the remaining names and
    issues no action. *)
Lemma copy_loop_after_change (fuel : nat) (w : World) (params : Params)
    (disk : Disk) (sds : list string) (h : History) :
  filter (is_action "copy") (snd (copy_loop fuel w params disk true sds h))
  = filter (is_action "copy") h.
Proof.
  apply (appends_filter (fun e => negb (is_action "copy" e))).
  - clear h. induction sds as [|sd rest IH]; simpl; [auto with appends|].
    apply appends_bind; [unfold search_by_name; auto with appends|]. intros o.
    intros h0. unfold bind at 1. unfold ret at 1. apply IH.
  - intros e He. destruct (is_action "copy" e); [discriminate | reflexivity].
Qed.

(** C3 fails on the code.  Two storage domains are declared and both
    exist; the call issues one copy action, to the first: its action reports
    a change, and [changed or self.action(...)] does not evaluate the action
    of the second. *)
Theorem two_domains_one_copy :
  p_storage_domains copy_params = Some ["fast"; "slow"]
  /\ update_storage_domains 10 (smooth_world 20000000 image_disk) copy_params "d1" []
     = (Ret true,
        [EDiskGet "d1";
         ESearchByName StorageDomains (Some "fast");
         EAction "copy" "d1" "sd-fast";
         EDiskStatus (Some "d1");
         ESearchByName StorageDomains (Some "slow")])
  /\ count (is_action "copy")
       (snd (update_storage_domains 10 (smooth_world 20000000 image_disk)
               copy_params "d1" []))
     = 1%nat.
Proof. repeat split. Qed.

(** ** The attachment branch of the driver and the state [absent] *)

(** The driver for the state [absent]: the connection, the lookup by LUN and
    the removal of the disk decide the outcome; a [vm_id] adds the location
    of the attachments service of the VM, and nothing else. *)
Lemma main_body_absent (fuel : nat) (w : World) (params : Params) (h : History) :
  p_state params = absent ->
  main_body fuel w params h =
  match (create_connection w (p_auth params) ;; lun_phase w params ;;
         remove ERemoveDisk (w_remove_disk w) false) h with
  | (Ret r, h1) =>
      (Raise (SystemExit (ExitJson (changed r) (res_id r))),
       match p_vm_id params with
       | Some v => h1 ++ [EAttachmentsService v]
       | None => h1
       end)
  | (Raise e, h1) => (Raise e, h1)
  | (Diverge, h1) => (Diverge, h1)
  end.
Proof.
  intros Hs. unfold main_body, disk_phase. rewrite Hs. simpl orb. cbv iota.
  unfold bind.
  destruct (create_connection w (p_auth params) h) as [[[]|e|] h0]; try reflexivity.
  destruct (lun_phase w params h0) as [[disk|e|] h1]; try reflexivity.
  destruct (remove ERemoveDisk (w_remove_disk w) false h1) as [[r|e|] h2];
    try reflexivity.
  unfold ret at 1. unfold vm_reference_present. rewrite Hs. simpl state_eqb.
  rewrite andb_false_r, orb_false_r.
  destruct (p_vm_id params) as [v|] eqn:Hv; simpl is_not_None; cbv iota.
  - unfold attach_branch. rewrite Hs, Hv. reflexivity.
  - reflexivity.
Qed.

(** C4.  With the state [absent] the driver resolves no VM reference and
    neither creates nor removes an attachment, whether the VM is given by
    [vm_id], by [vm_name], by both or not at all.  The VM reference changes
    nothing in the outcome, which is that of the run without it: the result
    of the removal of the disk.  The one event it can add to the history is
    the location of the attachments service of the VM, when [vm_id] is
    given: the test of the branch holds then, and no statement of the branch
    that calls the engine is reached. *)
Theorem absent_skips_attachment (fuel : nat) (w : World) (params : Params)
    (h : History) :
  p_state params = absent ->
  appends leaves_vm_alone (main fuel w params)
  /\ fst (main fuel w params h) = fst (main fuel w (with_vm None None params) h)
  /\ filter (fun e => negb (is_attachments_service e)) (snd (main fuel w params h))
     = filter (fun e => negb (is_attachments_service e))
         (snd (main fuel w (with_vm None None params) h)).
Proof.
  intros Hs. split.
  { intros h0. unfold main. apply (appends_try_finally leaves_vm_alone);
      [|apply appends_close; reflexivity].
    intros h1. unfold try_except. rewrite (main_body_absent fuel w params h1 Hs).
    assert (Hrun : appends leaves_vm_alone
                     (create_connection w (p_auth params) ;; lun_phase w params ;;
                      remove ERemoveDisk (w_remove_disk w) false)).
    { apply appends_bind; [apply appends_create_connection|]. intros _.
      apply appends_bind; [apply appends_lun_phase; reflexivity|]. intros _.
      unfold remove. auto with appends. }
    destruct (Hrun h1) as (evs & E & F).
    destruct ((create_connection w (p_auth params) ;; lun_phase w params ;;
               remove ERemoveDisk (w_remove_disk w) false) h1) as [[r|e|] h2];
      simpl in E; subst h2.
    - destruct (p_vm_id params) as [v|].
      + exists (evs ++ [EAttachmentsService v]). simpl.
        rewrite app_assoc, forallb_app, F. split; reflexivity.
      + exists evs. split; [reflexivity | exact F].
    - exists evs. destruct (is_Exception e); split; try reflexivity; exact F.
    - exists evs. split; [reflexivity | exact F]. }
  assert (Hsame : p_state (with_vm None None params) = absent) by exact Hs.
  unfold main, try_finally, try_except.
  rewrite (main_body_absent fuel w params h Hs).
  rewrite (main_body_absent fuel w (with_vm None None params) h Hsame).
  change (p_auth (with_vm None None params)) with (p_auth params).
  change (lun_phase w (with_vm None None params)) with (lun_phase w params).
  change (p_vm_id (with_vm None None params)) with (@None string).
  destruct ((create_connection w (p_auth params) ;; lun_phase w params ;;
             remove ERemoveDisk (w_remove_disk w) false) h) as [[r|e|] h1].
  - destruct (p_vm_id params) as [v|];
      destruct (connection_of w (p_auth params) h) as [[]|]; simpl;
      rewrite ?filter_app; simpl; rewrite ?app_nil_r; split; reflexivity.
  - destruct (is_Exception e);
      destruct (connection_of w (p_auth params) h) as [[]|]; simpl;
      split; reflexivity.
  - split; reflexivity.
Qed.

Lemma absent_skips_attachment_witness :
  p_state absent_vm_id_params = absent
  /\ fst (main 10 (smooth_world 20000000 image_disk) absent_vm_id_params [])
     = fst (main 10 (smooth_world 20000000 image_disk)
              (with_vm None None absent_vm_id_params) [])
  /\ filter (fun e => negb (is_attachments_service e))
       (snd (main 10 (smooth_world 20000000 image_disk) absent_vm_id_params []))
     = [ERemoveDisk; EClose].
Proof.
  split; [reflexivity|]. split.
  - exact (proj1 (proj2 (absent_skips_attachment 10 (smooth_world 20000000 image_disk)
                           absent_vm_id_params [] eq_refl))).
  - exact (proj2 (proj2 (absent_skips_attachment 10 (smooth_world 20000000 image_disk)
                           absent_vm_id_params [] eq_refl))).
Defined.

(** The two runs side by side: the VM given by its id, and by its name.
    The test of the attachment branch,
    [vm_id is not None or vm_name is not None and state != 'absent'], holds
    for the first ([and] binds tighter than [or]) and fails for the second. *)
Example absent_vm_id_and_vm_name_runs :
  vm_reference_present absent_vm_id_params = true
  /\ main 10 (smooth_world 20000000 image_disk) absent_vm_id_params []
     = (Raise (SystemExit (ExitJson true (Some "d1"))),
        [ERemoveDisk; EAttachmentsService "vm-7"; EClose])
  /\ vm_reference_present absent_vm_name_params = false
  /\ main 10 (smooth_world 20000000 image_disk) absent_vm_name_params []
     = (Raise (SystemExit (ExitJson true (Some "d1"))), [ERemoveDisk; EClose]).
Proof. repeat split. Qed.

(** ** The upload loop *)

Lemma ceil_div_bounds (a b : Z) :
  0 < a -> 0 < b ->
  0 < ceil_div a b /\ (ceil_div a b - 1) * b < a <= ceil_div a b * b.
Proof.
  intros Ha Hb. unfold ceil_div.
  pose proof (Z.div_mod (a + b - 1) b ltac:(lia)) as E.
  pose proof (Z.mod_pos_bound (a + b - 1) b Hb) as B.
  assert (0 < (a + b - 1) / b) by (apply Z.div_str_pos; lia).
  nia.
Qed.

Section UploadLoop.

Variable w : World.
Variable size : Z.
Variable url : ParseResult.
Variable ticket : string.

Hypothesis extend_ok : forall h, w_extend w h = Replied tt.
Hypothesis put_ok : forall h, exists s, w_put w h = Replied s /\ s < 400.


End UploadLoop.





(** ** What the frame computations add to the history *)

Lemma appends_frame_ret {A : Type} (P : Event -> bool) (a : A) :
  appends_frame P (ret a).
Proof. intros st. exists []. rewrite app_nil_r. split; reflexivity. Qed.

Lemma appends_frame_raise {A : Type} (P : Event -> bool) (e : exn) :
  appends_frame P (@raise Frame A e).
Proof. intros st. exists []. rewrite app_nil_r. split; reflexivity. Qed.

Lemma appends_frame_diverge {A : Type} (P : Event -> bool) :
  appends_frame P (@diverge Frame A).
Proof. intros st. exists []. rewrite app_nil_r. split; reflexivity. Qed.

Lemma appends_frame_get (P : Event -> bool) : appends_frame P get_transfer.
Proof. intros st. exists []. rewrite app_nil_r. split; reflexivity. Qed.

Lemma appends_frame_set (P : Event -> bool) (t : ImageTransfer) :
  appends_frame P (set_transfer t).
Proof. intros st. exists []. simpl. rewrite app_nil_r. split; reflexivity. Qed.

Lemma appends_frame_lift {A : Type} (P : Event -> bool) (m : M History A) :
  appends P m -> appends_frame P (lift m).
Proof.
  intros Hm st. unfold lift. destruct (Hm (f_hist st)) as (evs & E & F).
  destruct (m (f_hist st)) as [r h']. simpl in *. eauto.
Qed.

Lemma appends_frame_bind {A B : Type} (P : Event -> bool) (m : M Frame A)
    (k : A -> M Frame B) :
  appends_frame P m -> (forall a, appends_frame P (k a)) -> appends_frame P (bind m k).
Proof.
  intros Hm Hk st. unfold bind. destruct (Hm st) as (evs & E & F).
  destruct (m st) as [[a|e|] st']; simpl in E.
  - destruct (Hk a st') as (evs' & E' & F').
    exists (evs ++ evs'). rewrite E', E, app_assoc, forallb_app, F, F'.
    split; reflexivity.
  - exists evs. split; [exact E | exact F].
  - exists evs. split; [exact E | exact F].
Qed.

Lemma appends_frame_if {A : Type} (P : Event -> bool) (b : bool) (m1 m2 : M Frame A) :
  appends_frame P m1 -> appends_frame P m2 -> appends_frame P (if b then m1 else m2).
Proof. destruct b; auto. Qed.

#[export] Hint Resolve appends_frame_ret appends_frame_raise appends_frame_diverge
  appends_frame_get appends_frame_set appends_frame_lift appends_frame_bind
  appends_frame_if : appends.

Lemma appends_frame_poll_while (P : Event -> bool) (w : World) (interval : Z)
    (test : ImageTransferPhase -> bool) (fuel : nat) :
  P (ESleep interval) = true -> P ETransferGet = true ->
  appends_frame P (poll_while w interval test fuel).
Proof.
  intros Hs Hg. induction fuel as [|fuel IH]; simpl; [auto with appends|].
  apply appends_frame_bind; [auto with appends|]. intros t.
  apply appends_frame_if; [|auto with appends].
  apply appends_frame_bind.
  { apply appends_frame_lift, appends_emit, Hs. }
  intros _. apply appends_frame_bind.
  { apply appends_frame_lift, appends_call, Hg. }
  intros t'. apply appends_frame_bind; [auto with appends | intros _; exact IH].
Qed.

Lemma appends_disk_is_OK (P : Event -> bool) (w : World) (id : option string) :
  P (EDiskStatus id) = true -> appends P (disk_is_OK w id).
Proof.
  intros HP. unfold disk_is_OK.
  apply appends_bind; [apply appends_call, HP | auto with appends].
Qed.

(** The [finally] block starts with [finalize] and sends no chunk. *)
Lemma upload_finally_events (fuel : nat) (w : World) (params : Params) (st : Frame) :
  exists rest,
    f_hist (snd (upload_finally fuel w params st)) = f_hist st ++ EFinalize :: rest
    /\ forallb not_chunk rest = true.
Proof.
  unfold upload_finally. unfold bind at 1. unfold lift at 1. unfold call at 1.
  destruct (w_finalize w (f_hist st ++ [EFinalize])) as [[]|msg].
  - match goal with |- context [snd (?m ?s)] =>
      assert (H : appends_frame not_chunk m) end.
    { apply appends_frame_bind.
      { rewrite finalize_wait_poll_while.
        apply appends_frame_poll_while; reflexivity. }
      intros _. apply appends_frame_bind; [auto with appends|]. intros t.
      apply appends_frame_bind; [auto with appends|]. intros _.
      apply appends_frame_if; [|auto with appends].
      apply appends_frame_lift, appends_wait; [reflexivity|].
      apply appends_disk_is_OK. reflexivity. }
    match goal with |- context [snd (?m ?s)] =>
      destruct (H s) as (evs & E & F) end.
    exists evs. rewrite E. simpl. rewrite <- app_assoc. split; [reflexivity | exact F].
  - exists []. simpl. split; reflexivity.
Qed.

(** ** A rejected chunk *)

Lemma nth_error_past (h l : History) (d : nat) :
  nth_error (h ++ l) (List.length h + d) = nth_error l d.
Proof.
  rewrite nth_error_app2 by lia. f_equal. lia.
Qed.

Lemma firstn_past (h l : History) (d : nat) :
  firstn (List.length h + d) (h ++ l) = h ++ firstn d l.
Proof. apply firstn_app_2. Qed.

Lemma put_rejected_range (w : World) (h : History) (i : nat) :
  put_rejected w h i -> (i < List.length h)%nat.
Proof.
  intros (p & hd & s & Hn & _). apply nth_error_Some. congruence.
Qed.

Lemma upload_loop_extends (fuel : nat) (w : World) (size : Z) (url : ParseResult) :
  forall (hdrs : dict) (pos : Z), appends (fun _ => true) (upload_loop fuel w size url hdrs pos).
Proof.
  induction fuel as [|fuel IH]; intros hdrs pos; simpl; [auto with appends|].
  apply appends_if; [|auto with appends].
  apply appends_bind; [auto with appends|]. intros _.
  apply appends_bind; [auto with appends|]. intros s.
  apply appends_if; [auto with appends | apply IH].
Qed.

(** In the upload loop a rejected [PUT] is the last event, and the loop
    raises. *)
Lemma upload_loop_rejected (fuel : nat) (w : World) (size : Z) (url : ParseResult) :
  forall (hdrs : dict) (pos : Z) (h : History) (i : nat) (r : outcome unit) (h' : History),
    upload_loop fuel w size url hdrs pos h = (r, h') ->
    (List.length h <= i)%nat ->
    put_rejected w h' i ->
    S i = List.length h' /\ r = Raise (Exception "Failed to upload disk image.").
Proof.
  induction fuel as [|fuel IH]; intros hdrs pos h i r h' Hrun Hi Hrej.
  - simpl in Hrun. injection Hrun as <- <-.
    apply put_rejected_range in Hrej. lia.
  - simpl upload_loop in Hrun.
    destruct (pos <? size);
      [|injection Hrun as <- <-; apply put_rejected_range in Hrej; lia].
    unfold bind at 1 in Hrun. unfold call at 1 in Hrun.
    replace i with (List.length h + (i - List.length h))%nat in * by lia.
    set (d := (i - List.length h)%nat) in *. clearbody d. clear Hi.
    destruct (w_extend w (h ++ [EExtend])) as [[]|msg].
    + unfold bind at 1 in Hrun. unfold call at 1 in Hrun.
      set (hd := dict_set "Content-Range" _ hdrs) in *.
      rewrite <- app_assoc in Hrun. simpl app in Hrun.
      destruct (w_put w (h ++ [EExtend; EPut (path url) hd])) as [s|msg] eqn:Hput.
      * destruct (s >=? 400) eqn:Hs.
        -- injection Hrun as <- <-.
           destruct Hrej as (p & hd' & s' & Hn & _).
           rewrite nth_error_past in Hn.
           destruct d as [|[|d]]; simpl in Hn; try discriminate.
           ++ rewrite length_app. simpl. split; [lia | reflexivity].
           ++ destruct d; discriminate.
        -- destruct (upload_loop_extends fuel w size url hd (pos + chunk_size)
                       (h ++ [EExtend; EPut (path url) hd])) as (evs & E & _).
           rewrite Hrun in E. simpl in E.
           destruct d as [|[|d]].
           ++ destruct Hrej as (p & hd' & s' & Hn & _). rewrite E in Hn.
              rewrite <- app_assoc, nth_error_past in Hn. discriminate.
           ++ destruct Hrej as (p & hd' & s' & Hn & Hr & Hs').
              rewrite E in Hr. rewrite <- app_assoc in Hr.
              replace (S (List.length h + 1)) with (List.length h + 2)%nat in Hr by lia.
              rewrite firstn_past in Hr. simpl in Hr. rewrite Hput in Hr.
              injection Hr as <-. rewrite Z.geb_leb in Hs. apply Z.leb_gt in Hs. lia.
           ++ apply (IH _ _ _ _ _ _ Hrun).
              ** rewrite length_app. simpl. lia.
              ** exact Hrej.
      * injection Hrun as <- <-. destruct Hrej as (p & hd' & s' & Hn & Hr & _).
        rewrite nth_error_past in Hn.
        destruct d as [|[|d]]; simpl in Hn; try discriminate.
        -- replace (S (List.length h + 1)) with (List.length h + 2)%nat in Hr by lia.
           rewrite firstn_past in Hr. simpl in Hr. rewrite Hput in Hr. discriminate.
        -- destruct d; discriminate.
    + injection Hrun as <- <-. destruct Hrej as (p & hd' & s' & Hn & _).
      rewrite nth_error_past in Hn.
      destruct d as [|[|d]]; simpl in Hn; discriminate.
Qed.

Lemma no_put_among (evs : History) (d : nat) (url_path : string) (hdrs : dict) :
  forallb not_put evs = true ->
  nth_error evs d <> Some (EPut url_path hdrs).
Proof.
  revert d. induction evs as [|e evs IH]; intros d F H.
  - destruct d; discriminate.
  - simpl in F. apply andb_prop in F. destruct F as [Fe F].
    destruct d as [|d]; simpl in H.
    + injection H as ->. discriminate.
    + exact (IH d F H).
Qed.

Lemma rejected_is_last_bind {A B : Type} (w : World) (m : M Frame A)
    (k : A -> M Frame B) :
  appends_frame not_put m ->
  (forall a, appends_frame (fun _ => true) (k a)) ->
  (forall a, rejected_is_last w (k a)) ->
  rejected_is_last w (bind m k).
Proof.
  intros Hm Hke Hk st r st' i Hrun Hi Hrej.
  unfold bind in Hrun. destruct (Hm st) as (evs & E & F).
  assert (Hstop : forall st1, f_hist st1 = f_hist st ++ evs ->
                    put_rejected w (f_hist st1) i -> False).
  { intros st1 E1 (p & hd & s & Hn & _). rewrite E1 in Hn.
    replace i with (List.length (f_hist st) + (i - List.length (f_hist st)))%nat in Hn by lia.
    rewrite nth_error_past in Hn. exact (no_put_among _ _ _ _ F Hn). }
  destruct (m st) as [[a|e|] st1]; simpl in E.
  - destruct (Hke a st1) as (evs' & E' & _). rewrite Hrun in E'. simpl in E'.
    destruct (Nat.lt_ge_cases i (List.length (f_hist st1))) as [Hlt|Hge].
    + exfalso. destruct Hrej as (p & hd & s & Hn & _).
      rewrite E', nth_error_app1 in Hn by exact Hlt. rewrite E in Hn.
      replace i with (List.length (f_hist st) + (i - List.length (f_hist st)))%nat in Hn by lia.
      rewrite nth_error_past in Hn. exact (no_put_among _ _ _ _ F Hn).
    + exact (Hk a st1 r st' i Hrun Hge Hrej).
  - injection Hrun as <- <-. exfalso. exact (Hstop st1 E Hrej).
  - injection Hrun as <- <-. exfalso. exact (Hstop st1 E Hrej).
Qed.

Lemma rejected_is_last_loop (fuel : nat) (w : World) (size : Z) (url : ParseResult)
    (hdrs : dict) (pos : Z) :
  rejected_is_last w (lift (upload_loop fuel w size url hdrs pos)).
Proof.
  intros st r st' i Hrun Hi Hrej. unfold lift in Hrun.
  destruct (upload_loop fuel w size url hdrs pos (f_hist st)) as [r0 h'] eqn:E.
  injection Hrun as <- <-. simpl in Hrej |- *.
  exact (upload_loop_rejected fuel w size url hdrs pos (f_hist st) i r0 h' E Hi Hrej).
Qed.

Lemma appends_ssl_context (P : Event -> bool) (w : World) (auth : Auth) :
  P ESslInsecure = true -> P (ELoadVerifyLocations "ca.pem") = true ->
  appends P (ssl_context w auth).
Proof.
  intros H1 H2. unfold ssl_context.
  apply appends_if; [apply appends_emit, H1|].
  apply appends_if; [apply appends_call, H2 | auto with appends].
Qed.

Lemma upload_try_rejected (fuel : nat) (w : World) (params : Params) (size : Z) :
  rejected_is_last w (upload_try fuel w params size).
Proof.
  unfold upload_try.
  assert (Hl : forall url hdrs,
            appends_frame (fun _ => true) (lift (upload_loop fuel w size url hdrs 0))).
  { intros url hdrs. apply appends_frame_lift, upload_loop_extends. }
  apply rejected_is_last_bind.
  { rewrite init_wait_poll_while. apply appends_frame_poll_while; reflexivity. }
  { intros _. repeat (apply appends_frame_bind; [|intro]); auto with appends.
    - apply appends_frame_lift, appends_ssl_context; reflexivity. }
  intros _. apply rejected_is_last_bind; [auto with appends| |].
  { intros t. repeat (apply appends_frame_bind; [|intro]); auto with appends.
    apply appends_frame_lift, appends_ssl_context; reflexivity. }
  intros t. apply rejected_is_last_bind.
  { apply appends_frame_lift, appends_ssl_context; reflexivity. }
  { intros _. repeat (apply appends_frame_bind; [|intro]); auto with appends. }
  intros _. apply rejected_is_last_bind; [auto with appends| |].
  { intros _. repeat (apply appends_frame_bind; [|intro]); auto with appends. }
  intros _. apply rejected_is_last_bind; [auto with appends| |].
  { intros _. apply Hl. }
  intros _. apply rejected_is_last_loop.
Qed.

Lemma put_rejected_prefix (w : World) (a b : History) (i : nat) :
  (i < List.length a)%nat -> put_rejected w (a ++ b) i -> put_rejected w a i.
Proof.
  intros Hi (p & hd & s & Hn & Hr & Hs). exists p, hd, s.
  rewrite nth_error_app1 in Hn by exact Hi.
  rewrite firstn_app in Hr.
  replace (S i - List.length a)%nat with 0%nat in Hr by lia.
  simpl in Hr. rewrite app_nil_r in Hr. auto.
Qed.

Lemma not_chunk_not_put (evs : History) :
  forallb not_chunk evs = true -> forallb not_put evs = true.
Proof.
  induction evs as [|e evs IH]; simpl; [reflexivity|]. intros F.
  apply andb_prop in F. destruct F as [Fe F]. rewrite (IH F), andb_true_r.
  unfold not_chunk in Fe. unfold not_put. destruct (is_put e); [discriminate | reflexivity].
Qed.

Lemma forallb_nth_error (P : Event -> bool) (evs : History) (d : nat) (e : Event) :
  forallb P evs = true -> nth_error evs d = Some e -> P e = true.
Proof.
  intros F H. rewrite forallb_forall in F. apply F. eapply nth_error_In, H.
Qed.

(** The whole of the [try] and [finally] blocks. *)
Lemma try_finally_rejected (fuel : nat) (w : World) (params : Params) (size : Z)
    (st : Frame) (i : nat) :
  let h' := f_hist (snd (try_finally (upload_try fuel w params size)
                           (upload_finally fuel w params) st)) in
  (List.length (f_hist st) <= i)%nat ->
  put_rejected w h' i ->
  nth_error h' (S i) = Some EFinalize
  /\ forall j e, (S i < j)%nat -> nth_error h' j = Some e -> not_chunk e = true.
Proof.
  intros h' Hi Hrej. unfold try_finally in h'.
  destruct (upload_try fuel w params size st) as [r1 st1] eqn:Htry.
  destruct (upload_finally_events fuel w params st1) as (rest & E & F).
  assert (Hlast : put_rejected w (f_hist st1) i ->
                  S i = List.length (f_hist st1)
                  /\ r1 = Raise (Exception "Failed to upload disk image.")).
  { exact (upload_try_rejected fuel w params size st r1 st1 i Htry Hi). }
  assert (Hh' : r1 <> Diverge -> h' = f_hist st1 ++ EFinalize :: rest).
  { intros Hr. unfold h'. rewrite <- E.
    destruct r1 as [[]|e|]; [| |congruence];
      destruct (upload_finally fuel w params st1) as [[[]|e'|] st2]; reflexivity. }
  destruct (Nat.lt_ge_cases i (List.length (f_hist st1))) as [Hlt|Hge].
  - assert (Hr1 : r1 <> Diverge -> put_rejected w (f_hist st1) i).
    { intros Hr. apply (put_rejected_prefix w _ (EFinalize :: rest)); [exact Hlt|].
      rewrite <- (Hh' Hr). exact Hrej. }
    assert (Hnd : r1 <> Diverge).
    { intros ->. assert (Hs : put_rejected w (f_hist st1) i) by exact Hrej.
      destruct (Hlast Hs) as [_ Hd]. discriminate. }
    destruct (Hlast (Hr1 Hnd)) as [Hlen _].
    rewrite (Hh' Hnd). split.
    + rewrite Hlen. replace (List.length (f_hist st1)) with (List.length (f_hist st1) + 0)%nat by lia.
      rewrite nth_error_past. reflexivity.
    + intros j e Hj Hn.
      replace j with (List.length (f_hist st1) + S (j - S (List.length (f_hist st1))))%nat in Hn by lia.
      rewrite nth_error_past in Hn. simpl in Hn.
      exact (forallb_nth_error _ _ _ _ F Hn).
  - exfalso.
    destruct r1 as [[]|e|].
    1,2: rewrite (Hh' ltac:(discriminate)) in Hrej;
         destruct Hrej as (p & hd & s & Hn & _);
         replace i with (List.length (f_hist st1) + (i - List.length (f_hist st1)))%nat in Hn by lia;
         rewrite nth_error_past in Hn;
         destruct (i - List.length (f_hist st1))%nat as [|d]; simpl in Hn;
         [discriminate | exact (no_put_among _ _ _ _ (not_chunk_not_put _ F) Hn)].
    apply put_rejected_range in Hrej. unfold h' in Hrej. simpl in Hrej. lia.
Qed.

(** C6.  In a run of [upload_disk_image], [finalize] is the call that
    follows a [PUT] answered with a status of 400 or more, and no [extend]
    and no [PUT] comes after it; and whenever the [try] block ends, by
    returning or by raising, what follows its events is [finalize], and no
    further chunk. *)
Theorem rejected_chunk_finalizes (fuel : nat) (w : World) (params : Params)
    (h : History) :
  let h' := snd (upload_disk_image fuel w params h) in
  (forall i, (List.length h <= i)%nat -> put_rejected w h' i ->
     nth_error h' (S i) = Some EFinalize
     /\ forall j e, (S i < j)%nat -> nth_error h' j = Some e -> not_chunk e = true)
  /\ (forall size t,
        w_getsize w (h ++ [EGetSize (p_image_path params)]) = Replied size ->
        w_transfer_add w (try_start params h) = Replied t ->
        let tried := upload_try fuel w params size (mkFrame (try_start params h) t) in
        fst tried <> Diverge ->
        exists rest,
          h' = f_hist (snd tried) ++ EFinalize :: rest
          /\ forallb not_chunk rest = true).
Proof.
  intros h'. split.
  - intros i Hi Hrej.
    assert (Hpre : forall l, forallb not_put l = true -> put_rejected w (h ++ l) i -> False).
    { intros l F (p & hd & s & Hn & _).
      replace i with (List.length h + (i - List.length h))%nat in Hn by lia.
      rewrite nth_error_past in Hn. exact (no_put_among _ _ _ _ F Hn). }
    destruct (w_getsize w (h ++ [EGetSize (p_image_path params)])) as [size|msg] eqn:Hs.
    + destruct (w_transfer_add w (try_start params h)) as [t|msg] eqn:Ht.
      * unfold h' in *. rewrite (upload_disk_image_eq fuel w params h size t Hs Ht) in *.
        simpl snd in *.
        destruct (Nat.lt_ge_cases i (List.length (try_start params h))) as [Hlt|Hge].
        -- exfalso.
           destruct (upload_try fuel w params size (mkFrame (try_start params h) t))
             as [r1 st1] eqn:Htry.
           assert (Hext : exists evs,
                     f_hist (snd (try_finally (upload_try fuel w params size)
                                    (upload_finally fuel w params)
                                    (mkFrame (try_start params h) t)))
                     = try_start params h ++ evs).
           { unfold try_finally. rewrite Htry.
             assert (H1 : appends_frame (fun _ => true) (upload_try fuel w params size)).
             { unfold upload_try.
               repeat (apply appends_frame_bind; [|intro]); auto with appends.
               - rewrite init_wait_poll_while. apply appends_frame_poll_while; reflexivity.
               - apply appends_frame_lift, appends_ssl_context; reflexivity.
               - apply appends_frame_lift, upload_loop_extends. }
             destruct (H1 (mkFrame (try_start params h) t)) as (e1 & E1 & _).
             rewrite Htry in E1. simpl in E1.
             destruct (upload_finally_events fuel w params st1) as (rest & E2 & _).
             destruct r1 as [[]|e|];
               [| |exists e1; exact E1];
               destruct (upload_finally fuel w params st1) as [[[]|e'|] st2];
               simpl in E2 |- *; exists (e1 ++ EFinalize :: rest);
               rewrite E2, E1, app_assoc; reflexivity. }
           destruct Hext as (evs & Eh). rewrite Eh in Hrej.
           apply put_rejected_prefix in Hrej; [|exact Hlt].
           unfold try_start in Hrej. rewrite <- app_assoc in Hrej.
           refine (Hpre _ _ Hrej); reflexivity.
        -- apply try_finally_rejected; assumption.
      * exfalso. unfold h', upload_disk_image in Hrej.
        unfold bind at 1 in Hrej. unfold call at 1 in Hrej. rewrite Hs in Hrej.
        unfold bind at 1 in Hrej. unfold call at 1 in Hrej.
        unfold try_start in Ht. rewrite Ht in Hrej. simpl in Hrej.
        rewrite <- app_assoc in Hrej. refine (Hpre _ _ Hrej); reflexivity.
    + exfalso. unfold h', upload_disk_image in Hrej.
      unfold bind at 1 in Hrej. unfold call at 1 in Hrej. rewrite Hs in Hrej.
      simpl in Hrej. refine (Hpre _ _ Hrej); reflexivity.
  - intros size t Hs Ht tried Hnd. unfold h'.
    rewrite (upload_disk_image_eq fuel w params h size t Hs Ht). simpl snd.
    unfold try_finally. fold tried. destruct tried as [r1 st1]. simpl in Hnd |- *.
    destruct (upload_finally_events fuel w params st1) as (rest & E & F).
    exists rest. split; [|exact F]. rewrite <- E.
    destruct r1 as [[]|e|]; [| |congruence];
      destruct (upload_finally fuel w params st1) as [[[]|e'|] st2]; reflexivity.
Qed.

Lemma rejected_chunk_finalizes_witness :
  put_rejected rejecting_world
    (snd (upload_disk_image 10 rejecting_world sample_params [])) 9
  /\ nth_error (snd (upload_disk_image 10 rejecting_world sample_params [])) 10
     = Some EFinalize.
Proof.
  assert (R : put_rejected rejecting_world
                (snd (upload_disk_image 10 rejecting_world sample_params [])) 9).
  { eexists _, _, 500. split; [reflexivity | split; [reflexivity | lia]]. }
  split; [exact R|].
  apply (proj1 (rejected_chunk_finalizes 10 rejecting_world sample_params [])
           9%nat (Nat.le_0_l 9) R).
Defined.

(** ** The exceptions of the upload *)

Section MayRaise.

Context {S : Type}.
Variable P : exn -> Prop.

Lemma may_raise_ret {A : Type} (a : A) : may_raise P (@ret S A a).
Proof. intros s e H. discriminate. Qed.

Lemma may_raise_diverge {A : Type} : may_raise P (@diverge S A).
Proof. intros s e H. discriminate. Qed.

Lemma may_raise_raise {A : Type} (e : exn) : P e -> may_raise P (@raise S A e).
Proof. intros HP s e' H. injection H as <-. exact HP. Qed.

Lemma may_raise_bind {A B : Type} (m : M S A) (k : A -> M S B) :
  may_raise P m -> (forall a, may_raise P (k a)) -> may_raise P (bind m k).
Proof.
  intros Hm Hk s e. unfold bind. specialize (Hm s).
  destruct (m s) as [[a|e'|] s']; simpl in *.
  - apply Hk.
  - intros H. injection H as <-. apply Hm. reflexivity.
  - discriminate.
Qed.

Lemma may_raise_if {A : Type} (b : bool) (m1 m2 : M S A) :
  may_raise P m1 -> may_raise P m2 -> may_raise P (if b then m1 else m2).
Proof. destruct b; auto. Qed.

End MayRaise.

Section MayRaiseCalls.

Variable P : exn -> Prop.
Hypothesis remote : forall msg, P (RemoteError msg).

Lemma may_raise_call {A : Type} (ev : Event) (answer : History -> reply A) :
  may_raise P (call ev answer).
Proof.
  intros h e. unfold call. destruct (answer (h ++ [ev])); simpl; [discriminate|].
  intros H. injection H as <-. apply remote.
Qed.

Lemma may_raise_emit (ev : Event) : may_raise P (emit ev).
Proof. intros h e H. discriminate. Qed.

Lemma may_raise_now : may_raise P now.
Proof. intros h e H. discriminate. Qed.

Lemma may_raise_lift {A : Type} (m : M History A) :
  may_raise P m -> may_raise P (lift m).
Proof.
  intros Hm st e. unfold lift. specialize (Hm (f_hist st)).
  destruct (m (f_hist st)) as [r h']. simpl in *. apply Hm.
Qed.

Lemma may_raise_get : may_raise P get_transfer.
Proof. intros s e H. discriminate. Qed.

Lemma may_raise_set (t : ImageTransfer) : may_raise P (set_transfer t).
Proof. intros s e H. discriminate. Qed.

Lemma may_raise_poll_while (w : World) (interval : Z)
    (test : ImageTransferPhase -> bool) (fuel : nat) :
  may_raise P (poll_while w interval test fuel).
Proof.
  intros st e H. apply poll_while_raises in H. destruct H as [msg ->]. apply remote.
Qed.

Lemma may_raise_wait (fuel : nat) (w : World) (cond : M History bool)
    (flag : bool) (timeout : Z) :
  P TimeoutExceeded -> may_raise P cond ->
  may_raise P (wait fuel w cond flag timeout).
Proof.
  intros Ht Hc. unfold wait. apply may_raise_if; [|apply may_raise_ret].
  apply may_raise_bind; [apply may_raise_now|]. intros start.
  generalize (start + timeout). intros deadline.
  induction fuel as [|fuel IH]; simpl; [apply may_raise_diverge|].
  apply may_raise_bind; [exact Hc|]. intros [|]; [apply may_raise_ret|].
  apply may_raise_bind; [apply may_raise_now|]. intros t.
  apply may_raise_if; [apply may_raise_raise, Ht|].
  apply may_raise_bind; [apply may_raise_emit | intros _; exact IH].
Qed.

Lemma may_raise_disk_is_OK (w : World) (id : option string) :
  may_raise P (disk_is_OK w id).
Proof.
  unfold disk_is_OK. apply may_raise_bind; [apply may_raise_call|].
  intros s. apply may_raise_ret.
Qed.

Lemma may_raise_upload_loop (fuel : nat) (w : World) (size : Z) (url : ParseResult) :
  P (Exception "Failed to upload disk image.") ->
  forall hdrs pos, may_raise P (upload_loop fuel w size url hdrs pos).
Proof.
  intros Hx. induction fuel as [|fuel IH]; intros hdrs pos; simpl;
    [apply may_raise_diverge|].
  apply may_raise_if; [|apply may_raise_ret].
  apply may_raise_bind; [apply may_raise_call|]. intros _.
  apply may_raise_bind; [apply may_raise_call|]. intros s.
  apply may_raise_if; [apply may_raise_raise, Hx | apply IH].
Qed.

Lemma may_raise_upload_try (fuel : nat) (w : World) (params : Params) (size : Z) :
  P (Exception "Failed to upload disk image.") ->
  may_raise P (upload_try fuel w params size).
Proof.
  intros Hx. unfold upload_try.
  apply may_raise_bind.
  { rewrite init_wait_poll_while. apply may_raise_poll_while. }
  intros _. apply may_raise_bind; [apply may_raise_get|]. intros t.
  apply may_raise_bind.
  { apply may_raise_lift. unfold ssl_context.
    apply may_raise_if; [apply may_raise_emit|].
    apply may_raise_if; [apply may_raise_call | apply may_raise_ret]. }
  intros _. apply may_raise_bind; [apply may_raise_lift, may_raise_emit|].
  intros _. apply may_raise_bind; [apply may_raise_lift, may_raise_call|].
  intros _. apply may_raise_lift, may_raise_upload_loop, Hx.
Qed.

End MayRaiseCalls.

(** ** The terminal phase of the transfer *)

(** C7.  When [finalize] is answered and the loop that follows it ends,
    the phase [transfer] then holds decides.  With UNKNOWN,
    FINISHED_FAILURE, FINALIZING_FAILURE or CANCELLED,
    [upload_disk_image] raises the exception whose message ends with the
    name of that phase, whatever the [try] block did (an exception of the
    [try] block is replaced).  With any other phase no exception with the
    message of a failed transfer is raised, whatever phase it would name. *)
Theorem terminal_phase_decides (fuel : nat) (w : World) (params : Params)
    (h : History) (size : Z) (t : ImageTransfer) (r1 : outcome unit)
    (st1 st3 : Frame) :
  w_getsize w (h ++ [EGetSize (p_image_path params)]) = Replied size ->
  w_transfer_add w (try_start params h) = Replied t ->
  upload_try fuel w params size (mkFrame (try_start params h) t) = (r1, st1) ->
  r1 <> Diverge ->
  w_finalize w (f_hist st1 ++ [EFinalize]) = Replied tt ->
  finalize_wait fuel w (p_poll_interval params)
    (mkFrame (f_hist st1 ++ [EFinalize]) (f_transfer st1)) = (Ret tt, st3) ->
  let p := phase (f_transfer st3) in
  let raised := fst (upload_disk_image fuel w params h) in
  (p = UNKNOWN ->
   raised = Raise (Exception
                     "Error occured while uploading image. The transfer is in unknown"))
  /\ (p = FINISHED_FAILURE ->
      raised = Raise (Exception
                 "Error occured while uploading image. The transfer is in finished_failure"))
  /\ (p = FINALIZING_FAILURE ->
      raised = Raise (Exception
                 "Error occured while uploading image. The transfer is in finalizing_failure"))
  /\ (p = CANCELLED ->
      raised = Raise (Exception
                 "Error occured while uploading image. The transfer is in cancelled"))
  /\ (p <> UNKNOWN -> p <> FINISHED_FAILURE -> p <> FINALIZING_FAILURE ->
      p <> CANCELLED ->
      forall s : string,
        raised <> Raise (Exception
                    ("Error occured while uploading image. The transfer is in " ++ s))).
Proof.
  intros Hs Ht Htry Hnd Hfin Hwait p raised. subst raised.
  rewrite (upload_disk_image_eq fuel w params h size t Hs Ht). simpl fst.
  unfold try_finally. rewrite Htry.
  assert (Hf : upload_finally fuel w params st1 =
               (if phase_in p failure_phases
                then (Raise (Exception (transfer_failed_msg p)), st3)
                else (if truthy_list (p_logical_unit params)
                      then lift (wait fuel w (disk_is_OK w (p_id params))
                                   (p_wait params) (p_timeout params))
                      else ret tt) st3)).
  { unfold upload_finally. unfold bind at 1. unfold lift at 1. unfold call at 1.
    rewrite Hfin. unfold bind at 1. rewrite Hwait.
    unfold bind at 1. unfold get_transfer at 1. fold p.
    unfold bind at 1. destruct (phase_in p failure_phases); reflexivity. }
  rewrite Hf. clear Hf. clearbody p.
  assert (Hyes : forall q, p = q -> phase_in q failure_phases = true ->
            upload_result
              (fst (match r1 with
                    | Diverge => (Diverge, st1)
                    | _ =>
                        match
                          (if phase_in p failure_phases
                           then (Raise (Exception (transfer_failed_msg p)), st3)
                           else (if truthy_list (p_logical_unit params)
                                 then lift (wait fuel w (disk_is_OK w (p_id params))
                                              (p_wait params) (p_timeout params))
                                 else ret tt) st3)
                        with
                        | (Ret _, s'') => (r1, s'')
                        | (Raise e, s'') => (Raise e, s'')
                        | (Diverge, s'') => (Diverge, s'')
                        end
                    end))
            = Raise (Exception (transfer_failed_msg q))).
  { intros q -> Hq. rewrite Hq.
    destruct r1 as [[]|e|]; [reflexivity | reflexivity | congruence]. }
  split; [intros Hp; exact (Hyes UNKNOWN Hp eq_refl)|].
  split; [intros Hp; exact (Hyes FINISHED_FAILURE Hp eq_refl)|].
  split; [intros Hp; exact (Hyes FINALIZING_FAILURE Hp eq_refl)|].
  split; [intros Hp; exact (Hyes CANCELLED Hp eq_refl)|].
  clear Hyes. intros N1 N2 N3 N4.
  assert (Hp : phase_in p failure_phases = false)
    by (destruct p; try reflexivity; congruence).
  rewrite Hp.
  assert (Hx : not_transfer_error (Exception "Failed to upload disk image.")).
  { intros s H. simpl in H. discriminate. }
  assert (Hr : forall msg, not_transfer_error (RemoteError msg)).
  { intros msg s H. discriminate. }
  assert (H1 : forall e, r1 = Raise e -> not_transfer_error e).
  { intros e ->.
    apply (may_raise_upload_try not_transfer_error Hr fuel w params size Hx
             (mkFrame (try_start params h) t) e).
    rewrite Htry. reflexivity. }
  assert (H2 : may_raise not_transfer_error
                 (if truthy_list (p_logical_unit params)
                  then lift (wait fuel w (disk_is_OK w (p_id params))
                               (p_wait params) (p_timeout params))
                  else @ret Frame unit tt)).
  { apply may_raise_if; [|apply may_raise_ret].
    apply may_raise_lift, may_raise_wait.
    - intros s H. discriminate.
    - apply may_raise_disk_is_OK, Hr. }
  specialize (H2 st3).
  destruct ((if truthy_list (p_logical_unit params)
             then lift (wait fuel w (disk_is_OK w (p_id params))
                          (p_wait params) (p_timeout params))
             else ret tt) st3) as [[[]|e2|] st4]; simpl in H2.
  + intros s. destruct r1 as [[]|e|]; cbv [upload_result fst].
    * discriminate.
    * intros H. injection H as H. exact (H1 e eq_refl s H).
    * congruence.
  + intros s. specialize (H2 e2 eq_refl s).
    destruct r1 as [[]|e|]; cbv [upload_result fst]; congruence.
  + intros s. destruct r1 as [[]|e|]; cbv [upload_result fst]; discriminate.
Qed.

Lemma terminal_phase_decides_witness :
  fst (upload_disk_image 10 cancelled_world sample_params [])
  = Raise (Exception "Error occured while uploading image. The transfer is in cancelled").
Proof.
  assert (Hnd : @Ret unit tt <> Diverge) by discriminate.
  exact (proj1 (proj2 (proj2 (proj2
           (terminal_phase_decides 10 cancelled_world sample_params []
              20000000 (transfer_in INITIALIZING) (Ret tt) _ _
              eq_refl eq_refl eq_refl Hnd eq_refl eq_refl)))) eq_refl).
Defined.

(** ** Storage placement *)

(** A status wait that returns has just seen the status OK. *)
Lemma wait_poll_returns_OK (w : World) (id : option string) (interval deadline : Z)
    (fuel : nat) : forall (h h' : History),
  wait_poll fuel interval (disk_is_OK w id) deadline h = (Ret tt, h') ->
  exists h0, h' = h0 ++ [EDiskStatus id] /\ w_disk_status w h' = Replied OK.
Proof.
  induction fuel as [|fuel IH]; intros h h' H; simpl in H; [discriminate|].
  unfold bind at 1 in H. unfold disk_is_OK at 1 in H.
  unfold bind at 1 in H. unfold call at 1 in H.
  destruct (w_disk_status w (h ++ [EDiskStatus id])) as [s|msg] eqn:Hst;
    [|discriminate].
  unfold ret at 1 in H.
  destruct (status_eqb s OK) eqn:Hs.
  - injection H as <-. apply status_eqb_eq in Hs. subst s. eauto.
  - unfold bind at 1, now at 1 in H.
    destruct (deadline <=? clock (h ++ [EDiskStatus id])); [discriminate|].
    unfold bind at 1, sleep, emit in H. apply IH in H. exact H.
Qed.

Lemma action_move_appends (name : string) (w : World) (id : option string)
    (flag : bool) (timeout : Z) (fuel : nat) :
  appends (fun e => negb (is_action name e))
    (wait fuel w (disk_is_OK w id) flag timeout).
Proof. apply appends_wait; [reflexivity | apply appends_disk_is_OK; reflexivity]. Qed.

(** C8.  One storage domain is declared and none to copy to.  For a disk
    that is not image-backed the call asks for the disk and returns
    unchanged, with no action.  For an image-backed disk whose first storage
    domain is the resolved target, no action is issued and the call returns
    unchanged; when the target differs, one [move] action is issued and the
    call goes on as the wait for the status OK of the disk, reporting a
    change when the wait returns, which, waiting, it does after a poll
    that saw OK. *)
Theorem single_storage_domain (fuel : nat) (w : World) (params : Params)
    (id : string) (h : History) (disk : Disk) :
  truthy_str (p_storage_domain params) = true ->
  truthy_list (p_storage_domains params) = false ->
  w_disk_get w (h ++ [EDiskGet id]) = Replied disk ->
  let run := update_storage_domains fuel w params id h in
  let h1 := h ++ [EDiskGet id] in
  let h2 := h1 ++ [ESearchByName StorageDomains (p_storage_domain params)] in
  (storage_type disk <> IMAGE -> run = (Ret false, h1))
  /\ (storage_type disk = IMAGE ->
      forall target current others,
        w_search_sd w h2 = Replied (Some target) ->
        disk_storage_domains disk = current :: others ->
        (sd_id target = sd_id current -> run = (Ret false, h2))
        /\ (sd_id target <> sd_id current ->
            let move := EAction "move" (disk_id disk) (sd_id target) in
            w_action w (h2 ++ [move]) = Replied tt ->
            let waited :=
              wait fuel w (disk_is_OK w (Some (disk_id disk))) (p_wait params)
                (p_timeout params) (h2 ++ [move; ESleep (p_poll_interval params)]) in
            run = (changed_after (fst waited), snd waited)
            /\ filter (is_action "move") (snd run)
               = filter (is_action "move") h ++ [move]
            /\ (p_wait params = true -> fst run = Ret true ->
                exists h0, snd run = h0 ++ [EDiskStatus (Some (disk_id disk))]
                           /\ w_disk_status w (snd run) = Replied OK))).
Proof.
  intros Hsd Hsds Hget run h1 h2.
  assert (Hrun : run =
    (if negb (storage_type_eqb (storage_type disk) IMAGE) then ret false
     else
       changed <-
         (new_disk_storage <-
            search_by_name StorageDomains (w_search_sd w) (p_storage_domain params) ;
          i <- attr_id new_disk_storage ;
          action fuel w params "move" disk (move_condition i)
            (disk_is_OK w (Some (disk_id disk))) i (sleep (p_poll_interval params))) ;
       ret changed) h1).
  { unfold run, update_storage_domains. unfold bind at 1. unfold call at 1.
    rewrite Hget, Hsd, Hsds. reflexivity. }
  split.
  - intros Hty. rewrite Hrun.
    destruct (storage_type disk); [congruence | reflexivity | reflexivity].
  - intros Hty target current others Hsearch Hdoms.
    rewrite Hty in Hrun.
    change (negb (storage_type_eqb IMAGE IMAGE)) with false in Hrun.
    unfold bind at 1 2, search_by_name, call in Hrun. cbv beta iota in Hrun.
    fold h2 in Hrun. rewrite Hsearch in Hrun. unfold bind at 1, attr_id, ret at 1 in Hrun.
    unfold action in Hrun. unfold bind at 1, move_condition in Hrun.
    rewrite Hdoms in Hrun. unfold ret at 1 in Hrun.
    split.
    + intros Heq. rewrite Hrun, Heq, String.eqb_refl. reflexivity.
    + intros Hne move Hact waited.
      assert (Hb : String.eqb (sd_id target) (sd_id current) = false)
        by (apply String.eqb_neq; exact Hne).
      rewrite Hb in Hrun. change (negb false) with true in Hrun.
      cbv iota in Hrun. unfold bind at 1, call at 1 in Hrun. cbv beta in Hrun.
      fold move in Hrun. rewrite Hact in Hrun.
      unfold bind at 1, sleep, emit in Hrun. cbv beta iota in Hrun.
      rewrite <- app_assoc in Hrun. simpl app in Hrun.
      unfold bind at 1 in Hrun. fold waited in Hrun.
      assert (E : run = (changed_after (fst waited), snd waited)).
      { rewrite Hrun. destruct waited as [[[]|e|] hw]; reflexivity. }
      split; [exact E|]. split.
      * rewrite E. simpl snd. unfold waited.
        rewrite (appends_filter _ _ _ _ (action_move_appends "move" w _ _ _ fuel))
          by (intros e He; destruct (is_action "move" e); [discriminate | reflexivity]).
        unfold h2, h1. rewrite !filter_app. simpl. rewrite !app_nil_r. reflexivity.
      * intros Hw Hret. rewrite E in Hret |- *. simpl in Hret |- *.
        unfold waited in *. unfold wait in *. rewrite Hw in *.
        unfold bind at 1, now at 1 in Hret. unfold bind at 1, now at 1.
        unfold bind at 1, now at 1.
        match goal with |- context [wait_poll ?f ?i ?c ?d ?hh] =>
          destruct (wait_poll f i c d hh) as [[[]|e|] hw] eqn:Hp end;
          try discriminate.
        exact (wait_poll_returns_OK _ _ _ _ _ _ _ Hp).
Qed.

Lemma single_storage_domain_witness :
  update_storage_domains 10 (smooth_world 20000000 image_disk) move_params "d1" []
  = (Ret true,
     [EDiskGet "d1"; ESearchByName StorageDomains (Some "fast");
      EAction "move" "d1" "sd-fast"; ESleep 3; EDiskStatus (Some "d1")]).
Proof.
  assert (Hne : sd_id (mkSd "sd-fast") <> sd_id (mkSd "sd-data")) by discriminate.
  exact (proj1 (proj2 (proj2 (single_storage_domain 10 (smooth_world 20000000 image_disk)
                                move_params "d1" [] image_disk eq_refl eq_refl eq_refl)
                         eq_refl (mkSd "sd-fast") (mkSd "sd-data") [] eq_refl eq_refl)
                  Hne eq_refl)).
Defined.

(** ** References that do not resolve *)

(** C9, as stated, fails: the storage domain [nowhere] does not exist, the
    disk is LUN-backed, and [update_storage_domains] returns unchanged
    without looking the name up. *)
Lemma lun_disk_unresolved_domain_returns :
  p_storage_domain nowhere_params = Some "nowhere"
  /\ sample_sds "nowhere" = None
  /\ update_storage_domains 10 (smooth_world 20000000 lun_disk) nowhere_params "d2" []
     = (Ret false, [EDiskGet "d2"]).
Proof. repeat split. Qed.

(** C9, amended.  For an image-backed disk, [update_storage_domains] raises
    on the [id] of the missing domain, with no action issued, when the
    declared [storage_domain] does not resolve, and when a name to copy to
    does not resolve while no change has been reported in the call; for a
    disk that is not image-backed it resolves no name and returns unchanged.
    With the attachment branch entered and no [vm_id] given, a [vm_name]
    that does not resolve makes the driver fail with the message that the
    VM does not exist, right after the search. *)
Theorem unresolved_references (fuel : nat) (w : World) (params : Params) :
  (forall id h disk,
     w_disk_get w (h ++ [EDiskGet id]) = Replied disk ->
     let h1 := h ++ [EDiskGet id] in
     (storage_type disk <> IMAGE ->
      update_storage_domains fuel w params id h = (Ret false, h1))
     /\ (storage_type disk = IMAGE ->
         truthy_str (p_storage_domain params) = true ->
         w_search_sd w (h1 ++ [ESearchByName StorageDomains (p_storage_domain params)])
         = Replied None ->
         update_storage_domains fuel w params id h
         = (Raise attribute_error_id,
            h1 ++ [ESearchByName StorageDomains (p_storage_domain params)]))
     /\ (storage_type disk = IMAGE ->
         truthy_str (p_storage_domain params) = false ->
         forall sd rest,
           p_storage_domains params = Some (sd :: rest) ->
           w_search_sd w (h1 ++ [ESearchByName StorageDomains (Some sd)]) = Replied None ->
           update_storage_domains fuel w params id h
           = (Raise attribute_error_id,
              h1 ++ [ESearchByName StorageDomains (Some sd)])))
  /\ (forall disk sd rest h,
        w_search_sd w (h ++ [ESearchByName StorageDomains (Some sd)]) = Replied None ->
        copy_loop fuel w params disk false (sd :: rest) h
        = (Raise attribute_error_id, h ++ [ESearchByName StorageDomains (Some sd)]))
  /\ (forall r h,
        p_vm_id params = None ->
        w_search_vm w (h ++ [ESearchByName Vms (p_vm_name params)]) = Replied None ->
        attach_branch fuel w params r h
        = (Raise vm_missing, h ++ [ESearchByName Vms (p_vm_name params)]))
  /\ (forall h r params' h1,
        disk_phase fuel w params h = (Ret (r, params'), h1) ->
        vm_reference_present params' = true ->
        p_vm_id params' = None ->
        w_search_vm w (h1 ++ [ESearchByName Vms (p_vm_name params')]) = Replied None ->
        main fuel w params h
        = (Raise vm_missing, h1 ++ [ESearchByName Vms (p_vm_name params'); EClose])).
Proof.
  assert (Hcopy : forall disk sd rest h,
            w_search_sd w (h ++ [ESearchByName StorageDomains (Some sd)]) = Replied None ->
            copy_loop fuel w params disk false (sd :: rest) h
            = (Raise attribute_error_id, h ++ [ESearchByName StorageDomains (Some sd)])).
  { intros disk sd rest h Hs. simpl copy_loop.
    unfold bind at 1, search_by_name, call. rewrite Hs. reflexivity. }
  assert (Hvm : forall p r h,
            p_vm_id p = None ->
            w_search_vm w (h ++ [ESearchByName Vms (p_vm_name p)]) = Replied None ->
            attach_branch fuel w p r h
            = (Raise vm_missing, h ++ [ESearchByName Vms (p_vm_name p)])).
  { intros p r h Hid Hs. unfold attach_branch. rewrite Hid.
    unfold bind at 1 2, search_by_name, call. rewrite Hs. reflexivity. }
  split.
  { intros id h disk H h1. split; [|split].
    - intros Hty. unfold update_storage_domains. unfold bind at 1, call at 1.
      rewrite H. destruct (storage_type disk); [congruence | reflexivity | reflexivity].
    - intros Hty Hsd Hs. unfold update_storage_domains. unfold bind at 1, call at 1.
      rewrite H, Hty, Hsd.
      change (negb (storage_type_eqb IMAGE IMAGE)) with false. cbv iota.
      unfold bind at 1 2, search_by_name, call. fold h1. rewrite Hs. reflexivity.
    - intros Hty Hsd sd rest Hsds Hs. unfold update_storage_domains.
      unfold bind at 1, call at 1.
      rewrite H, Hty, Hsd, Hsds.
      change (negb (storage_type_eqb IMAGE IMAGE)) with false. cbv iota.
      unfold bind at 1, ret at 1. simpl truthy_list. cbv iota. fold h1.
      apply Hcopy. exact Hs. }
  split; [exact Hcopy|]. split; [exact (Hvm params)|].
  intros h r params' h1 Hdisk Hguard Hid Hs.
  unfold main. rewrite (disk_phase_connected _ _ _ _ _ _ Hdisk).
  unfold try_finally, try_except, main_body.
  unfold bind at 1. rewrite Hdisk. rewrite Hguard.
  unfold bind at 1. rewrite (Hvm params' r h1 Hid Hs).
  simpl. rewrite <- app_assoc. reflexivity.
Qed.

Lemma unresolved_references_witness :
  main 10 (smooth_world 20000000 image_disk) ghost_vm_params []
  = (Raise vm_missing,
     [ECreateDisk None (Some OK); EDiskGet "d1";
      ESearchByName Vms (Some "ghost"); EClose]).
Proof.
  exact (proj2 (proj2 (proj2
           (unresolved_references 10 (smooth_world 20000000 image_disk) ghost_vm_params)))
           [] (mkResult false (Some "d1")) (set_id ghost_vm_params (Some "d1"))
           [ECreateDisk None (Some OK); EDiskGet "d1"]
           eq_refl eq_refl eq_refl eq_refl).
Defined.

(** ** The upload and the [changed] flag *)

Lemma upload_disk_image_returns_True (fuel : nat) (w : World) (params : Params)
    (h : History) (b : bool) :
  fst (upload_disk_image fuel w params h) = Ret b -> b = true.
Proof.
  unfold upload_disk_image. unfold bind at 1.
  destruct (call (EGetSize (p_image_path params)) (w_getsize w) h) as [[size|e|] h1];
    try discriminate.
  unfold bind at 1.
  destruct (call (ETransferAdd (p_id params)) (w_transfer_add w) h1) as [[t|e|] h2];
    try discriminate.
  unfold bind at 1.
  destruct (in_frame t _ h2) as [[[]|e|] h3]; try discriminate.
  simpl. intros H. injection H as <-. reflexivity.
Qed.

(** After the upload the result of the disk phase reports a change. *)
Lemma reconcile_disk_changed (fuel : nat) (w : World) (params : Params)
    (disk : option Disk) (h h' : History) (c : bool) (i : string)
    (r : Result) (params' : Params) :
  w_create_disk w
    (h ++ [ECreateDisk disk (if is_not_None (p_logical_unit params) then None else Some OK)])
  = Replied (c, i) ->
  truthy_str (p_image_path params) && (c || p_force params) = true ->
  reconcile_disk fuel w params disk h = (Ret (r, params'), h') ->
  changed r = true.
Proof.
  intros Hc Hup. unfold reconcile_disk, create.
  unfold bind at 1 2, call at 1. rewrite Hc. unfold ret at 1. cbv beta iota.
  simpl fst. simpl snd. simpl changed. simpl res_id. simpl orb.
  unfold bind at 1.
  destruct ((if c then ret true else update_storage_domains fuel w params i) _)
    as [[ch|e|] h1]; try discriminate.
  change (p_image_path (set_id params ?x)) with (p_image_path params).
  change (p_force (set_id params ?x)) with (p_force params).
  rewrite Hup. unfold bind at 1 2.
  match goal with |- context [upload_disk_image ?f ?ww ?pp ?hh] =>
    pose proof (upload_disk_image_returns_True f ww pp hh) as Hb;
    destruct (upload_disk_image f ww pp hh) as [[b|e|] h2] end;
    try discriminate.
  simpl in Hb. rewrite (Hb b eq_refl). unfold ret. intros H. injection H as <- _ _.
  simpl. apply orb_true_r.
Qed.

(** The attachment branch keeps a change reported before it. *)
Lemma attach_branch_changed (fuel : nat) (w : World) (params : Params)
    (r r' : Result) (h h' : History) :
  attach_branch fuel w params r h = (Ret r', h') ->
  changed r = true -> changed r' = true.
Proof.
  intros H Hr. unfold attach_branch in H. unfold bind at 1 in H.
  match type of H with context [let (_, _) := ?m h in _] =>
    destruct (m h) as [[[v|]|e|] h0] end; try discriminate.
  unfold bind at 1, emit at 1 in H.
  destruct (state_eqb (p_state params) present || state_eqb (p_state params) attached).
  - unfold bind at 1, create at 1 in H. unfold bind at 1, call at 1 in H.
    destruct (w_create_attachment w _) as [[c i]|msg]; [|discriminate].
    unfold ret at 1 in H. unfold bind at 1 in H.
    match type of H with context [let (_, _) := ?m ?hh in _] =>
      destruct (m hh) as [[[]|e|] h2] end; try discriminate.
    injection H as <- _. simpl. rewrite Hr. reflexivity.
  - destruct (state_eqb (p_state params) detached).
    + unfold remove in H. unfold bind at 1, call at 1 in H.
      destruct (w_remove_attachment w _) as [[c i]|msg]; [|discriminate].
      injection H as <- _. simpl. rewrite Hr. reflexivity.
    + injection H as <- _. exact Hr.
Qed.

Lemma may_raise_try_finally {S A : Type} (P : exn -> Prop) (body : M S A)
    (fin : M S unit) :
  may_raise P body -> may_raise P fin -> may_raise P (try_finally body fin).
Proof.
  intros Hb Hf s e. unfold try_finally. specialize (Hb s).
  destruct (body s) as [[a|e1|] s1]; simpl in Hb.
  - specialize (Hf s1). destruct (fin s1) as [[u|e2|] s2]; simpl in Hf |- *.
    + discriminate.
    + intros H. injection H as <-. apply Hf. reflexivity.
    + discriminate.
  - specialize (Hf s1). destruct (fin s1) as [[u|e2|] s2]; simpl in Hf |- *.
    + intros H. injection H as <-. apply Hb. reflexivity.
    + intros H. injection H as <-. apply Hf. reflexivity.
    + discriminate.
  - discriminate.
Qed.

Lemma may_raise_in_frame {A : Type} (P : exn -> Prop) (t : ImageTransfer)
    (m : M Frame A) :
  may_raise P m -> may_raise P (in_frame t m).
Proof.
  intros Hm h e. unfold in_frame. specialize (Hm (mkFrame h t)).
  destruct (m (mkFrame h t)) as [r st]. simpl in *. apply Hm.
Qed.

(** ** The suspension points and the timeout *)

Lemma clock_polled (interval : Z) (k : nat) : forall h : History,
  clock (polled interval h k) = clock h + Z.of_nat k * interval.
Proof.
  induction k as [|k IH]; intros h.
  - simpl. lia.
  - change (polled interval h (S k))
      with (polled interval (h ++ [ESleep interval; ETransferGet]) k).
    rewrite IH, clock_app. simpl clock. lia.
Qed.

(** A phase loop whose test the service keeps passing: after [fuel] rounds
    it has slept and polled [fuel] times and is still in the loop. *)
Lemma poll_while_stuck_run (w : World) (interval : Z)
    (test : ImageTransferPhase -> bool) (fuel : nat) : forall st : Frame,
  (forall h, exists t, w_transfer_get w h = Replied t /\ test (phase t) = true) ->
  test (phase (f_transfer st)) = true ->
  fst (poll_while w interval test fuel st) = Diverge
  /\ f_hist (snd (poll_while w interval test fuel st)) = polled interval (f_hist st) fuel.
Proof.
  induction fuel as [|fuel IH]; intros st Hw T.
  - split; reflexivity.
  - rewrite poll_while_step, T.
    destruct (Hw (f_hist st ++ [ESleep interval; ETransferGet])) as (t & -> & Ht).
    exact (IH (mkFrame (f_hist st ++ [ESleep interval; ETransferGet]) t) Hw Ht).
Qed.

(** TimeoutExceeded is raised less than an interval after the deadline,
    unless the deadline had passed when the wait began. *)
Lemma wait_poll_not_late (interval : Z) (cond : M History bool) (fuel : nat) :
  poll_like cond ->
  forall (deadline : Z) (h : History),
    fst (wait_poll fuel interval cond deadline h) = Raise TimeoutExceeded ->
    clock (snd (wait_poll fuel interval cond deadline h))
    <= Z.max (clock h) (deadline + interval - 1).
Proof.
  intros cond_polls.
  induction fuel as [|fuel IH]; intros deadline h; simpl; unfold_monad;
    [simpl; discriminate|].
  destruct (cond_polls h) as [[b Hr] Hc].
  destruct (cond h) as [r h'] eqn:E; simpl in Hr, Hc.
  destruct Hr as [-> | [msg ->]]; [|simpl; discriminate].
  destruct b; [simpl; discriminate|].
  destruct (deadline <=? clock h') eqn:D.
  - simpl. intros _. lia.
  - intros H. specialize (IH deadline (h' ++ [ESleep interval]) H).
    rewrite clock_app in IH. simpl clock in IH. apply Z.leb_gt in D.
    unfold emit. cbv beta iota. lia.
Qed.

Lemma may_raise_upload_disk_image (P : exn -> Prop) (fuel : nat) (w : World)
    (params : Params) :
  (forall msg, P (RemoteError msg)) ->
  P (Exception "Failed to upload disk image.") ->
  (forall p, P (Exception (transfer_failed_msg p))) ->
  (truthy_list (p_logical_unit params) = true -> P TimeoutExceeded) ->
  may_raise P (upload_disk_image fuel w params).
Proof.
  intros remote Hx Hfail Ht. unfold upload_disk_image.
  apply may_raise_bind; [apply may_raise_call, remote|]. intros size.
  apply may_raise_bind; [apply may_raise_call, remote|]. intros t.
  apply may_raise_bind; [|intros _; apply may_raise_ret].
  apply may_raise_in_frame, may_raise_try_finally.
  - apply may_raise_upload_try; [exact remote | exact Hx].
  - unfold upload_finally.
    apply may_raise_bind; [apply may_raise_lift, may_raise_call, remote|]. intros _.
    apply may_raise_bind.
    { rewrite finalize_wait_poll_while. apply may_raise_poll_while, remote. }
    intros _. apply may_raise_bind; [apply may_raise_get|]. intros tr.
    apply may_raise_bind.
    { apply may_raise_if; [apply may_raise_raise, Hfail | apply may_raise_ret]. }
    intros _. destruct (truthy_list (p_logical_unit params)); [|apply may_raise_ret].
    apply may_raise_lift, may_raise_wait;
      [exact (Ht eq_refl) | apply may_raise_disk_is_OK, remote].
Qed.

(** C2 fails on the code.  Of the three suspension points of
    [upload_disk_image] only the status wait of a LUN disk is given the
    timeout of the caller; the two phase loops have no deadline.
    - With a service that keeps reporting INITIALIZING, the run is, after
      any number of polls, still in the first loop: it has slept that many
      poll intervals, more than any timeout, and has raised nothing.
    - With a service that keeps reporting TRANSFERRING or
      FINALIZING_SUCCESS after [finalize], the same holds of the second
      loop.
    - Without a LUN, no run raises TimeoutExceeded, whatever the service
      does.
    - With a LUN whose disk never becomes OK, the run does raise
      TimeoutExceeded, no sooner than the timeout after the second loop
      ended and less than a poll interval of [wait] later. *)
Theorem suspension_points_and_timeout (w : World) (params : Params) (h : History)
    (size : Z) (t : ImageTransfer) :
  w_getsize w (h ++ [EGetSize (p_image_path params)]) = Replied size ->
  w_transfer_add w (try_start params h) = Replied t ->
  let interval := p_poll_interval params in
  (initializing (phase t) = true ->
   (forall h', exists t', w_transfer_get w h' = Replied t'
                          /\ initializing (phase t') = true) ->
   forall fuel,
     upload_disk_image fuel w params h
     = (Diverge, polled interval (try_start params h) fuel)
     /\ clock (polled interval (try_start params h) fuel)
        = clock h + Z.of_nat fuel * interval)
  /\ (forall fuel r1 st1,
        upload_try fuel w params size (mkFrame (try_start params h) t) = (r1, st1) ->
        r1 <> Diverge ->
        w_finalize w (f_hist st1 ++ [EFinalize]) = Replied tt ->
        finalizing (phase (f_transfer st1)) = true ->
        (forall h', exists t', w_transfer_get w h' = Replied t'
                               /\ finalizing (phase t') = true) ->
        upload_disk_image fuel w params h
        = (Diverge, polled interval (f_hist st1 ++ [EFinalize]) fuel)
        /\ clock (polled interval (f_hist st1 ++ [EFinalize]) fuel)
           = clock (f_hist st1) + Z.of_nat fuel * interval)
  /\ (truthy_list (p_logical_unit params) = false ->
      forall fuel, fst (upload_disk_image fuel w params h) <> Raise TimeoutExceeded)
  /\ (forall fuel r1 st1 st3,
        upload_try fuel w params size (mkFrame (try_start params h) t) = (r1, st1) ->
        r1 <> Diverge ->
        w_finalize w (f_hist st1 ++ [EFinalize]) = Replied tt ->
        finalize_wait fuel w interval
          (mkFrame (f_hist st1 ++ [EFinalize]) (f_transfer st1)) = (Ret tt, st3) ->
        phase_in (phase (f_transfer st3)) failure_phases = false ->
        truthy_list (p_logical_unit params) = true ->
        p_wait params = true ->
        (forall h0, exists s, w_disk_status w h0 = Replied s /\ s <> OK) ->
        0 < w_wait_interval w ->
        0 <= p_timeout params ->
        (wait_fuel (p_timeout params) (w_wait_interval w) <= fuel)%nat ->
        fst (upload_disk_image fuel w params h) = Raise TimeoutExceeded
        /\ clock (f_hist st3) + p_timeout params
           <= clock (snd (upload_disk_image fuel w params h))
           < clock (f_hist st3) + p_timeout params + w_wait_interval w).
Proof.
  intros Hs Ht interval.
  split; [|split; [|split]].
  - intros T Hw fuel.
    rewrite clock_polled. unfold try_start at 2. rewrite !clock_app. simpl clock.
    split; [|lia].
    rewrite (upload_disk_image_eq fuel w params h size t Hs Ht).
    destruct (poll_while_stuck_run w interval initializing fuel
                (mkFrame (try_start params h) t) Hw T) as [Hd Hh].
    assert (Htry : upload_try fuel w params size (mkFrame (try_start params h) t)
                   = (Diverge,
                      snd (poll_while w interval initializing fuel
                             (mkFrame (try_start params h) t)))).
    { unfold upload_try. rewrite init_wait_poll_while. fold interval.
      unfold bind at 1.
      destruct (poll_while w interval initializing fuel
                  (mkFrame (try_start params h) t)) as [r st].
      simpl in Hd. subst r. reflexivity. }
    unfold try_finally. rewrite Htry. simpl in Hh |- *. rewrite Hh. reflexivity.
  - intros fuel r1 st1 Htry Hnd Hfin T Hw.
    rewrite clock_polled, clock_app. simpl clock.
    split; [|lia].
    rewrite (upload_disk_image_eq fuel w params h size t Hs Ht).
    unfold try_finally. rewrite Htry.
    destruct (poll_while_stuck_run w interval finalizing fuel
                (mkFrame (f_hist st1 ++ [EFinalize]) (f_transfer st1)) Hw T)
      as [Hd Hh].
    assert (Hf : upload_finally fuel w params st1
                 = (Diverge,
                    snd (poll_while w interval finalizing fuel
                           (mkFrame (f_hist st1 ++ [EFinalize]) (f_transfer st1))))).
    { unfold upload_finally. unfold bind at 1. unfold lift at 1. unfold call at 1.
      rewrite Hfin. unfold bind at 1. rewrite finalize_wait_poll_while. fold interval.
      destruct (poll_while w interval finalizing fuel
                  (mkFrame (f_hist st1 ++ [EFinalize]) (f_transfer st1))) as [r st].
      simpl in Hd. subst r. reflexivity. }
    rewrite Hf. simpl in Hh.
    destruct r1 as [[]|e|]; [| |congruence]; simpl; rewrite Hh; reflexivity.
  - intros Hlun fuel H.
    refine (may_raise_upload_disk_image (fun e => e <> TimeoutExceeded) fuel w params
              _ _ _ _ h TimeoutExceeded H eq_refl); try discriminate.
    rewrite Hlun. discriminate.
  - intros fuel r1 st1 st3 Htry Hnd Hfin Hwait Hp Hlun Hflag Hno Hi Hto Hfuel.
    assert (Hcond : forall h0, fst (disk_is_OK w (p_id params) h0) = Ret false).
    { intros h0. unfold disk_is_OK. unfold_monad.
      destruct (Hno (h0 ++ [EDiskStatus (p_id params)])) as (s & -> & Hs').
      destruct s; simpl; try reflexivity. congruence. }
    pose proof (wait_times_out w (disk_is_OK w (p_id params)) (p_timeout params) fuel
                  (f_hist st3) Hi (disk_is_OK_poll_like w (p_id params)) Hcond Hfuel)
      as Hraise.
    pose proof (wait_deadline w (disk_is_OK w (p_id params)) true (p_timeout params)
                  fuel (f_hist st3) (disk_is_OK_poll_like w (p_id params)) Hraise)
      as Hlow.
    assert (Hup : clock (snd (wait fuel w (disk_is_OK w (p_id params)) true
                                (p_timeout params) (f_hist st3)))
                  <= Z.max (clock (f_hist st3))
                       (clock (f_hist st3) + p_timeout params + w_wait_interval w - 1)).
    { revert Hraise. unfold wait. unfold_monad. intros Hraise.
      exact (wait_poll_not_late (w_wait_interval w) (disk_is_OK w (p_id params)) fuel
               (disk_is_OK_poll_like w (p_id params)) _ _ Hraise). }
    assert (Hf : upload_finally fuel w params st1
                 = lift (wait fuel w (disk_is_OK w (p_id params)) true
                           (p_timeout params)) st3).
    { unfold upload_finally. unfold bind at 1. unfold lift at 1. unfold call at 1.
      rewrite Hfin. unfold bind at 1. fold interval. rewrite Hwait.
      unfold bind at 1. unfold get_transfer at 1.
      unfold bind at 1. rewrite Hp, Hlun, Hflag. reflexivity. }
    rewrite (upload_disk_image_eq fuel w params h size t Hs Ht).
    unfold try_finally. rewrite Htry, Hf. unfold lift.
    destruct (wait fuel w (disk_is_OK w (p_id params)) true (p_timeout params)
                (f_hist st3)) as [r hw].
    simpl in Hraise, Hlow, Hup. subst r.
    destruct r1 as [[]|e|]; [| |congruence]; simpl; (split; [reflexivity | lia]).
Qed.

Lemma suspension_points_and_timeout_witness :
  p_timeout sample_params = 180
  /\ (forall fuel,
        upload_disk_image fuel stuck_world sample_params []
        = (Diverge, polled 3 (try_start sample_params []) fuel)
        /\ clock (polled 3 (try_start sample_params []) fuel)
           = 0 + Z.of_nat fuel * 3)
  /\ fst (upload_disk_image 10 held_world sample_params []) = Diverge
  /\ fst (upload_disk_image 10 (smooth_world 20000000 image_disk) sample_params []) <> Raise TimeoutExceeded
  /\ fst (upload_disk_image 100 locked_world lun_upload_params [])
     = Raise TimeoutExceeded
  /\ 9 + 180 <= clock (snd (upload_disk_image 100 locked_world lun_upload_params []))
     < 9 + 180 + 3.
Proof.
  assert (Hnd : @Ret unit tt <> Diverge) by discriminate.
  split; [reflexivity|]. split; [|split; [|split]].
  - intros fuel.
    apply (proj1 (suspension_points_and_timeout stuck_world sample_params []
                    20000000 (transfer_in INITIALIZING) eq_refl eq_refl));
      [reflexivity|].
    intros h'. eexists. split; reflexivity.
  - refine (f_equal fst
              (proj1 (proj1 (proj2 (suspension_points_and_timeout held_world
                                      sample_params [] 20000000
                                      (transfer_in INITIALIZING) eq_refl eq_refl))
                        10%nat (Ret tt) _ eq_refl Hnd eq_refl eq_refl _))).
    intros h'. eexists. split; reflexivity.
  - exact (proj1 (proj2 (proj2 (suspension_points_and_timeout
                                  (smooth_world 20000000 image_disk) sample_params []
                                  20000000 (transfer_in INITIALIZING) eq_refl eq_refl)))
             eq_refl 10%nat).
  - refine (proj2 (proj2 (proj2 (suspension_points_and_timeout locked_world
                                   lun_upload_params [] 20000000
                                   (transfer_in INITIALIZING) eq_refl eq_refl)))
              100%nat (Ret tt) _ _ eq_refl Hnd eq_refl eq_refl eq_refl eq_refl eq_refl
              _ eq_refl _ _).
    + intros h0. exists LOCKED. split; [reflexivity | discriminate].
    + discriminate.
    + apply Nat.leb_le. reflexivity.
Defined.

(** Up to the end of the disk phase nothing leaves the module normally; the
    attachment branch does not either. *)
Section NoExit.

Variable fuel : nat.
Variable w : World.

Let remote : forall msg, not_exit_json (RemoteError msg) := fun _ => I.

Lemma wait_no_exit (cond : M History bool) (flag : bool) (timeout : Z) :
  may_raise not_exit_json cond ->
  may_raise not_exit_json (wait fuel w cond flag timeout).
Proof. apply may_raise_wait. exact I. Qed.

Lemma upload_disk_image_no_exit (params : Params) :
  may_raise not_exit_json (upload_disk_image fuel w params).
Proof.
  unfold upload_disk_image.
  apply may_raise_bind; [apply may_raise_call, remote|]. intros size.
  apply may_raise_bind; [apply may_raise_call, remote|]. intros t.
  apply may_raise_bind; [|intros _; apply may_raise_ret].
  apply may_raise_in_frame, may_raise_try_finally.
  - apply may_raise_upload_try; [exact remote | exact I].
  - unfold upload_finally.
    apply may_raise_bind; [apply may_raise_lift, may_raise_call, remote|]. intros _.
    apply may_raise_bind.
    { rewrite finalize_wait_poll_while. apply may_raise_poll_while, remote. }
    intros _. apply may_raise_bind; [apply may_raise_get|]. intros tr.
    apply may_raise_bind.
    { apply may_raise_if; [apply may_raise_raise; exact I | apply may_raise_ret]. }
    intros _. apply may_raise_if; [|apply may_raise_ret].
    apply may_raise_lift, wait_no_exit, may_raise_disk_is_OK, remote.
Qed.

Lemma action_no_exit (params : Params) (name : string) (entity : Disk)
    (action_condition : Disk -> M History bool) (storage_domain : string)
    (post_action : M History unit) :
  (forall d, may_raise not_exit_json (action_condition d)) ->
  may_raise not_exit_json post_action ->
  may_raise not_exit_json
    (action fuel w params name entity action_condition
       (disk_is_OK w (Some (disk_id entity))) storage_domain post_action).
Proof.
  intros Hc Hp. unfold action.
  apply may_raise_bind; [apply Hc|]. intros go.
  apply may_raise_if; [|apply may_raise_ret].
  apply may_raise_bind; [apply may_raise_call, remote|]. intros _.
  apply may_raise_bind; [exact Hp|]. intros _.
  apply may_raise_bind; [|intros _; apply may_raise_ret].
  apply wait_no_exit, may_raise_disk_is_OK, remote.
Qed.

Lemma attr_id_no_exit (o : option StorageDomain) :
  may_raise not_exit_json (attr_id o).
Proof.
  destruct o; simpl; [apply may_raise_ret | apply may_raise_raise; exact I].
Qed.

Lemma copy_loop_no_exit (params : Params) (disk : Disk) (sds : list string) :
  forall changed, may_raise not_exit_json (copy_loop fuel w params disk changed sds).
Proof.
  induction sds as [|sd rest IH]; intros c; simpl; [apply may_raise_ret|].
  apply may_raise_bind; [apply may_raise_call, remote|]. intros o.
  apply may_raise_bind; [|intros c'; apply IH].
  apply may_raise_if; [apply may_raise_ret|].
  apply may_raise_bind; [apply attr_id_no_exit|]. intros i.
  apply action_no_exit; [intros d; apply may_raise_ret | apply may_raise_ret].
Qed.

Lemma update_storage_domains_no_exit (params : Params) (id : string) :
  may_raise not_exit_json (update_storage_domains fuel w params id).
Proof.
  unfold update_storage_domains.
  apply may_raise_bind; [apply may_raise_call, remote|]. intros disk.
  apply may_raise_if; [apply may_raise_ret|].
  apply may_raise_bind.
  - apply may_raise_if; [|apply may_raise_ret].
    apply may_raise_bind; [apply may_raise_call, remote|]. intros o.
    apply may_raise_bind; [apply attr_id_no_exit|]. intros i.
    apply action_no_exit; [|apply may_raise_emit].
    intros d. unfold move_condition.
    destruct (disk_storage_domains d);
      [apply may_raise_raise; exact I | apply may_raise_ret].
  - intros c. apply may_raise_if; [apply copy_loop_no_exit | apply may_raise_ret].
Qed.

Lemma reconcile_disk_no_exit (params : Params) (disk : option Disk) :
  may_raise not_exit_json (reconcile_disk fuel w params disk).
Proof.
  unfold reconcile_disk, create.
  apply may_raise_bind.
  { apply may_raise_bind; [apply may_raise_call, remote|].
    intros r. apply may_raise_ret. }
  intros r. apply may_raise_bind.
  { apply may_raise_if; [apply may_raise_ret | apply update_storage_domains_no_exit]. }
  intros ch. apply may_raise_bind; [|intros ch'; apply may_raise_ret].
  apply may_raise_if; [|apply may_raise_ret].
  apply may_raise_bind; [apply upload_disk_image_no_exit|].
  intros b. apply may_raise_ret.
Qed.

Lemma attach_branch_no_exit (params : Params) (r : Result) :
  may_raise not_exit_json (attach_branch fuel w params r).
Proof.
  unfold attach_branch, create, remove, fail_json.
  apply may_raise_bind.
  { destruct (p_vm_id params); [apply may_raise_ret|].
    apply may_raise_bind; [apply may_raise_call, remote|].
    intros vm. apply may_raise_ret. }
  intros [v|]; [|apply may_raise_raise; exact I].
  apply may_raise_bind; [apply may_raise_emit|]. intros _.
  apply may_raise_if.
  - apply may_raise_bind.
    { apply may_raise_bind; [apply may_raise_call, remote|].
      intros c. apply may_raise_ret. }
    intros r'. apply may_raise_bind; [|intros _; apply may_raise_ret].
    apply may_raise_if; [apply may_raise_ret|].
    apply wait_no_exit.
    apply may_raise_bind; [apply may_raise_call, remote|].
    intros s. apply may_raise_ret.
  - apply may_raise_if; [|apply may_raise_ret].
    apply may_raise_bind; [apply may_raise_call, remote|].
    intros c. apply may_raise_ret.
Qed.

End NoExit.

(** C10.  [upload_disk_image] returns nothing but [True]; and when the
    image is uploaded, the disk being new or the upload forced, a driver
    that exits normally reports [changed = true], whether or not the
    reconciliation of the disk reported a change ([c]) and whether or not
    the attachment branch runs afterwards. *)
Theorem upload_reports_changed (fuel : nat) (w : World) (params : Params)
    (h : History) :
  (forall b, fst (upload_disk_image fuel w params h) = Ret b -> b = true)
  /\ (forall disk h1 c i ch id h',
        p_state params <> absent ->
        lun_phase w params h = (Ret disk, h1) ->
        w_create_disk w (h1 ++ [ECreateDisk disk (result_state params)])
        = Replied (c, i) ->
        truthy_str (p_image_path params) && (c || p_force params) = true ->
        main fuel w params h = (Raise (SystemExit (ExitJson ch id)), h') ->
        ch = true).
Proof.
  split; [apply upload_disk_image_returns_True|].
  intros disk h1 c i ch id h' Hst Hlun Hc Hup Hmain.
  assert (Hbody : exists hb,
            main_body fuel w params h = (Raise (SystemExit (ExitJson ch id)), hb)).
  { unfold main, try_finally, try_except in Hmain.
    destruct (main_body fuel w params h) as [[[]|e|] hb].
    - exfalso. destruct (connection_of w (p_auth params) h) as [[]|];
        simpl in Hmain; discriminate.
    - destruct (is_Exception e) eqn:He;
        destruct (connection_of w (p_auth params) h) as [[]|];
        simpl in Hmain; try discriminate.
      injection Hmain as -> _. eauto.
    - simpl in Hmain. discriminate. }
  destruct Hbody as [hb Hbody]. clear Hmain.
  unfold main_body in Hbody. unfold bind at 1 in Hbody.
  assert (Hphase : disk_phase fuel w params h = reconcile_disk fuel w params disk h1
                   \/ exists msg, disk_phase fuel w params h
                                  = (Raise (RemoteError msg), h)).
  { rewrite !disk_phase_start.
    destruct (w_create_connection w (p_auth params) h) as [[]|msg];
      [left | right; exists msg; reflexivity].
    unfold bind at 1. rewrite Hlun.
    destruct (p_state params); try reflexivity. congruence. }
  destruct Hphase as [Hphase|[msg Hphase]]; rewrite Hphase in Hbody;
    [|discriminate].
  pose proof (reconcile_disk_no_exit fuel w params disk h1) as Hno.
  destruct (reconcile_disk fuel w params disk h1) as [[[r p']|e|] h2] eqn:Hrec.
  - assert (Hr : changed r = true)
      by exact (reconcile_disk_changed fuel w params disk h1 h2 c i r p' Hc Hup Hrec).
    unfold bind at 1 in Hbody.
    destruct (vm_reference_present p').
    + pose proof (attach_branch_no_exit fuel w p' r h2) as Hno'.
      destruct (attach_branch fuel w p' r h2) as [[r'|e|] h3] eqn:Hatt.
      * unfold exit_json, raise in Hbody. injection Hbody as <- _ _.
        exact (attach_branch_changed fuel w p' r r' h2 h3 Hatt Hr).
      * injection Hbody as -> _. exfalso. exact (Hno' _ eq_refl).
      * discriminate.
    + unfold ret at 1, exit_json, raise in Hbody. injection Hbody as <- _ _. exact Hr.
  - injection Hbody as -> _. exfalso. exact (Hno _ eq_refl).
  - discriminate.
Qed.

Lemma upload_reports_changed_witness :
  p_state sample_params <> absent
  /\ w_create_disk (smooth_world 20000000 image_disk)
       [ECreateDisk None (result_state sample_params)] = Replied (false, "d1")
  /\ exists ch id h',
       main 10 (smooth_world 20000000 image_disk) sample_params []
       = (Raise (SystemExit (ExitJson ch id)), h')
       /\ ch = true.
Proof.
  assert (Hst : p_state sample_params <> absent) by discriminate.
  split; [exact Hst|]. split; [reflexivity|].
  eexists _, _, _. split; [reflexivity|].
  exact (proj2 (upload_reports_changed 10 (smooth_world 20000000 image_disk)
                  sample_params [])
           None [] false "d1" _ _ _ Hst eq_refl eq_refl eq_refl eq_refl).
Defined.

(** * Further properties of the module *)

(** ** The lookup of a disk by its LUN *)

Lemma lun_matches_filter (lun_id : option string) (disks : list Disk) (h : History) :
  (forall d, In d disks -> lun_storage d <> None) ->
  lun_matches lun_id disks h = (Ret (filter (has_lun_id lun_id) disks), h).
Proof.
  induction disks as [|d rest IH]; intros Hall; simpl; [reflexivity|].
  unfold has_lun_id at 1.
  destruct (lun_storage d) as [hs|] eqn:Hd.
  - unfold bind. rewrite IH by (intros d' Hd'; apply Hall; right; exact Hd').
    unfold ret. destruct (opt_str_eqb (hs_id hs) lun_id); reflexivity.
  - exfalso. apply (Hall d); [left; reflexivity | exact Hd].
Qed.

Lemma lun_matches_raises (lun_id : option string) (disks : list Disk) (h : History) :
  (exists d, In d disks /\ lun_storage d = None) ->
  lun_matches lun_id disks h = (Raise attribute_error_id, h).
Proof.
  induction disks as [|d rest IH]; intros (d0 & Hin & Hd0); simpl.
  - contradiction.
  - destruct (lun_storage d) as [hs|] eqn:Hd; [|reflexivity].
    destruct Hin as [->|Hin]; [congruence|].
    unfold bind. rewrite IH by eauto. reflexivity.
Qed.

Lemma find_filter_head (f : Disk -> bool) (l : list Disk) :
  match filter f l with d :: _ => Some d | [] => None end = find f l.
Proof.
  induction l as [|d l IH]; simpl; [reflexivity|].
  destruct (f d); [reflexivity | exact IH].
Qed.

(** X1.  When every listed LUN disk has a [lun_storage], [_search_by_lun]
    lists the disks once and returns the first of them, in the order of the
    listing, whose LUN id is the one looked for, and [None] when there is
    none. *)
Theorem search_by_lun_first_match (w : World) (lun_id : option string)
    (h : History) (disks : list Disk) :
  w_lun_disks w (h ++ [EListLunDisks]) = Replied disks ->
  (forall d, In d disks -> lun_storage d <> None) ->
  _search_by_lun w lun_id h
  = (Ret (find (has_lun_id lun_id) disks), h ++ [EListLunDisks]).
Proof.
  intros Hl Hall. unfold _search_by_lun. unfold bind at 1, call. rewrite Hl.
  unfold bind. rewrite (lun_matches_filter lun_id disks _ Hall).
  unfold ret. rewrite find_filter_head. reflexivity.
Qed.

(** X2.  A listed disk without [lun_storage] makes [_search_by_lun] raise
    the AttributeError of [None.id], also when another disk of the listing
    has the LUN id looked for: the whole listing is filtered before its
    first element is taken. *)
Theorem search_by_lun_missing_storage (w : World) (lun_id : option string)
    (h : History) (disks : list Disk) :
  w_lun_disks w (h ++ [EListLunDisks]) = Replied disks ->
  (exists d, In d disks /\ lun_storage d = None) ->
  _search_by_lun w lun_id h = (Raise attribute_error_id, h ++ [EListLunDisks]).
Proof.
  intros Hl Hex. unfold _search_by_lun. unfold bind at 1, call. rewrite Hl.
  unfold bind. rewrite (lun_matches_raises lun_id disks _ Hex). reflexivity.
Qed.

Lemma search_by_lun_first_match_witness :
  _search_by_lun
    (with_lun_disks [lun_disk; other_lun_disk] (smooth_world 20000000 image_disk))
    (Some "1IET_000d0002") []
  = (Ret (Some other_lun_disk), [EListLunDisks]).
Proof.
  apply (search_by_lun_first_match
           (with_lun_disks [lun_disk; other_lun_disk] (smooth_world 20000000 image_disk))
           (Some "1IET_000d0002") [] [lun_disk; other_lun_disk] eq_refl).
  intros d [<-|[<-|[]]]; discriminate.
Defined.

Lemma search_by_lun_missing_storage_witness :
  _search_by_lun
    (with_lun_disks [lun_disk; image_disk] (smooth_world 20000000 image_disk))
    (Some "1IET_000d0001") []
  = (Raise attribute_error_id, [EListLunDisks]).
Proof.
  apply (search_by_lun_missing_storage
           (with_lun_disks [lun_disk; image_disk] (smooth_world 20000000 image_disk))
           (Some "1IET_000d0001") [] [lun_disk; image_disk] eq_refl).
  exists image_disk. split; [right; left; reflexivity | reflexivity].
Defined.

(** ** The calls each part of the module makes *)

Lemma appends_weaken {A : Type} (P Q : Event -> bool) (m : M History A) :
  (forall e, P e = true -> Q e = true) -> appends P m -> appends Q m.
Proof.
  intros HPQ Hm h. destruct (Hm h) as (evs & E & F). exists evs. split; [exact E|].
  rewrite forallb_forall in *. auto.
Qed.

Lemma appends_in_frame {A : Type} (P : Event -> bool) (t : ImageTransfer)
    (m : M Frame A) :
  appends_frame P m -> appends P (in_frame t m).
Proof.
  intros Hm h. unfold in_frame. destruct (Hm (mkFrame h t)) as (evs & E & F).
  destruct (m (mkFrame h t)) as [r st]. simpl in *. eauto.
Qed.

Lemma appends_frame_try_finally {A : Type} (P : Event -> bool) (body : M Frame A)
    (fin : M Frame unit) :
  appends_frame P body -> appends_frame P fin -> appends_frame P (try_finally body fin).
Proof.
  intros Hb Hf st. unfold try_finally. destruct (Hb st) as (evs & E & F).
  destruct (body st) as [r st1]; simpl in E.
  destruct (Hf st1) as (evs' & E' & F').
  assert (G : forallb P (evs ++ evs') = true) by (rewrite forallb_app, F, F'; reflexivity).
  destruct r as [a|e|].
  - destruct (fin st1) as [[u|e'|] st2]; simpl in E' |- *;
      exists (evs ++ evs'); rewrite E', E, app_assoc; split; auto.
  - destruct (fin st1) as [[u|e'|] st2]; simpl in E' |- *;
      exists (evs ++ evs'); rewrite E', E, app_assoc; split; auto.
  - exists evs. split; [exact E | exact F].
Qed.

Section Footprints.

Variable P : Event -> bool.
Variable fuel : nat.
Variable w : World.

Lemma appends_upload_loop (size : Z) (url : ParseResult) :
  P EExtend = true -> (forall p hd, P (EPut p hd) = true) ->
  forall hdrs pos, appends P (upload_loop fuel w size url hdrs pos).
Proof.
  intros He Hp. induction fuel as [|f IH]; intros hdrs pos; simpl;
    [auto with appends|].
  apply appends_if; [|auto with appends].
  apply appends_bind; [apply appends_call, He|]. intros _.
  apply appends_bind; [apply appends_call, Hp|]. intros s.
  apply appends_if; [auto with appends | apply IH].
Qed.

Lemma appends_upload_try (params : Params) (size : Z) :
  (forall s, P (ESleep s) = true) -> P ETransferGet = true ->
  P ESslInsecure = true -> P (ELoadVerifyLocations "ca.pem") = true ->
  (forall a b, P (EHttpsConnection a b) = true) ->
  (forall o, P (EOpenImage o) = true) ->
  P EExtend = true -> (forall p hd, P (EPut p hd) = true) ->
  appends_frame P (upload_try fuel w params size).
Proof.
  intros Hs Hg Hi Hl Hc Ho He Hp. unfold upload_try.
  apply appends_frame_bind.
  { rewrite init_wait_poll_while. apply appends_frame_poll_while; auto. }
  intros _. apply appends_frame_bind; [auto with appends|]. intros t.
  apply appends_frame_bind.
  { apply appends_frame_lift, appends_ssl_context; assumption. }
  intros _. apply appends_frame_bind.
  { apply appends_frame_lift, appends_emit, Hc. }
  intros _. apply appends_frame_bind.
  { apply appends_frame_lift, appends_call, Ho. }
  intros _. apply appends_frame_lift, appends_upload_loop; assumption.
Qed.

Lemma appends_upload_finally (params : Params) :
  (forall s, P (ESleep s) = true) -> P ETransferGet = true ->
  P EFinalize = true -> (forall i, P (EDiskStatus i) = true) ->
  appends_frame P (upload_finally fuel w params).
Proof.
  intros Hs Hg Hf Hd. unfold upload_finally.
  apply appends_frame_bind.
  { apply appends_frame_lift, appends_call, Hf. }
  intros _. apply appends_frame_bind.
  { rewrite finalize_wait_poll_while. apply appends_frame_poll_while; auto. }
  intros _. apply appends_frame_bind; [auto with appends|]. intros t.
  apply appends_frame_bind; [auto with appends|]. intros _.
  apply appends_frame_if; [|auto with appends].
  apply appends_frame_lift, appends_wait; [apply Hs|].
  apply appends_disk_is_OK, Hd.
Qed.

Lemma appends_action (params : Params) (name : string) (entity : Disk)
    (action_condition : Disk -> M History bool) (storage_domain : string)
    (post_action : M History unit) :
  (forall s, P (ESleep s) = true) -> (forall i, P (EDiskStatus i) = true) ->
  (forall a b c, P (EAction a b c) = true) ->
  (forall d, appends P (action_condition d)) -> appends P post_action ->
  appends P (action fuel w params name entity action_condition
               (disk_is_OK w (Some (disk_id entity))) storage_domain post_action).
Proof.
  intros Hs Hd Ha Hc Hp. unfold action.
  apply appends_bind; [apply Hc|]. intros go.
  apply appends_if; [|auto with appends].
  apply appends_bind; [apply appends_call, Ha|]. intros _.
  apply appends_bind; [exact Hp|]. intros _.
  apply appends_bind; [|auto with appends].
  apply appends_wait; [apply Hs | apply appends_disk_is_OK, Hd].
Qed.

Lemma appends_attr_id (o : option StorageDomain) : appends P (attr_id o).
Proof. destruct o; simpl; auto with appends. Qed.

Lemma appends_update_storage_domains (params : Params) (id : string) :
  (forall s, P (ESleep s) = true) -> (forall i, P (EDiskStatus i) = true) ->
  (forall a b c, P (EAction a b c) = true) ->
  (forall i, P (EDiskGet i) = true) ->
  (forall n, P (ESearchByName StorageDomains n) = true) ->
  appends P (update_storage_domains fuel w params id).
Proof.
  intros Hs Hd Ha Hg Hn. unfold update_storage_domains.
  apply appends_bind; [apply appends_call, Hg|]. intros disk.
  apply appends_if; [auto with appends|].
  apply appends_bind.
  - apply appends_if; [|auto with appends].
    apply appends_bind; [apply appends_call, Hn|]. intros o.
    apply appends_bind; [apply appends_attr_id|]. intros i.
    apply appends_action; auto.
    + intros d. unfold move_condition.
      destruct (disk_storage_domains d); auto with appends.
    + apply appends_emit, Hs.
  - intros c. apply appends_if; [|auto with appends].
    generalize c. clear c.
    induction (match p_storage_domains params with Some l => l | None => [] end)
      as [|sd rest IH]; intros c; simpl; [auto with appends|].
    apply appends_bind; [apply appends_call, Hn|]. intros o.
    apply appends_bind; [|intros c'; apply IH].
    apply appends_if; [auto with appends|].
    apply appends_bind; [apply appends_attr_id|]. intros i.
    apply appends_action; auto with appends.
Qed.

Lemma appends_upload_disk_image (params : Params) :
  (forall e, is_upload_event e = true -> P e = true) ->
  appends P (upload_disk_image fuel w params).
Proof.
  intros H. unfold upload_disk_image.
  apply appends_bind; [apply appends_call, H; reflexivity|]. intros size.
  apply appends_bind; [apply appends_call, H; reflexivity|]. intros t.
  apply appends_bind; [|auto with appends].
  apply appends_in_frame, appends_frame_try_finally.
  - apply appends_upload_try; intros; apply H; reflexivity.
  - apply appends_upload_finally; intros; apply H; reflexivity.
Qed.

Lemma appends_attach_branch (params : Params) (r : Result) :
  (forall e, is_attach_event e = true -> P e = true) ->
  appends P (attach_branch fuel w params r).
Proof.
  intros H. unfold attach_branch, create, remove, fail_json, search_by_name.
  apply appends_bind.
  { destruct (p_vm_id params); [auto with appends|].
    apply appends_bind; [apply appends_call, H; reflexivity | auto with appends]. }
  intros [v|]; [|auto with appends].
  apply appends_bind; [apply appends_emit, H; reflexivity|]. intros _.
  apply appends_if.
  - apply appends_bind.
    { apply appends_bind; [apply appends_call, H; reflexivity | auto with appends]. }
    intros r'. apply appends_bind; [|auto with appends].
    apply appends_if; [auto with appends|].
    apply appends_wait; [apply H; reflexivity|].
    apply appends_bind; [apply appends_call, H; reflexivity | auto with appends].
  - apply appends_if; [|auto with appends].
    apply appends_bind; [apply appends_call, H; reflexivity | auto with appends].
Qed.

End Footprints.

(** ** The driver as a whole *)

Lemma set_id_same (params : Params) : set_id params (p_id params) = params.
Proof. destruct params; reflexivity. Qed.

(** The disk phase changes nothing but the [id] of the parameters. *)
Lemma disk_phase_params (fuel : nat) (w : World) (params : Params) (h h' : History)
    (r : Result) (p' : Params) :
  disk_phase fuel w params h = (Ret (r, p'), h') -> p' = set_id params (p_id p').
Proof.
  rewrite disk_phase_start.
  destruct (w_create_connection w (p_auth params) h) as [[]|msg]; [|discriminate].
  unfold bind at 1.
  destruct (lun_phase w params h) as [[disk|e|] h1]; try discriminate.
  destruct (state_eqb (p_state params) present || state_eqb (p_state params) detached
            || state_eqb (p_state params) attached).
  - unfold reconcile_disk. unfold bind at 1.
    destruct (create _ _ false h1) as [[r0|e|] h2]; try discriminate.
    unfold bind at 1.
    match goal with |- context [let (_, _) := ?m h2 in _] =>
      destruct (m h2) as [[ch|e|] h3] end; try discriminate.
    unfold bind at 1.
    match goal with |- context [let (_, _) := ?m h3 in _] =>
      destruct (m h3) as [[ch'|e|] h4] end; try discriminate.
    unfold ret. intros H. injection H as _ <- _. reflexivity.
  - unfold bind at 1.
    destruct (remove ERemoveDisk (w_remove_disk w) false h1) as [[r0|e|] h2];
      try discriminate.
    unfold ret. intros H. injection H as _ <- _. symmetry. apply set_id_same.
Qed.

Section DriverFootprint.

Variable P : Event -> bool.
Variable fuel : nat.
Variable w : World.
Variable params : Params.

Lemma appends_main_body :
  appends P (disk_phase fuel w params) ->
  (forall i r, vm_reference_present params = true ->
               appends P (attach_branch fuel w (set_id params i) r)) ->
  appends P (main_body fuel w params).
Proof.
  intros Hd Ha. unfold main_body.
  apply (appends_bind_post P (fun rp => snd rp = set_id params (p_id (snd rp)))).
  - exact Hd.
  - intros h [r p'] h' H. simpl. exact (disk_phase_params _ _ _ _ _ _ _ H).
  - intros [r p'] Hp. simpl in Hp.
    apply appends_bind; [|intros r'; unfold exit_json; auto with appends].
    rewrite Hp.
    change (vm_reference_present (set_id params (p_id p')))
      with (vm_reference_present params).
    destruct (vm_reference_present params) eqn:G; [|auto with appends].
    apply Ha. reflexivity.
Qed.

Lemma appends_main :
  appends P (disk_phase fuel w params) ->
  (forall i r, vm_reference_present params = true ->
               appends P (attach_branch fuel w (set_id params i) r)) ->
  P EClose = true ->
  appends P (main fuel w params).
Proof.
  intros Hd Ha Hc. apply appends_main_of; [|exact Hc].
  apply appends_main_body; assumption.
Qed.

Lemma appends_reconcile_disk (disk : option Disk) :
  (forall e, is_disk_phase_event e = true -> P e = true) ->
  appends P (reconcile_disk fuel w params disk).
Proof.
  intros H. unfold reconcile_disk, create.
  apply appends_bind.
  { apply appends_bind; [apply appends_call, H; reflexivity | auto with appends]. }
  intros r. apply appends_bind.
  { apply appends_if; [auto with appends|].
    apply appends_update_storage_domains; intros; apply H; reflexivity. }
  intros ch. apply appends_bind; [|auto with appends].
  apply appends_if; [|auto with appends].
  apply appends_bind; [|auto with appends].
  apply appends_upload_disk_image. intros e He. apply H.
  unfold is_disk_phase_event. rewrite He, orb_true_r. destruct e; reflexivity.
Qed.

Lemma appends_disk_phase :
  (forall e, is_disk_phase_event e = true -> P e = true) ->
  appends P (disk_phase fuel w params).
Proof.
  intros H. unfold disk_phase.
  apply appends_bind; [apply appends_create_connection|]. intros _.
  apply appends_bind; [apply appends_lun_phase, H; reflexivity|]. intros disk.
  apply appends_if; [apply appends_reconcile_disk, H|].
  unfold remove.
  apply appends_bind; [|auto with appends].
  apply appends_bind; [apply appends_call, H; reflexivity | auto with appends].
Qed.

End DriverFootprint.


Lemma main_body_offline (fuel : nat) (w : World) (params : Params) (h : History)
    (msg : string) :
  w_create_connection w (p_auth params) h = Failed msg ->
  main_body fuel w params h = (Raise (RemoteError msg), h).
Proof.
  intros Hc. unfold main_body. unfold bind at 1.
  rewrite disk_phase_start, Hc. reflexivity.
Qed.



(** X4.  A run of [main] in which the connection is created and that ends
    closes the connection once, as its last call.  When [create_connection]
    fails, [main] makes no call at all: the connection is not closed. *)
Theorem main_closes_once (fuel : nat) (w : World) (params : Params) (h : History) :
  (forall c, w_create_connection w (p_auth params) h = Replied c ->
     fst (main fuel w params h) <> Diverge ->
     exists evs,
       snd (main fuel w params h) = h ++ evs ++ [EClose]
       /\ forallb (fun e => negb (is_close e)) evs = true)
  /\ (forall msg, w_create_connection w (p_auth params) h = Failed msg ->
        snd (main fuel w params h) = h).
Proof.
  split.
  - intros c Hc Hnd.
    assert (Hb : appends (fun e => negb (is_close e))
                   (try_except (main_body fuel w params)
                      (fun e => fail_json (str_exn e)))).
    { apply appends_try_except; [|intros e; unfold fail_json; auto with appends].
      apply appends_main_body.
      - apply appends_disk_phase. intros e He. destruct e; try reflexivity. discriminate.
      - intros i r _. apply appends_attach_branch.
        intros e He. destruct e; try reflexivity. discriminate. }
    unfold main, connection_of in *. rewrite Hc in *. unfold try_finally, close in *.
    destruct (Hb h) as (evs & E & F).
    destruct (try_except _ _ h) as [[[]|e|] hb]; simpl in E, Hnd |- *; subst hb.
    + exists evs. rewrite app_assoc. split; [reflexivity | exact F].
    + exists evs. rewrite app_assoc. split; [reflexivity | exact F].
    + congruence.
  - intros msg Hc. unfold main, connection_of. rewrite Hc.
    unfold try_finally, try_except.
    rewrite (main_body_offline fuel w params h msg Hc). reflexivity.
Qed.

Lemma main_closes_once_witness :
  (exists evs,
     snd (main 10 (smooth_world 20000000 image_disk) attach_params [])
     = [] ++ evs ++ [EClose]
     /\ forallb (fun e => negb (is_close e)) evs = true)
  /\ snd (main 10 offline_world attach_params []) = [].
Proof.
  assert (Hnd : fst (main 10 (smooth_world 20000000 image_disk) attach_params [])
                <> Diverge) by discriminate.
  split.
  - exact (proj1 (main_closes_once 10 (smooth_world 20000000 image_disk)
                    attach_params []) tt eq_refl Hnd).
  - exact (proj2 (main_closes_once 10 offline_world attach_params [])
             "Failed to connect to the engine" eq_refl).
Defined.

(** X5.  With the state [absent], [main] lists the LUN disks when a LUN
    is given, removes the disk, locates the attachments service when
    [vm_id] is given, and closes the connection; it makes no other call: no
    disk is created, no image uploaded, no disk moved or copied, nothing
    attached or detached. *)
Theorem absent_only_removes (fuel : nat) (w : World) (params : Params) :
  p_state params = absent -> appends is_absent_event (main fuel w params).
Proof.
  intros Hs. apply appends_main; [| |reflexivity].
  - unfold disk_phase. rewrite Hs. simpl.
    apply appends_bind; [apply appends_create_connection|]. intros _.
    apply appends_bind; [apply appends_lun_phase; reflexivity|]. intros disk.
    unfold remove. auto with appends.
  - intros i r G.
    unfold vm_reference_present in G. rewrite Hs in G. simpl in G.
    rewrite andb_false_r, orb_false_r in G.
    destruct (p_vm_id params) as [v|] eqn:Hv; [|discriminate].
    unfold attach_branch.
    change (p_vm_id (set_id params i)) with (p_vm_id params).
    change (p_state (set_id params i)) with (p_state params).
    rewrite Hs, Hv. simpl.
    intros h. unfold bind at 1. unfold ret at 1.
    apply (appends_bind is_absent_event (emit (EAttachmentsService v)) (fun _ => ret r));
      auto with appends.
Qed.

Lemma absent_only_removes_witness :
  p_state absent_vm_id_params = absent
  /\ exists evs,
       snd (main 10 (smooth_world 20000000 image_disk) absent_vm_id_params [])
       = [] ++ evs
       /\ forallb is_absent_event evs = true.
Proof.
  split; [reflexivity|].
  exact (absent_only_removes 10 (smooth_world 20000000 image_disk)
           absent_vm_id_params eq_refl []).
Defined.

(** X6.  Without an image path, and also when the upload is not forced
    and the creation of the disk never reports a change, [main] makes no
    call of the image transfer: the size of the image is not read, no
    transfer session is created, polled, extended or finalized, and nothing
    is sent to the proxy. *)
Theorem no_upload_without_image_or_force (fuel : nat) (w : World) (params : Params) :
  truthy_str (p_image_path params) = false
  \/ (p_force params = false
      /\ forall h c i, w_create_disk w h = Replied (c, i) -> c = false) ->
  appends (fun e => negb (is_transfer_call e)) (main fuel w params).
Proof.
  intros Hno. apply appends_main; [| |reflexivity].
  - unfold disk_phase.
    apply appends_bind; [apply appends_create_connection|]. intros _.
    apply appends_bind; [apply appends_lun_phase; reflexivity|]. intros disk.
    apply appends_if.
    + unfold reconcile_disk.
      apply (appends_bind_post _
               (fun r => truthy_str (p_image_path params)
                         && (changed r || p_force params) = false)).
      * unfold create.
        apply appends_bind; [apply appends_call; reflexivity | auto with appends].
      * intros h r h'. unfold create, bind, call, ret.
        destruct (w_create_disk w _) as [[c i]|msg] eqn:Hc; [|discriminate].
        intros H. injection H as <- _. simpl.
        destruct Hno as [Hi | [Hf Hw]]; [rewrite Hi; reflexivity|].
        rewrite (Hw _ _ _ Hc), Hf. apply andb_false_r.
      * intros r Hr.
        apply appends_bind.
        { apply appends_if; [auto with appends|].
          apply appends_update_storage_domains; reflexivity. }
        intros ch. apply appends_bind; [|auto with appends].
        change (p_image_path (set_id params ?x)) with (p_image_path params).
        change (p_force (set_id params ?x)) with (p_force params).
        rewrite Hr. auto with appends.
    + unfold remove.
      apply appends_bind; [|auto with appends].
      apply appends_bind; [apply appends_call; reflexivity | auto with appends].
  - intros i r _. apply appends_attach_branch.
    intros e He. destruct e; try reflexivity; discriminate.
Qed.

Lemma no_upload_without_image_or_force_witness :
  truthy_str (p_image_path attach_params) = false
  /\ exists evs,
       snd (main 10 (smooth_world 20000000 image_disk) attach_params []) = [] ++ evs
       /\ forallb (fun e => negb (is_transfer_call e)) evs = true.
Proof.
  split; [reflexivity|].
  exact (no_upload_without_image_or_force 10 (smooth_world 20000000 image_disk)
           attach_params (or_introl eq_refl) []).
Defined.

(** X7.  When the creation of the disk reports a change, [main] does not
    call [update_storage_domains]: the disk is not read back, no storage
    domain is looked up and no move or copy is issued, whatever
    [storage_domain] and [storage_domains] declare. *)
Theorem new_disk_skips_placement (fuel : nat) (w : World) (params : Params) :
  (forall h c i, w_create_disk w h = Replied (c, i) -> c = true) ->
  appends (fun e => negb (is_placement_call e)) (main fuel w params).
Proof.
  intros Hnew. apply appends_main; [| |reflexivity].
  - unfold disk_phase.
    apply appends_bind; [apply appends_create_connection|]. intros _.
    apply appends_bind; [apply appends_lun_phase; reflexivity|]. intros disk.
    apply appends_if.
    + unfold reconcile_disk.
      apply (appends_bind_post _ (fun r => changed r = true)).
      * unfold create.
        apply appends_bind; [apply appends_call; reflexivity | auto with appends].
      * intros h r h'. unfold create, bind, call, ret.
        destruct (w_create_disk w _) as [[c i]|msg] eqn:Hc; [|discriminate].
        intros H. injection H as <- _. simpl. exact (Hnew _ _ _ Hc).
      * intros r Hr. rewrite Hr.
        apply appends_bind; [auto with appends|].
        intros ch. apply appends_bind; [|auto with appends].
        apply appends_if; [|auto with appends].
        apply appends_bind; [|auto with appends].
        apply appends_upload_disk_image.
        intros e He. destruct e; try reflexivity; discriminate.
    + unfold remove.
      apply appends_bind; [|auto with appends].
      apply appends_bind; [apply appends_call; reflexivity | auto with appends].
  - intros i r _. apply appends_attach_branch.
    intros e He. destruct e as [| | | | | | | | | | | | |c n| | | | | | | | |];
      try reflexivity; try discriminate.
    destruct c; [discriminate | reflexivity].
Qed.

Lemma new_disk_skips_placement_witness :
  p_storage_domains copy_params = Some ["fast"; "slow"]
  /\ exists evs,
       snd (main 10 new_disk_world copy_params []) = [] ++ evs
       /\ forallb (fun e => negb (is_placement_call e)) evs = true.
Proof.
  split; [reflexivity|].
  apply (new_disk_skips_placement 10 new_disk_world copy_params).
  intros h c i H. injection H as <- _. reflexivity.
Defined.

Lemma appends_attach_branch_state (P : Event -> bool) (fuel : nat) (w : World)
    (params : Params) (r : Result) :
  (forall e, is_attach_event e = true -> is_create_attachment e = false ->
             is_remove_attachment e = false -> P e = true) ->
  (p_state params = present \/ p_state params = attached ->
   forall v, P (ECreateAttachment v) = true) ->
  (p_state params = detached -> forall v, P (ERemoveAttachment v) = true) ->
  appends P (attach_branch fuel w params r).
Proof.
  intros H Hc Hr. unfold attach_branch, create, remove, fail_json, search_by_name.
  apply appends_bind.
  { destruct (p_vm_id params); [auto with appends|].
    apply appends_bind; [apply appends_call, H; reflexivity | auto with appends]. }
  intros [v|]; [|auto with appends].
  apply appends_bind; [apply appends_emit, H; reflexivity|]. intros _.
  destruct (p_state params) eqn:Hs; simpl.
  - apply appends_bind.
    { apply appends_bind; [apply appends_call, Hc; auto | auto with appends]. }
    intros r'. apply appends_bind; [|auto with appends].
    apply appends_if; [auto with appends|].
    apply appends_wait; [apply H; reflexivity|].
    apply appends_bind; [apply appends_call, H; reflexivity | auto with appends].
  - auto with appends.
  - apply appends_bind.
    { apply appends_bind; [apply appends_call, Hc; auto | auto with appends]. }
    intros r'. apply appends_bind; [|auto with appends].
    apply appends_if; [auto with appends|].
    apply appends_wait; [apply H; reflexivity|].
    apply appends_bind; [apply appends_call, H; reflexivity | auto with appends].
  - apply appends_bind; [apply appends_call, Hr; auto | auto with appends].
Qed.

(** X8.  The state decides the direction of the attachment branch: with
    [detached], [main] never creates an attachment; with [present] or
    [attached] it never removes one. *)
Theorem attachment_direction (fuel : nat) (w : World) (params : Params) :
  (p_state params = detached ->
   appends (fun e => negb (is_create_attachment e)) (main fuel w params))
  /\ (p_state params = present \/ p_state params = attached ->
      appends (fun e => negb (is_remove_attachment e)) (main fuel w params)).
Proof.
  split; intros Hs; (apply appends_main; [| |reflexivity]).
  - apply appends_disk_phase. intros e He. destruct e; try reflexivity; discriminate.
  - intros i r _. apply appends_attach_branch_state.
    + intros e _ He _. rewrite He. reflexivity.
    + change (p_state (set_id params i)) with (p_state params).
      rewrite Hs. intros [H|H]; discriminate.
    + reflexivity.
  - apply appends_disk_phase. intros e He. destruct e; try reflexivity; discriminate.
  - intros i r _. apply appends_attach_branch_state.
    + intros e _ _ He. rewrite He. reflexivity.
    + reflexivity.
    + change (p_state (set_id params i)) with (p_state params).
      destruct Hs as [Hs|Hs]; rewrite Hs; discriminate.
Qed.

Lemma attachment_direction_witness :
  p_state detach_params = detached
  /\ exists evs,
       snd (main 10 (smooth_world 20000000 image_disk) detach_params []) = [] ++ evs
       /\ forallb (fun e => negb (is_create_attachment e)) evs = true.
Proof.
  split; [reflexivity|].
  exact (proj1 (attachment_direction 10 (smooth_world 20000000 image_disk)
                  detach_params) eq_refl []).
Defined.

(** ** The upload loop, whatever the proxy answers *)

Lemma ceil_div_step (a b : Z) : 0 < b -> ceil_div (a - b) b = ceil_div a b - 1.
Proof.
  intros Hb. unfold ceil_div.
  replace (a - b + b - 1) with (a + b - 1 + (-1) * b) by lia.
  rewrite Z.div_add by lia. lia.
Qed.

Lemma rounds_left_step (size pos : Z) :
  pos < size ->
  rounds_left size pos = S (rounds_left size (pos + chunk_size)).
Proof.
  intros Hlt. unfold rounds_left.
  assert (HC : 0 < chunk_size) by reflexivity.
  replace (size - (pos + chunk_size)) with (size - pos - chunk_size) by lia.
  rewrite (ceil_div_step _ _ HC).
  destruct (ceil_div_bounds (size - pos) chunk_size ltac:(lia) HC) as [Hpos _].
  lia.
Qed.

(** X9.  The upload loop ends: with fuel for one round more than the
    rounds left at [pos] it returns or raises, whatever the service and the
    proxy answer. *)
Theorem upload_loop_terminates (w : World) (size : Z) (url : ParseResult)
    (fuel : nat) : forall (hdrs : dict) (pos : Z) (h : History),
  (rounds_left size pos < fuel)%nat ->
  fst (upload_loop fuel w size url hdrs pos h) <> Diverge.
Proof.
  induction fuel as [|fuel IH]; intros hdrs pos h Hf; [lia|].
  simpl upload_loop. destruct (pos <? size) eqn:Hlt; [|discriminate].
  apply Z.ltb_lt in Hlt. rewrite (rounds_left_step _ _ Hlt) in Hf.
  unfold bind at 1, call at 1.
  destruct (w_extend w (h ++ [EExtend])) as [[]|msg]; [|discriminate].
  unfold bind at 1, call at 1.
  match goal with |- context [w_put w ?hh] => destruct (w_put w hh) as [s|msg] end;
    [|discriminate].
  destruct (s >=? 400); [discriminate|].
  apply IH. lia.
Qed.

Lemma upload_loop_terminates_witness :
  (rounds_left 20000000 0 < 4)%nat
  /\ fst (upload_loop 4 unavailable_world 20000000 sample_url
            [("Authorization", "ticket")] 0 [])
     <> Diverge.
Proof.
  assert (Hf : (rounds_left 20000000 0 < 4)%nat) by (vm_compute; lia).
  split; [exact Hf|].
  exact (upload_loop_terminates unavailable_world 20000000 sample_url 4
           [("Authorization", "ticket")] 0 [] Hf).
Defined.

(** X10.  In every run of the upload loop, complete or not, the calls are
    [extend] and [PUT] in turn, an [extend] before each [PUT], and there are
    no more rounds than are left at [pos]: no chunk is sent twice. *)
Theorem upload_loop_rounds_bounded (w : World) (size : Z) (url : ParseResult)
    (fuel : nat) : forall (hdrs : dict) (pos : Z) (h : History),
  exists evs,
    snd (upload_loop fuel w size url hdrs pos h) = h ++ evs
    /\ alternates evs = true
    /\ (count is_put evs <= count is_extend evs <= rounds_left size pos)%nat.
Proof.
  induction fuel as [|fuel IH]; intros hdrs pos h.
  - exists []. simpl. rewrite app_nil_r. repeat split; unfold count; simpl; lia.
  - simpl upload_loop. destruct (pos <? size) eqn:Hlt.
    + apply Z.ltb_lt in Hlt. rewrite (rounds_left_step _ _ Hlt).
      unfold bind at 1, call at 1.
      destruct (w_extend w (h ++ [EExtend])) as [[]|msg].
      * unfold bind at 1, call at 1.
        set (hd := dict_set "Content-Range" _ hdrs).
        destruct (w_put w ((h ++ [EExtend]) ++ [EPut (path url) hd])) as [s|msg].
        -- destruct (s >=? 400).
           ++ exists [EExtend; EPut (path url) hd]. simpl.
              rewrite <- app_assoc. repeat split; unfold count; simpl; lia.
           ++ destruct (IH hd (pos + chunk_size)
                          ((h ++ [EExtend]) ++ [EPut (path url) hd]))
                as (evs & E & A & C1 & C2).
              exists (EExtend :: EPut (path url) hd :: evs).
              rewrite E, <- !app_assoc. simpl.
              repeat split; [exact A | |]; unfold count in *; simpl; lia.
        -- exists [EExtend; EPut (path url) hd]. simpl.
           rewrite <- app_assoc. repeat split; unfold count; simpl; lia.
      * exists [EExtend]. simpl. repeat split; unfold count; simpl; lia.
    + exists []. simpl. rewrite app_nil_r. repeat split; unfold count; simpl; lia.
Qed.

Lemma upload_loop_rounds_bounded_witness :
  exists evs,
    snd (upload_loop 10 unavailable_world 20000000 sample_url
           [("Authorization", "ticket")] 0 []) = [] ++ evs
    /\ alternates evs = true
    /\ (count is_put evs <= count is_extend evs <= rounds_left 20000000 0)%nat.
Proof.
  exact (upload_loop_rounds_bounded unavailable_world 20000000 sample_url 10
           [("Authorization", "ticket")] 0 []).
Defined.

(** ** The ticket and the path of the chunks *)

Lemma dict_get_set_other (k k' v : string) (d : dict) :
  k <> k' -> dict_get k (dict_set k' v d) = dict_get k d.
Proof.
  intros Hk. induction d as [|[k0 v0] d IH]; simpl.
  - destruct (String.eqb_spec k' k); [congruence | reflexivity].
  - destruct (String.eqb_spec k0 k').
    + subst k0. simpl.
      destruct (String.eqb_spec k' k); [congruence | reflexivity].
    + simpl. destruct (String.eqb k0 k); [reflexivity | exact IH].
Qed.

(** Every [PUT] of the loop goes to the path of the URL and carries the
    ticket the headers hold. *)
Lemma upload_loop_puts (w : World) (size : Z) (url : ParseResult) (ticket : string)
    (fuel : nat) :
  forall (hdrs : dict) (pos : Z) (h : History) (r : outcome unit) (h' : History)
         (i : nat) (url_path : string) (hd : dict),
    dict_get "Authorization" hdrs = Some ticket ->
    upload_loop fuel w size url hdrs pos h = (r, h') ->
    (List.length h <= i)%nat ->
    nth_error h' i = Some (EPut url_path hd) ->
    url_path = path url /\ dict_get "Authorization" hd = Some ticket.
Proof.
  induction fuel as [|fuel IH]; intros hdrs pos h r h' i p hd Ht Hrun Hi Hn.
  - simpl in Hrun. injection Hrun as <- <-.
    apply nth_error_None in Hi. congruence.
  - simpl upload_loop in Hrun.
    destruct (pos <? size);
      [|injection Hrun as <- <-; apply nth_error_None in Hi; congruence].
    unfold bind at 1, call at 1 in Hrun.
    replace i with (List.length h + (i - List.length h))%nat in Hn by lia.
    set (d := (i - List.length h)%nat) in *. clearbody d. clear Hi.
    destruct (w_extend w (h ++ [EExtend])) as [[]|msg].
    + unfold bind at 1, call at 1 in Hrun.
      set (hd0 := dict_set "Content-Range" _ hdrs) in *.
      assert (Ht0 : dict_get "Authorization" hd0 = Some ticket).
      { unfold hd0. rewrite dict_get_set_other by discriminate. exact Ht. }
      rewrite <- app_assoc in Hrun. simpl app in Hrun.
      assert (Hstop : h' = h ++ [EExtend; EPut (path url) hd0] ->
                      p = path url /\ dict_get "Authorization" hd = Some ticket).
      { intros ->. rewrite nth_error_past in Hn.
        destruct d as [|[|d]]; simpl in Hn; try discriminate.
        - injection Hn as <- <-. auto.
        - destruct d; discriminate. }
      destruct (w_put w (h ++ [EExtend; EPut (path url) hd0])) as [s|msg].
      * destruct (s >=? 400).
        -- injection Hrun as <- <-. apply Hstop. reflexivity.
        -- destruct (upload_loop_extends fuel w size url hd0 (pos + chunk_size)
                       (h ++ [EExtend; EPut (path url) hd0])) as (evs & E & _).
           rewrite Hrun in E. simpl in E.
           destruct d as [|[|d]].
           ++ rewrite E, <- app_assoc, nth_error_past in Hn. discriminate.
           ++ rewrite E, <- app_assoc, nth_error_past in Hn. simpl in Hn.
              injection Hn as <- <-. auto.
           ++ apply (IH _ _ _ _ _ (List.length h + S (S d))%nat p hd Ht0 Hrun).
              ** rewrite length_app. simpl. lia.
              ** exact Hn.
      * injection Hrun as <- <-. apply Hstop. reflexivity.
    + injection Hrun as <- <-. rewrite nth_error_past in Hn.
      destruct d as [|[|d]]; simpl in Hn; discriminate.
Qed.

Lemma lift_keeps_transfer {A : Type} (m : M History A) (st st' : Frame)
    (r : outcome A) :
  lift m st = (r, st') -> f_transfer st' = f_transfer st.
Proof.
  unfold lift. destruct (m (f_hist st)) as [r0 h0].
  intros H. injection H as _ <-. reflexivity.
Qed.

Lemma puts_of_transfer_bind {A B : Type} (Q Q' : Frame -> Prop) (m : M Frame A)
    (k : A -> M Frame B) :
  appends_frame not_put m ->
  (forall st a st1, Q st -> m st = (Ret a, st1) -> Q' st1) ->
  (forall a, appends_frame (fun _ => true) (k a)) ->
  (forall a, puts_of_transfer Q' (k a)) ->
  puts_of_transfer Q (bind m k).
Proof.
  intros Hm HQ Hke Hk st r st' i p hd HQst Hrun Hi Hn.
  unfold bind in Hrun. destruct (Hm st) as (evs & E & F).
  assert (Hstop : forall st1, f_hist st1 = f_hist st ++ evs ->
                    nth_error (f_hist st1) i = Some (EPut p hd) -> False).
  { intros st1 E1 Hn1. rewrite E1 in Hn1.
    replace i with (List.length (f_hist st) + (i - List.length (f_hist st)))%nat
      in Hn1 by lia.
    rewrite nth_error_past in Hn1. exact (no_put_among _ _ _ _ F Hn1). }
  destruct (m st) as [[a|e|] st1] eqn:Hmst; simpl in E.
  - destruct (Hke a st1) as (evs' & E' & _). rewrite Hrun in E'. simpl in E'.
    destruct (Nat.lt_ge_cases i (List.length (f_hist st1))) as [Hlt|Hge].
    + exfalso. rewrite E', nth_error_app1 in Hn by exact Hlt.
      exact (Hstop st1 E Hn).
    + exact (Hk a st1 r st' i p hd (HQ _ _ _ HQst Hmst) Hrun Hge Hn).
  - injection Hrun as <- <-. exfalso. exact (Hstop st1 E Hn).
  - injection Hrun as <- <-. exfalso. exact (Hstop st1 E Hn).
Qed.

(** X11.  Every chunk the [try] block of [upload_disk_image] sends goes
    to the path of the proxy URL and carries the signed ticket of the
    transfer as the last poll of the init wait returned it, not as [add]
    returned it; and none is sent while that transfer is INITIALIZING. *)
Theorem chunks_use_polled_transfer (fuel : nat) (w : World) (params : Params)
    (size : Z) :
  puts_of_transfer (fun _ => True) (upload_try fuel w params size).
Proof.
  unfold upload_try.
  apply (puts_of_transfer_bind _ (fun st => phase (f_transfer st) <> INITIALIZING)).
  { rewrite init_wait_poll_while. apply appends_frame_poll_while; reflexivity. }
  { intros st [] st1 _ H. rewrite init_wait_poll_while in H.
    apply poll_while_returns in H. unfold initializing in H.
    intros Hp. apply phase_eqb_eq in Hp. congruence. }
  { intros _. apply appends_frame_bind; [auto with appends|]. intros t.
    repeat (apply appends_frame_bind; [|intro]); auto with appends.
    - apply appends_frame_lift, appends_ssl_context; reflexivity.
    - apply appends_frame_lift, upload_loop_extends. }
  intros _ st r st' i p hd HQ Hrun Hi Hn.
  unfold bind at 1, get_transfer at 1 in Hrun.
  set (t := f_transfer st) in *.
  assert (Hkeep : forall (B : Type) (m : M History B) s r0 s',
            f_transfer s = t -> lift m s = (r0, s') -> f_transfer s' = t).
  { intros B m s r0 s' Hs H. rewrite (lift_keeps_transfer _ _ _ _ H). exact Hs. }
  assert (Hnoput : forall s, (List.length (f_hist st) <= i)%nat ->
            forall evs, f_hist s = f_hist st ++ evs -> forallb not_put evs = true ->
            nth_error (f_hist s) i = Some (EPut p hd) -> False).
  { intros s Hi' evs E F Hn'. rewrite E in Hn'.
    replace i with (List.length (f_hist st) + (i - List.length (f_hist st)))%nat
      in Hn' by lia.
    rewrite nth_error_past in Hn'. exact (no_put_among _ _ _ _ F Hn'). }
  assert (Hpre : appends_frame not_put
                   (lift (ssl_context w (p_auth params)) ;;
                    lift (emit (EHttpsConnection (hostname (proxy_url t))
                                  (port (proxy_url t)))) ;;
                    lift (call (EOpenImage (p_image_path params)) (w_open w)))).
  { repeat (apply appends_frame_bind; [|intro]); auto with appends.
    apply appends_frame_lift, appends_ssl_context; reflexivity. }
  unfold bind at 1 in Hrun.
  destruct (lift (ssl_context w (p_auth params)) st) as [[[]|e|] s1] eqn:H1.
  2,3: injection Hrun as <- <-; exfalso;
       destruct (appends_frame_lift not_put (ssl_context w (p_auth params))
                   (appends_ssl_context not_put w _ eq_refl eq_refl) st)
         as (evs & E & F);
       rewrite H1 in E; exact (Hnoput _ Hi evs E F Hn).
  assert (T1 : f_transfer s1 = t) by exact (Hkeep _ _ _ _ _ eq_refl H1).
  destruct (appends_frame_lift not_put (ssl_context w (p_auth params))
              (appends_ssl_context not_put w _ eq_refl eq_refl) st)
    as (evs1 & E1 & F1).
  rewrite H1 in E1. simpl in E1.
  unfold bind at 1 in Hrun. unfold lift at 1, emit at 1 in Hrun.
  unfold bind at 1 in Hrun. unfold lift at 1, call at 1 in Hrun.
  simpl f_hist in Hrun. simpl f_transfer in Hrun. rewrite T1 in Hrun.
  set (h3 := (f_hist s1 ++ [EHttpsConnection (hostname (proxy_url t))
                              (port (proxy_url t))])
             ++ [EOpenImage (p_image_path params)]) in *.
  assert (E3 : h3 = f_hist st
                    ++ (evs1 ++ [EHttpsConnection (hostname (proxy_url t))
                                   (port (proxy_url t));
                                 EOpenImage (p_image_path params)])).
  { unfold h3. rewrite E1, <- !app_assoc. reflexivity. }
  assert (F3 : forallb not_put
                 (evs1 ++ [EHttpsConnection (hostname (proxy_url t))
                             (port (proxy_url t));
                           EOpenImage (p_image_path params)]) = true).
  { rewrite forallb_app, F1. reflexivity. }
  destruct (w_open w h3) as [[]|msg].
  - unfold lift in Hrun. simpl f_hist in Hrun. simpl f_transfer in Hrun.
    destruct (upload_loop fuel w size (proxy_url t)
                [("Authorization", signed_ticket t)] 0 h3) as [r0 h4] eqn:Hloop.
    injection Hrun as <- <-. simpl f_transfer. simpl f_hist in Hn.
    destruct (Nat.lt_ge_cases i (List.length h3)) as [Hlt|Hge].
    + exfalso.
      destruct (upload_loop_extends fuel w size (proxy_url t)
                  [("Authorization", signed_ticket t)] 0 h3) as (evs & E & _).
      rewrite Hloop in E. simpl in E. rewrite E, nth_error_app1 in Hn by exact Hlt.
      rewrite E3 in Hn.
      replace i with (List.length (f_hist st) + (i - List.length (f_hist st)))%nat
        in Hn by lia.
      rewrite nth_error_past in Hn. exact (no_put_among _ _ _ _ F3 Hn).
    + destruct (upload_loop_puts w size (proxy_url t) (signed_ticket t) fuel
                  [("Authorization", signed_ticket t)] _ _ _ _ i p hd
                  eq_refl Hloop Hge Hn) as [Hp Ha].
      repeat split; [exact Hp | exact Ha | exact HQ].
  - injection Hrun as <- <-. exfalso. simpl f_hist in Hn. rewrite E3 in Hn.
    replace i with (List.length (f_hist st) + (i - List.length (f_hist st)))%nat
      in Hn by lia.
    rewrite nth_error_past in Hn. exact (no_put_among _ _ _ _ F3 Hn).
Qed.

Lemma chunks_use_polled_transfer_witness :
  "/images/t1"
  = path (proxy_url (f_transfer (snd (upload_try 10 fresh_ticket_world sample_params
                                        10000000
                                        (mkFrame (try_start sample_params [])
                                           (mkTransfer "t1" INITIALIZING "stale"
                                              (mkUrl "proxy" 54323 "/stale")))))))
  /\ dict_get "Authorization"
       [("Authorization", "fresh"); ("Content-Range", "bytes 0-8388607/10000000")]
     = Some (signed_ticket
               (f_transfer (snd (upload_try 10 fresh_ticket_world sample_params
                                   10000000
                                   (mkFrame (try_start sample_params [])
                                      (mkTransfer "t1" INITIALIZING "stale"
                                         (mkUrl "proxy" 54323 "/stale")))))))
  /\ phase (f_transfer (snd (upload_try 10 fresh_ticket_world sample_params
                               10000000
                               (mkFrame (try_start sample_params [])
                                  (mkTransfer "t1" INITIALIZING "stale"
                                     (mkUrl "proxy" 54323 "/stale"))))))
     <> INITIALIZING.
Proof.
  assert (Hi : (List.length (try_start sample_params []) <= 7)%nat)
    by (vm_compute; lia).
  exact (chunks_use_polled_transfer 10 fresh_ticket_world sample_params 10000000
           (mkFrame (try_start sample_params [])
              (mkTransfer "t1" INITIALIZING "stale" (mkUrl "proxy" 54323 "/stale")))
           (fst (upload_try 10 fresh_ticket_world sample_params 10000000
                   (mkFrame (try_start sample_params [])
                      (mkTransfer "t1" INITIALIZING "stale"
                         (mkUrl "proxy" 54323 "/stale")))))
           (snd (upload_try 10 fresh_ticket_world sample_params 10000000
                   (mkFrame (try_start sample_params [])
                      (mkTransfer "t1" INITIALIZING "stale"
                         (mkUrl "proxy" 54323 "/stale")))))
           7%nat "/images/t1"
           [("Authorization", "fresh"); ("Content-Range", "bytes 0-8388607/10000000")]
           I eq_refl Hi eq_refl).
Defined.

(** ** The image transfer as a whole *)

Lemma appends_upload_parts (P : Event -> bool) (fuel : nat) (w : World)
    (params : Params) :
  (forall e, is_upload_event e = true -> is_put e = false -> is_extend e = false ->
             is_load_verify e = false -> is_ssl_insecure e = false -> P e = true) ->
  appends P (ssl_context w (p_auth params)) ->
  (forall size, (exists h, w_getsize w h = Replied size) ->
     forall url hdrs, appends P (upload_loop fuel w size url hdrs 0)) ->
  appends P (upload_disk_image fuel w params).
Proof.
  intros H Hssl Hloop. unfold upload_disk_image.
  apply (appends_bind_post P (fun size => exists h, w_getsize w h = Replied size)).
  { apply appends_call, H; reflexivity. }
  { intros h size h'. unfold call.
    destruct (w_getsize w (h ++ [EGetSize (p_image_path params)])) eqn:E;
      [|discriminate].
    intros H0. injection H0 as <- _. eauto. }
  intros size Hsize.
  apply appends_bind; [apply appends_call, H; reflexivity|]. intros t.
  apply appends_bind; [|auto with appends].
  apply appends_in_frame, appends_frame_try_finally.
  - unfold upload_try.
    apply appends_frame_bind.
    { rewrite init_wait_poll_while.
      apply appends_frame_poll_while; apply H; reflexivity. }
    intros _. apply appends_frame_bind; [auto with appends|]. intros tr.
    apply appends_frame_bind; [apply appends_frame_lift, Hssl|].
    intros _. apply appends_frame_bind.
    { apply appends_frame_lift, appends_emit, H; reflexivity. }
    intros _. apply appends_frame_bind.
    { apply appends_frame_lift, appends_call, H; reflexivity. }
    intros _. apply appends_frame_lift, Hloop, Hsize.
  - apply appends_upload_finally; intros; apply H; reflexivity.
Qed.

(** X12.  An empty image is not sent: when the size read is 0 (or less),
    [upload_disk_image] calls neither [extend] nor [PUT]. *)
Theorem empty_image_sends_no_chunk (fuel : nat) (w : World) (params : Params) :
  (forall h size, w_getsize w h = Replied size -> size <= 0) ->
  appends not_chunk (upload_disk_image fuel w params).
Proof.
  intros Hsize. apply appends_upload_parts.
  - intros e _ Hp He _ _. unfold not_chunk. rewrite Hp, He. reflexivity.
  - apply appends_ssl_context; reflexivity.
  - intros size [h Hs] url hdrs. specialize (Hsize h size Hs).
    destruct fuel as [|f]; simpl; [auto with appends|].
    replace (0 <? size) with false by (symmetry; apply Z.ltb_ge; exact Hsize).
    auto with appends.
Qed.

Lemma empty_image_sends_no_chunk_witness :
  exists evs,
    snd (upload_disk_image 10 (smooth_world 0 image_disk) sample_params []) = [] ++ evs
    /\ forallb not_chunk evs = true.
Proof.
  apply (empty_image_sends_no_chunk 10 (smooth_world 0 image_disk) sample_params).
  intros h size H. injection H as <-. lia.
Defined.

(** X13.  The TLS context follows [auth]: when [insecure] is set the
    trust store is not loaded, whatever [ca_file]; when it is not set the
    verification of the certificate is never switched off. *)
Theorem tls_follows_insecure (fuel : nat) (w : World) (params : Params) :
  (truthy_bool (insecure (p_auth params)) = true ->
   appends (fun e => negb (is_load_verify e)) (upload_disk_image fuel w params))
  /\ (truthy_bool (insecure (p_auth params)) = false ->
      appends (fun e => negb (is_ssl_insecure e)) (upload_disk_image fuel w params)).
Proof.
  split; intros Hi; apply appends_upload_parts.
  - intros e _ _ _ Hl _. rewrite Hl. reflexivity.
  - unfold ssl_context. rewrite Hi. apply appends_emit. reflexivity.
  - intros size _ url hdrs. apply appends_upload_loop; reflexivity.
  - intros e _ _ _ _ Hs. rewrite Hs. reflexivity.
  - unfold ssl_context. rewrite Hi.
    apply appends_if; [apply appends_call; reflexivity | auto with appends].
  - intros size _ url hdrs. apply appends_upload_loop; reflexivity.
Qed.

Lemma tls_follows_insecure_witness :
  truthy_bool (insecure (p_auth insecure_params)) = true
  /\ exists evs,
       snd (upload_disk_image 10 (smooth_world 20000000 image_disk) insecure_params [])
       = [] ++ evs
       /\ forallb (fun e => negb (is_load_verify e)) evs = true.
Proof.
  split; [reflexivity|].
  exact (proj1 (tls_follows_insecure 10 (smooth_world 20000000 image_disk)
                  insecure_params) eq_refl []).
Defined.

Lemma upload_finally_shape (P : Event -> bool) (fuel : nat) (w : World)
    (params : Params) (st : Frame) :
  (forall s, P (ESleep s) = true) -> P ETransferGet = true ->
  (forall i, P (EDiskStatus i) = true) ->
  exists rest,
    f_hist (snd (upload_finally fuel w params st)) = f_hist st ++ EFinalize :: rest
    /\ forallb P rest = true.
Proof.
  intros Hs Hg Hd.
  unfold upload_finally. unfold bind at 1. unfold lift at 1. unfold call at 1.
  destruct (w_finalize w (f_hist st ++ [EFinalize])) as [[]|msg].
  - match goal with |- context [snd (?m ?s)] =>
      assert (H : appends_frame P m) end.
    { apply appends_frame_bind.
      { rewrite finalize_wait_poll_while. apply appends_frame_poll_while; auto. }
      intros _. apply appends_frame_bind; [auto with appends|]. intros t.
      apply appends_frame_bind; [auto with appends|]. intros _.
      apply appends_frame_if; [|auto with appends].
      apply appends_frame_lift, appends_wait; [apply Hs|].
      apply appends_disk_is_OK, Hd. }
    match goal with |- context [snd (?m ?s)] =>
      destruct (H s) as (evs & E & F) end.
    exists evs. rewrite E. simpl. rewrite <- app_assoc. split; [reflexivity | exact F].
  - exists []. simpl. split; reflexivity.
Qed.

Lemma count_app (f : Event -> bool) (a b : History) :
  count f (a ++ b) = (count f a + count f b)%nat.
Proof. unfold count. rewrite filter_app, length_app. reflexivity. Qed.

Lemma count_none (f : Event -> bool) (l : History) :
  forallb (fun e => negb (f e)) l = true -> count f l = 0%nat.
Proof.
  unfold count. induction l as [|e l IH]; simpl; [reflexivity|]. intros F.
  apply andb_prop in F. destruct F as [Fe F].
  destruct (f e); [discriminate | exact (IH F)].
Qed.

(** X14.  A run of [upload_disk_image] calls [finalize] at most once;
    it has called it once when it returns; and it does not call it when no
    transfer session was created, the size of the image or the creation of
    the session having failed. *)
Theorem finalize_at_most_once (fuel : nat) (w : World) (params : Params)
    (h : History) :
  exists evs,
    snd (upload_disk_image fuel w params h) = h ++ evs
    /\ (count is_finalize evs <= 1)%nat
    /\ (forall b, fst (upload_disk_image fuel w params h) = Ret b ->
          count is_finalize evs = 1%nat)
    /\ ((forall size, w_getsize w (h ++ [EGetSize (p_image_path params)])
                       <> Replied size)
        \/ (forall t, w_transfer_add w (try_start params h) <> Replied t) ->
        count is_finalize evs = 0%nat).
Proof.
  destruct (w_getsize w (h ++ [EGetSize (p_image_path params)])) as [size|msg] eqn:Hs.
  - destruct (w_transfer_add w (try_start params h)) as [t|msg] eqn:Ht.
    + rewrite (upload_disk_image_eq fuel w params h size t Hs Ht). simpl fst. simpl snd.
      unfold try_finally.
      destruct (appends_upload_try (fun e => negb (is_finalize e)) fuel w params size
                  (fun _ => eq_refl) eq_refl eq_refl eq_refl (fun _ _ => eq_refl)
                  (fun _ => eq_refl) eq_refl (fun _ _ => eq_refl)
                  (mkFrame (try_start params h) t)) as (evs1 & E1 & F1).
      destruct (upload_try fuel w params size (mkFrame (try_start params h) t))
        as [r1 st1]. simpl in E1.
      destruct (upload_finally_shape (fun e => negb (is_finalize e)) fuel w params st1
                  (fun _ => eq_refl) eq_refl (fun _ => eq_refl)) as (rest & E2 & F2).
      assert (C1 : count is_finalize evs1 = 0%nat) by exact (count_none _ _ F1).
      assert (C2 : count is_finalize rest = 0%nat) by exact (count_none _ _ F2).
      assert (Hfin : exists evs,
                f_hist (snd (upload_finally fuel w params st1)) = h ++ evs
                /\ count is_finalize evs = 1%nat).
      { exists ([EGetSize (p_image_path params); ETransferAdd (p_id params)]
                ++ evs1 ++ EFinalize :: rest).
        rewrite E2, E1. unfold try_start. rewrite <- !app_assoc. split; [reflexivity|].
        rewrite !count_app, C1.
        change (EFinalize :: rest) with ([EFinalize] ++ rest).
        rewrite count_app, C2. reflexivity. }
      destruct Hfin as (evs & E & C).
      destruct r1 as [[]|e|].
      * destruct (upload_finally fuel w params st1) as [[[]|e'|] st2]; simpl in E |- *;
          exists evs; rewrite E, C;
          (split; [reflexivity|]; split; [lia|]; split;
           [intros; reflexivity
           | intros [H|H]; exfalso; [exact (H size eq_refl) | exact (H t eq_refl)]]).
      * destruct (upload_finally fuel w params st1) as [[[]|e'|] st2]; simpl in E |- *;
          exists evs; rewrite E, C;
          (split; [reflexivity|]; split; [lia|]; split;
           [intros; reflexivity
           | intros [H|H]; exfalso; [exact (H size eq_refl) | exact (H t eq_refl)]]).
      * exists ([EGetSize (p_image_path params); ETransferAdd (p_id params)] ++ evs1).
        simpl f_hist. rewrite E1. unfold try_start. rewrite <- !app_assoc.
        split; [reflexivity|]. rewrite count_app, C1. simpl.
        split; [unfold count; simpl; lia|]. split; [intros b Hb; discriminate Hb|].
        intros [H|H]; exfalso; [exact (H size eq_refl) | exact (H t eq_refl)].
    + assert (Hrun : upload_disk_image fuel w params h
                     = (Raise (RemoteError msg), try_start params h)).
      { unfold upload_disk_image. unfold bind at 1, call at 1. rewrite Hs.
        unfold bind at 1, call at 1. unfold try_start in Ht |- *. rewrite Ht.
        reflexivity. }
      exists [EGetSize (p_image_path params); ETransferAdd (p_id params)].
      rewrite Hrun. unfold try_start. simpl. rewrite <- app_assoc.
      split; [reflexivity|]. split; [unfold count; simpl; lia|].
      split; [intros b Hb; discriminate Hb | intros _; reflexivity].
  - assert (Hrun : upload_disk_image fuel w params h
                   = (Raise (RemoteError msg), h ++ [EGetSize (p_image_path params)])).
    { unfold upload_disk_image. unfold bind at 1, call at 1. rewrite Hs. reflexivity. }
    exists [EGetSize (p_image_path params)].
    rewrite Hrun. simpl.
    split; [reflexivity|]. split; [unfold count; simpl; lia|].
    split; [intros b Hb; discriminate Hb | intros _; reflexivity].
Qed.

Lemma finalize_at_most_once_witness :
  (exists evs,
     snd (upload_disk_image 10 (smooth_world 20000000 image_disk) sample_params [])
     = [] ++ evs
     /\ count is_finalize evs = 1%nat)
  /\ (exists evs,
        snd (upload_disk_image 10 unreadable_world sample_params []) = [] ++ evs
        /\ count is_finalize evs = 0%nat).
Proof.
  split.
  - destruct (finalize_at_most_once 10 (smooth_world 20000000 image_disk)
                sample_params []) as (evs & E & _ & H & _).
    exists evs. split; [exact E | exact (H true eq_refl)].
  - destruct (finalize_at_most_once 10 unreadable_world sample_params [])
      as (evs & E & _ & _ & H).
    exists evs. split; [exact E|]. apply H. left. intros size. discriminate.
Defined.

(** X15.  A failure of [finalize] is what [upload_disk_image] raises,
    also when the [try] block had raised (the error of a rejected chunk is
    lost), and nothing is polled after it. *)
Theorem finalize_failure_masks (fuel : nat) (w : World) (params : Params)
    (h : History) (size : Z) (t : ImageTransfer) (r1 : outcome unit) (st1 : Frame)
    (msg : string) :
  w_getsize w (h ++ [EGetSize (p_image_path params)]) = Replied size ->
  w_transfer_add w (try_start params h) = Replied t ->
  upload_try fuel w params size (mkFrame (try_start params h) t) = (r1, st1) ->
  r1 <> Diverge ->
  w_finalize w (f_hist st1 ++ [EFinalize]) = Failed msg ->
  upload_disk_image fuel w params h
  = (Raise (RemoteError msg), f_hist st1 ++ [EFinalize]).
Proof.
  intros Hs Ht Htry Hnd Hfin.
  rewrite (upload_disk_image_eq fuel w params h size t Hs Ht).
  unfold try_finally. rewrite Htry.
  assert (Hf : upload_finally fuel w params st1
               = (Raise (RemoteError msg),
                  mkFrame (f_hist st1 ++ [EFinalize]) (f_transfer st1))).
  { unfold upload_finally. unfold bind at 1, lift at 1, call at 1.
    rewrite Hfin. reflexivity. }
  rewrite Hf. destruct r1 as [[]|e|]; [reflexivity | reflexivity | congruence].
Qed.

Lemma finalize_failure_masks_witness :
  fst (upload_disk_image 10 fresh_ticket_world sample_params [])
  = Raise (RemoteError "finalize failed").
Proof.
  assert (Hnd : @Ret unit tt <> Diverge) by discriminate.
  exact (f_equal fst
           (finalize_failure_masks 10 fresh_ticket_world sample_params []
              10000000
              (mkTransfer "t1" INITIALIZING "stale" (mkUrl "proxy" 54323 "/stale"))
              (Ret tt) _ "finalize failed" eq_refl eq_refl eq_refl Hnd eq_refl)).
Defined.

(** ** The upload loop when it returns *)

Lemma rounds_left_done (size pos : Z) : size <= pos -> rounds_left size pos = 0%nat.
Proof.
  intros Hle. unfold rounds_left, ceil_div.
  assert (HC : 0 < chunk_size) by reflexivity.
  assert ((size - pos + chunk_size - 1) / chunk_size < 1)
    by (apply Z.div_lt_upper_bound; lia).
  lia.
Qed.

Lemma upload_loop_returned_rounds (w : World) (size : Z) (url : ParseResult)
    (ticket : string) (fuel : nat) :
  forall (k : nat) (hdrs : dict) (h h' : History),
    headers_of_round ticket hdrs ->
    upload_loop fuel w size url hdrs (Z.of_nat k * chunk_size) h = (Ret tt, h') ->
    h' = h ++ flat_map (chunk_events (path url) ticket size)
                (seq k (rounds_left size (Z.of_nat k * chunk_size))).
Proof.
  induction fuel as [|fuel IH]; intros k hdrs h h' Hh Hrun; [discriminate|].
  simpl upload_loop in Hrun.
  destruct (Z.of_nat k * chunk_size <? size) eqn:Hlt.
  - apply Z.ltb_lt in Hlt. rewrite (rounds_left_step _ _ Hlt).
    unfold bind at 1, call at 1 in Hrun.
    destruct (w_extend w (h ++ [EExtend])) as [[]|msg]; [|discriminate].
    rewrite Hh in Hrun. unfold bind at 1, call at 1 in Hrun.
    match type of Hrun with context [w_put w ?hh] =>
      destruct (w_put w hh) as [s|msg] end; [|discriminate].
    destruct (s >=? 400); [discriminate|].
    replace (Z.of_nat k * chunk_size + chunk_size)
      with (Z.of_nat (S k) * chunk_size) in * by lia.
    apply IH in Hrun; [|intros v; rewrite Hh; reflexivity].
    rewrite Hrun. simpl seq. simpl flat_map. unfold chunk_events at 2, chunk_headers.
    replace ((Z.of_nat k + 1) * chunk_size) with (Z.of_nat (S k) * chunk_size) by lia.
    rewrite <- !app_assoc. reflexivity.
  - apply Z.ltb_ge in Hlt. rewrite (rounds_left_done _ _ Hlt).
    injection Hrun as <-. simpl. rewrite app_nil_r. reflexivity.
Qed.

(** X16.  When the upload loop returns, the whole image has been sent:
    the calls it made are the [ceil (size / chunk_size)] rounds of [extend]
    and [PUT], in order, each [PUT] with the range of its round; so every
    one of them was answered with a status under 400. *)
Theorem upload_loop_returns_complete (w : World) (size : Z) (url : ParseResult)
    (ticket : string) (fuel : nat) (h h' : History) :
  upload_loop fuel w size url [("Authorization", ticket)] 0 h = (Ret tt, h') ->
  h' = h ++ flat_map (chunk_events (path url) ticket size)
              (seq 0 (Z.to_nat (ceil_div size chunk_size))).
Proof.
  intros Hrun.
  apply (upload_loop_returned_rounds w size url ticket fuel 0
           [("Authorization", ticket)] h h') in Hrun.
  - unfold rounds_left in Hrun. simpl Z.mul in Hrun.
    rewrite Z.sub_0_r in Hrun. exact Hrun.
  - intros v. reflexivity.
Qed.

Lemma upload_loop_returns_complete_witness :
  snd (upload_loop 10 (smooth_world 20000000 image_disk) 20000000 sample_url
         [("Authorization", "ticket")] 0 [])
  = [] ++ flat_map (chunk_events (path sample_url) "ticket" 20000000)
            (seq 0 (Z.to_nat (ceil_div 20000000 chunk_size))).
Proof.
  exact (upload_loop_returns_complete (smooth_world 20000000 image_disk) 20000000
           sample_url "ticket" 10 [] _ eq_refl).
Defined.

(** ** Storage placement with nothing declared *)

(** X17.  With no storage domain declared ([storage_domain] missing or
    empty, [storage_domains] missing or an empty list),
    [update_storage_domains] reads the disk and does nothing else: it
    returns unchanged, or fails as the read of the disk failed. *)
Theorem nothing_declared_no_placement (fuel : nat) (w : World) (params : Params)
    (id : string) (h : History) :
  truthy_str (p_storage_domain params) = false ->
  truthy_list (p_storage_domains params) = false ->
  update_storage_domains fuel w params id h
  = (match w_disk_get w (h ++ [EDiskGet id]) with
     | Replied _ => Ret false
     | Failed msg => Raise (RemoteError msg)
     end, h ++ [EDiskGet id]).
Proof.
  intros Hsd Hsds. unfold update_storage_domains. unfold bind at 1, call at 1.
  destruct (w_disk_get w (h ++ [EDiskGet id])) as [disk|msg]; [|reflexivity].
  rewrite Hsd, Hsds.
  destruct (negb (storage_type_eqb (storage_type disk) IMAGE)); reflexivity.
Qed.

Lemma nothing_declared_no_placement_witness :
  update_storage_domains 10 (smooth_world 20000000 image_disk)
    empty_storage_params "d1" []
  = (Ret false, [EDiskGet "d1"]).
Proof.
  exact (nothing_declared_no_placement 10 (smooth_world 20000000 image_disk)
           empty_storage_params "d1" [] eq_refl eq_refl).
Defined.

(** ** The disk the image goes to, and LUN disks *)





(** X19.  With a [logical_unit] given, be it an empty dictionary, [main]
    asks for no result state when it creates the disk and does not wait for
    the status of the disk after it attached it. *)
Theorem lun_disk_not_waited_for (fuel : nat) (w : World) (params : Params) :
  is_not_None (p_logical_unit params) = true ->
  appends no_status_expected (main fuel w params).
Proof.
  intros Hlun. apply appends_main; [| |reflexivity].
  - unfold disk_phase.
    apply appends_bind; [apply appends_create_connection|]. intros _.
    apply appends_bind; [apply appends_lun_phase; reflexivity|]. intros disk.
    apply appends_if.
    + unfold reconcile_disk, create. rewrite Hlun.
      apply appends_bind.
      { apply appends_bind; [apply appends_call; reflexivity | auto with appends]. }
      intros r. apply appends_bind.
      { apply appends_if; [auto with appends|].
        apply appends_update_storage_domains; reflexivity. }
      intros ch. apply appends_bind; [|auto with appends].
      apply appends_if; [|auto with appends].
      apply appends_bind; [|auto with appends].
      apply appends_upload_disk_image.
      intros e He. destruct e; try reflexivity; discriminate.
    + unfold remove.
      apply appends_bind; [|auto with appends].
      apply appends_bind; [apply appends_call; reflexivity | auto with appends].
  - intros i r _. unfold attach_branch, create, remove, fail_json, search_by_name.
    change (p_logical_unit (set_id params i)) with (p_logical_unit params).
    rewrite Hlun.
    apply appends_bind.
    { destruct (p_vm_id (set_id params i)); [auto with appends|].
      apply appends_bind; [apply appends_call; reflexivity | auto with appends]. }
    intros [v|]; [|auto with appends].
    apply appends_bind; [apply appends_emit; reflexivity|]. intros _.
    apply appends_if.
    * apply appends_bind.
      { apply appends_bind; [apply appends_call; reflexivity | auto with appends]. }
      intros r'. auto with appends.
    * apply appends_if; [|auto with appends].
      apply appends_bind; [apply appends_call; reflexivity | auto with appends].
Qed.

Lemma lun_disk_not_waited_for_witness :
  is_not_None (p_logical_unit lun_params) = true
  /\ exists evs,
       snd (main 10 (with_lun_disks [lun_disk] (smooth_world 20000000 lun_disk))
              lun_params []) = [] ++ evs
       /\ forallb no_status_expected evs = true.
Proof.
  split; [reflexivity|].
  exact (lun_disk_not_waited_for 10
           (with_lun_disks [lun_disk] (smooth_world 20000000 lun_disk))
           lun_params eq_refl []).
Defined.

(** X20.  Without a [logical_unit] (missing or empty),
    [upload_disk_image] polls no disk status: it ends with the loop that
    follows [finalize]. *)
Theorem status_polled_for_lun_only (fuel : nat) (w : World) (params : Params) :
  truthy_list (p_logical_unit params) = false ->
  appends (fun e => negb (is_status_poll e)) (upload_disk_image fuel w params).
Proof.
  intros Hlun. unfold upload_disk_image.
  apply appends_bind; [apply appends_call; reflexivity|]. intros size.
  apply appends_bind; [apply appends_call; reflexivity|]. intros t.
  apply appends_bind; [|auto with appends].
  apply appends_in_frame, appends_frame_try_finally.
  - apply appends_upload_try; reflexivity.
  - unfold upload_finally. rewrite Hlun.
    apply appends_frame_bind.
    { apply appends_frame_lift, appends_call. reflexivity. }
    intros _. apply appends_frame_bind.
    { rewrite finalize_wait_poll_while. apply appends_frame_poll_while; reflexivity. }
    intros _. auto with appends.
Qed.

Lemma status_polled_for_lun_only_witness :
  truthy_list (p_logical_unit sample_params) = false
  /\ exists evs,
       snd (upload_disk_image 10 (smooth_world 20000000 image_disk) sample_params [])
       = [] ++ evs
       /\ forallb (fun e => negb (is_status_poll e)) evs = true.
Proof.
  split; [reflexivity|].
  exact (status_polled_for_lun_only 10 (smooth_world 20000000 image_disk)
           sample_params eq_refl []).
Defined.
